(** * Alaska chat client: a shallow embedding of its audio and session logic

    The development follows the repository file by file:

    - [JS]            the fragment of JavaScript the sources rely on
                      (thrown values, [try]/[catch], numbers, typed arrays);
    - [audioUtils]    utils/audioUtils.ts  (PCM decoding, playback handle);
    - [geminiService] services/geminiService.ts (text and speech requests);
    - [App]           the root component (session state, capture, playback).

    Browser interfaces (Web Audio, Web Speech, base64) are not part of the
    repository; each one is modelled next to its first use, with the rule of
    its standard that the model follows. *)

From Stdlib Require Import ZArith QArith Qround Ascii String List Lia.
From Stdlib Require Import Strings.Byte.
From stdpp Require Import base option list strings.

Local Open Scope string_scope.
Local Open Scope nat_scope.
Local Open Scope list_scope.

(* ================================================================== *)
(** * JavaScript fragment *)
(* ================================================================== *)

Module JS.

(** A value caught by a [catch] clause.  The sources read three things of
    it: [error.message], [error.toString()] and [error.status].  Two shapes
    occur: an [Error] object (the service's own [new Error(..)], a platform
    exception, an SDK error that may carry an HTTP status) and a DOM event
    used as a rejection value ([reader.onerror = reject]).  Nothing in the
    sources, the SDK or the platform throws [null] or [undefined]. *)
Inductive Thrown : Type :=
  | ErrorObj (name message : string) (status : option Z)
  | EventObj (kind : string).

Definition error_message (e : Thrown) : option string :=
  match e with
  | ErrorObj _ m _ => Some m
  | EventObj _ => None
  end.

Definition error_status (e : Thrown) : option Z :=
  match e with
  | ErrorObj _ _ s => s
  | EventObj _ => None
  end.

(** [Error.prototype.toString]: name, then message when there is one; a DOM
    event prints as [[object Kind]]. *)
Definition error_toString (e : Thrown) : string :=
  match e with
  | ErrorObj n m _ =>
      if String.eqb n "" then m
      else if String.eqb m "" then n
      else n +:+ ": " +:+ m
  | EventObj k => "[object " +:+ k +:+ "]"
  end.

Definition Error (m : string) : Thrown := ErrorObj "Error" m None.
Definition RangeError (m : string) : Thrown := ErrorObj "RangeError" m None.
Definition DOMException (name m : string) : Thrown := ErrorObj name m None.

(** The completion of a call: a value or a thrown exception (for an [async]
    function: the promise is fulfilled or rejected). *)
Inductive Outcome (A : Type) : Type :=
  | Ok (a : A)
  | Throw (e : Thrown).
Arguments Ok {A} a.
Arguments Throw {A} e.

#[export] Instance Outcome_ret : MRet Outcome := fun _ a => Ok a.
#[export] Instance Outcome_bind : MBind Outcome := fun _ _ f c =>
  match c with
  | Ok a => f a
  | Throw e => Throw e
  end.

(** [try { body } catch (e) { handler e }] for a call without state. *)
Definition try_catch {A} (body : Outcome A) (handler : Thrown -> Outcome A)
  : Outcome A :=
  match body with
  | Ok a => Ok a
  | Throw e => handler e
  end.

Definition is_Ok {A} (c : Outcome A) : bool :=
  match c with Ok _ => true | Throw _ => false end.

(** Code that reads and writes a store [S] and may throw: the store is kept
    as it was when the exception left the call. *)
Definition M (S A : Type) : Type := S -> Outcome A * S.

Section Monad.
Context {S : Type}.

Definition ret {A} (a : A) : M S A := fun s => (Ok a, s).
Definition bind {A B} (c : M S A) (k : A -> M S B) : M S B := fun s =>
  match c s with
  | (Ok a, s') => k a s'
  | (Throw e, s') => (Throw e, s')
  end.
Definition throw {A} (e : Thrown) : M S A := fun s => (Throw e, s).
Definition get : M S S := fun s => (Ok s, s).
Definition gets {A} (f : S -> A) : M S A := fun s => (Ok (f s), s).
Definition modify (f : S -> S) : M S unit := fun s => (Ok tt, f s).
Definition lift {A} (c : Outcome A) : M S A := fun s => (c, s).

(** [try]/[catch] around stateful code: the handler runs in the store the
    body left behind. *)
Definition try_ {A} (body : M S A) (handler : Thrown -> M S A) : M S A :=
  fun s =>
    match body s with
    | (Ok a, s') => (Ok a, s')
    | (Throw e, s') => handler e s'
    end.

(** [for (const x of xs) body x] *)
Fixpoint for_of {A} (xs : list A) (body : A -> M S unit) : M S unit :=
  match xs with
  | [] => ret tt
  | x :: rest => bind (body x) (fun _ => for_of rest body)
  end.

(** [if (c) body], no [else]. *)
Definition when (c : bool) (body : M S unit) : M S unit :=
  if c then body else ret tt.
End Monad.

#[export] Instance M_ret {S} : MRet (M S) := fun _ a => ret a.
#[export] Instance M_bind {S} : MBind (M S) := fun _ _ k c => bind c k.

(** The store after a call, and whether the call returned. *)
Definition exec {S A} (c : M S A) (s : S) : S := snd (c s).
Definition returns {S A} (c : M S A) (s : S) : bool := is_Ok (fst (c s)).

(** ** Numbers

    A JavaScript number as far as the decoder needs it: a finite value, kept
    exact as a rational, [NaN], or [+Infinity]. *)
Inductive number : Type :=
  | Num (q : Q)
  | NaN
  | Infinity.

(** [a / b] for two array lengths. *)
Definition div_lengths (a b : nat) : number :=
  match b with
  | O => match a with O => NaN | _ => Infinity end
  | _ => Num (Z.of_nat a # Pos.of_nat b)
  end.

(** WebIDL conversion of a number to [unsigned long], for arguments the
    sources pass: the fraction is dropped, [NaN] and infinities give 0. *)
Definition to_unsigned_long (x : number) : nat :=
  match x with
  | Num q => Z.to_nat (Qfloor q)
  | NaN | Infinity => 0
  end.

(** The indices [i = 0, 1, ..] with [i < bound], as a counting loop visits
    them.  An infinite bound has no finite list; the decoder never reaches a
    loop with one (see [AudioFacts.decodeAudioData_no_channels]). *)
Definition indices_below (bound : number) : list nat :=
  match bound with
  | Num q => seq 0 (Z.to_nat (Qceiling q))
  | NaN | Infinity => []
  end.

(** [s.includes(sub)] *)
Definition includes (s sub : string) : bool :=
  match String.index 0 sub s with
  | Some _ => true
  | None => false
  end.

(** [xs.slice(-n)]: the last [n] elements, all of them when there are fewer. *)
Definition slice_last {A} (n : nat) (xs : list A) : list A :=
  drop (length xs - n) xs.

(** ** Typed arrays *)

(** An [ArrayBuffer] is its bytes.  A [Uint8Array] is a window on a buffer:
    [byteLength] bytes from [byteOffset] on. *)
Record Uint8Array : Type := {
  buffer : list byte;
  byteOffset : nat;
  byteLength : nat
}.

(** The elements a [Uint8Array] shows. *)
Definition elements (a : Uint8Array) : list byte :=
  take (byteLength a) (drop (byteOffset a) (buffer a)).

(** [new Uint8Array(len)]: a fresh zeroed buffer, seen whole. *)
Definition Uint8Array_new (len : nat) : Uint8Array :=
  {| buffer := replicate len Byte.x00; byteOffset := 0; byteLength := len |}.

(** [a[i] = b]; a write outside the window is dropped. *)
Definition Uint8Array_set (a : Uint8Array) (i : nat) (b : byte) : Uint8Array :=
  if (i <? byteLength a)%nat
  then {| buffer := <[byteOffset a + i := b]> (buffer a);
          byteOffset := byteOffset a; byteLength := byteLength a |}
  else a.

(** A [Uint8Array] over the whole of its own buffer, as [Uint8Array_new] and
    [Uint8Array.from] make them. *)
Definition spans_buffer (a : Uint8Array) : Prop :=
  byteOffset a = 0 /\ byteLength a = length (buffer a).

Definition Uint8Array_of (bs : list byte) : Uint8Array :=
  {| buffer := bs; byteOffset := 0; byteLength := length bs |}.

(** A signed 16-bit value from its two bytes, low byte first (typed arrays
    use the byte order of the host, little-endian on the hosts that run
    browsers). *)
Definition int16_le (lo hi : byte) : Z :=
  let u := (Z.of_N (Byte.to_N lo) + 256 * Z.of_N (Byte.to_N hi))%Z in
  if (u <? 32768)%Z then u else (u - 65536)%Z.

Fixpoint int16_pairs (bs : list byte) : list Z :=
  match bs with
  | lo :: hi :: rest => int16_le lo hi :: int16_pairs rest
  | _ => []
  end.

(** [new Int16Array(buf)]: a view of the whole buffer; a [RangeError] when
    its byte length is odd. *)
Definition Int16Array_of_buffer (buf : list byte) : Outcome (list Z) :=
  if Nat.even (length buf) then Ok (int16_pairs buf)
  else Throw (RangeError "byte length of Int16Array should be a multiple of 2").

End JS.
Import JS.

(* ================================================================== *)
(** * Browser interfaces used by the audio code *)
(* ================================================================== *)

Module Browser.

(** ** [atob]: the forgiving base64 decoder of the HTML standard

    ASCII whitespace is dropped; when the length is then a multiple of four,
    one or two trailing [=] are dropped; a length of 1 modulo 4 or a
    character outside the standard alphabet is an [InvalidCharacterError];
    each character gives six bits, and bits left over at the end are
    discarded.  The result is a binary string, kept here as its bytes. *)

Definition is_ascii_whitespace (c : ascii) : bool :=
  let n := N_of_ascii c in
  ((n =? 9) || (n =? 10) || (n =? 12) || (n =? 13) || (n =? 32))%N.

Definition sextet (c : ascii) : option N :=
  let n := N_of_ascii c in
  if ((65 <=? n) && (n <=? 90))%N then Some (n - 65)%N
  else if ((97 <=? n) && (n <=? 122))%N then Some (n - 71)%N
  else if ((48 <=? n) && (n <=? 57))%N then Some (n + 4)%N
  else if (n =? 43)%N then Some 62%N
  else if (n =? 47)%N then Some 63%N
  else None.

Definition byte_of_N (n : N) : byte :=
  default Byte.x00 (Byte.of_N (n mod 256)%N).

Fixpoint decode_sextets (xs : list N) : list byte :=
  match xs with
  | a :: b :: c :: d :: rest =>
      let w := (a * 262144 + b * 4096 + c * 64 + d)%N in
      byte_of_N (w / 65536) :: byte_of_N (w / 256) :: byte_of_N w
        :: decode_sextets rest
  | [a; b; c] =>
      let w := (a * 4096 + b * 64 + c)%N in
      [byte_of_N (w / 1024); byte_of_N (w / 4)]
  | [a; b] => [byte_of_N ((a * 64 + b) / 16)]
  | _ => []
  end.

Definition strip_padding (cs : list ascii) : list ascii :=
  if (length cs mod 4 =? 0)%nat then
    match reverse cs with
    | "="%char :: "="%char :: r => reverse r
    | "="%char :: r => reverse r
    | _ => cs
    end
  else cs.

Definition atob (data : string) : Outcome (list byte) :=
  let cs := filter (fun c => is_ascii_whitespace c = false)
              (list_ascii_of_string data) in
  let cs := strip_padding cs in
  if (length cs mod 4 =? 1)%nat
  then Throw (DOMException "InvalidCharacterError" "The string is not correctly encoded")
  else match mapM sextet cs with
       | Some xs => Ok (decode_sextets xs)
       | None =>
           Throw (DOMException "InvalidCharacterError" "The string is not correctly encoded")
       end.

(** ** Web Audio *)

(** The ranges an implementation accepts for a buffer: the standard requires
    at least 32 channels and the rates from 8000 to 96000 Hz, and leaves the
    limits themselves to the implementation.  [stopThrowsWhenIdle] tells
    apart the engines whose [stop()] raises [InvalidStateError] on a source
    that is no longer playing from those that ignore the call. *)
Record AudioLimits : Type := {
  maxChannels : nat;
  minRate : Q;
  maxRate : Q;
  stopThrowsWhenIdle : bool
}.

Inductive ContextState : Type := suspended | running.

Record AudioContext : Type := {
  limits : AudioLimits;
  contextRate : Q;
  state : ContextState
}.

(** An [AudioBuffer]: [frames] samples in each of its channels. *)
Record AudioBuffer : Type := {
  numberOfChannels : nat;
  frames : nat;
  sampleRate : Q;
  channels : list (list number)
}.

(** [ctx.createBuffer(numberOfChannels, length, sampleRate)]: a silent
    buffer; a [NotSupportedError] when an argument is zero or outside the
    range of the implementation. *)
Definition createBuffer (ctx : AudioContext) (numberOfChannels : nat)
    (length : number) (sampleRate : Q) : Outcome AudioBuffer :=
  let len := to_unsigned_long length in
  if ((1 <=? numberOfChannels)%nat
      && (numberOfChannels <=? maxChannels (limits ctx))%nat
      && (1 <=? len)%nat
      && Qle_bool (minRate (limits ctx)) sampleRate
      && Qle_bool sampleRate (maxRate (limits ctx)))%bool
  then Ok {| numberOfChannels := numberOfChannels;
             frames := len;
             sampleRate := sampleRate;
             channels := replicate numberOfChannels (replicate len (Num 0)) |}
  else Throw (DOMException "NotSupportedError" "createBuffer").

(** [buffer.getChannelData(channel)[i] = v]: the channel data is the
    buffer's own storage; a write past the end of a [Float32Array] is
    dropped. *)
Definition setChannelData (b : AudioBuffer) (channel i : nat) (v : number)
  : AudioBuffer :=
  {| numberOfChannels := numberOfChannels b;
     frames := frames b;
     sampleRate := sampleRate b;
     channels := alter (fun channelData => <[i := v]> channelData) channel (channels b) |}.

Definition getChannelData (b : AudioBuffer) (channel i : nat) : option number :=
  channels b !! channel ≫= fun channelData => channelData !! i.

(** An [AudioBufferSourceNode].  Once started it plays until its buffer runs
    out or [stop()] is called; when it has stopped playing, for either
    reason, the engine queues an [ended] event, which the page's thread
    dispatches once, some time later.  [C] is what the [onended] handler
    calls. *)
Inductive PlayState : Type :=
  | Unscheduled   (* created, start() not called *)
  | Playing
  | Finished      (* no longer playing, [ended] not dispatched yet *)
  | Ended.        (* [ended] dispatched *)

Record SourceNode (C : Type) : Type := {
  nodeBuffer : option AudioBuffer;
  connected : bool;
  onended : option (option C);  (* the handler, and the callback it guards *)
  playState : PlayState
}.
Arguments nodeBuffer {C} _.
Arguments connected {C} _.
Arguments onended {C} _.
Arguments playState {C} _.

Section Source.
Context {C : Type}.

Definition createBufferSource : SourceNode C :=
  {| nodeBuffer := None; connected := false; onended := None;
     playState := Unscheduled |}.

Definition set_playState (p : PlayState) (n : SourceNode C) : SourceNode C :=
  {| nodeBuffer := nodeBuffer n; connected := connected n;
     onended := onended n; playState := p |}.

(** [source.start()] *)
Definition source_start (n : SourceNode C) : Outcome (SourceNode C) :=
  match playState n with
  | Unscheduled => Ok (set_playState Playing n)
  | _ => Throw (DOMException "InvalidStateError" "cannot call start more than once")
  end.

(** [source.stop()] *)
Definition source_stop (l : AudioLimits) (n : SourceNode C)
  : Outcome (SourceNode C) :=
  match playState n with
  | Unscheduled =>
      Throw (DOMException "InvalidStateError" "cannot call stop without calling start first")
  | Playing => Ok (set_playState Finished n)
  | Finished | Ended =>
      if stopThrowsWhenIdle l
      then Throw (DOMException "InvalidStateError" "the source is not playing")
      else Ok n
  end.

(** The buffer has been played to its end. *)
Definition buffer_runs_out (n : SourceNode C) : SourceNode C :=
  match playState n with
  | Playing => set_playState Finished n
  | _ => n
  end.

(** The queued [ended] event is dispatched: the node's handler, if set,
    is called, and with it the callback it guards. *)
Definition dispatch_ended (n : SourceNode C) : SourceNode C * option C :=
  match playState n with
  | Finished =>
      (set_playState Ended n,
       match onended n with Some cb => cb | None => None end)
  | _ => (n, None)
  end.
End Source.

End Browser.
Import Browser.

(* ================================================================== *)
(** * utils/audioUtils.ts *)
(* ================================================================== *)

Module audioUtils.

(** [decodeBase64] (lines 4-12): the bytes of [atob(base64)], written one by
    one into a fresh [Uint8Array]. *)
Definition decodeBase64 (base64 : string) : Outcome Uint8Array :=
  binaryString ← atob base64;
  let len := length binaryString in
  let bytes := Uint8Array_new len in
  mret (foldl (fun bytes i =>
                 match binaryString !! i with
                 | Some charCode => Uint8Array_set bytes i charCode
                 | None => bytes
                 end)
              bytes (seq 0 len)).

(** [dataInt16[k] / 32768.0]: a 16-bit value over 2^15 is exact in binary
    floating point, single precision included, so the [Float32Array] stores
    the quotient itself; [undefined / 32768.0] is [NaN]. *)
Definition pcm_sample (v : option Z) : number :=
  match v with
  | Some v => Num (v # 32768)
  | None => NaN
  end.

(** [decodeAudioData] (lines 18-36).  The view is taken over [data.buffer],
    the whole buffer behind [data]. *)
Definition decodeAudioData (data : Uint8Array) (ctx : AudioContext)
    (sampleRate : Q) (numChannels : nat) : Outcome AudioBuffer :=
  dataInt16 ← Int16Array_of_buffer (buffer data);
  let frameCount := div_lengths (length dataInt16) numChannels in
  buffer ← createBuffer ctx numChannels frameCount sampleRate;
  mret (foldl (fun buffer channel =>
                 foldl (fun buffer i =>
                          setChannelData buffer channel i
                            (pcm_sample (dataInt16 !! (i * numChannels + channel)%nat)))
                       buffer (indices_below frameCount))
              buffer (seq 0 numChannels)).

(** The defaults of the signature: 24000 Hz, one channel. *)
Definition decodeAudioData_defaults (data : Uint8Array) (ctx : AudioContext)
  : Outcome AudioBuffer :=
  decodeAudioData data ctx 24000 1.

(** [playAudioBuffer] (lines 41-65) returns an object whose [stop] closes
    over the source node; the node stands for that object here. *)
Definition playAudioBuffer {C} (ctx : AudioContext) (buffer : AudioBuffer)
    (onEnded : option C) : Outcome (SourceNode C) :=
  let source : SourceNode C := createBufferSource in
  let source := {| nodeBuffer := Some buffer; connected := connected source;
                   onended := onended source; playState := playState source |} in
  let source := {| nodeBuffer := nodeBuffer source; connected := true;
                   onended := onended source; playState := playState source |} in
  let source := {| nodeBuffer := nodeBuffer source; connected := connected source;
                   onended := Some onEnded; playState := playState source |} in
  source_start source.

(** The handle's [stop()] (lines 57-63); [l] are the limits of the engine
    the node lives in. *)
Definition stop {C} (l : AudioLimits) (source : SourceNode C)
  : Outcome (SourceNode C) :=
  try_catch (source_stop l source) (fun e => Ok source).

(** ** One playback and what can happen to it

    After [playAudioBuffer] returned, the caller may call [stop()] at any
    time, the buffer may run out, and the engine may dispatch the queued
    [ended] event. *)
Inductive PlaybackEvent : Type :=
  | CallStop
  | BufferRunsOut
  | DispatchEnded.

Record Playback (C : Type) : Type := {
  source : SourceNode C;
  completions : list C;     (* calls of [onEnded], latest first *)
  stopErrors : list Thrown  (* what calls of the handle's [stop()] raised *)
}.
Arguments source {C} _.
Arguments completions {C} _.
Arguments stopErrors {C} _.

Definition playback_step {C} (l : AudioLimits) (p : Playback C)
    (ev : PlaybackEvent) : Playback C :=
  match ev with
  | CallStop =>
      match stop l (source p) with
      | Ok n => {| source := n; completions := completions p;
                   stopErrors := stopErrors p |}
      | Throw e => {| source := source p; completions := completions p;
                      stopErrors := e :: stopErrors p |}
      end
  | BufferRunsOut =>
      {| source := buffer_runs_out (source p); completions := completions p;
         stopErrors := stopErrors p |}
  | DispatchEnded =>
      let '(n, called) := dispatch_ended (source p) in
      {| source := n;
         completions := match called with
                        | Some cb => cb :: completions p
                        | None => completions p
                        end;
         stopErrors := stopErrors p |}
  end.

Definition playback_run {C} (l : AudioLimits) (evs : list PlaybackEvent)
    (n : SourceNode C) : Playback C :=
  foldl (playback_step l)
        {| source := n; completions := []; stopErrors := [] |} evs.

End audioUtils.

(* ================================================================== *)
(** * types.ts *)
(* ================================================================== *)

Module types.

Inductive MessageRole : Type := USER | MODEL.

(** A [File] of the platform: its MIME type and what a [FileReader] gives
    for it as a data URL ([None]: the read fails). *)
Record File : Type := {
  fileName : string;
  fileType : string;
  dataURL : option string
}.

Inductive AttachmentType : Type := image | pdf.

Record Attachment : Type := {
  file : File;
  previewUrl : string;
  type : AttachmentType;
  base64 : option string
}.

(** Message ids are the strings [uuidv4()] returns; they are only compared,
    and are numbered here in the order they are drawn.  A [Date] is the
    reading of a clock. *)
Definition Id : Type := nat.
Definition Date : Type := nat.

Record Message : Type := {
  id : Id;
  role : MessageRole;
  text : string;
  attachments : option (list Attachment);
  timestamp : Date;
  isAudioPlaying : option bool
}.

Inductive Language : Type := ar | en.

(** [{ ...m, isAudioPlaying: b }] *)
Definition with_isAudioPlaying (b : bool) (m : Message) : Message :=
  {| id := id m; role := role m; text := text m;
     attachments := attachments m; timestamp := timestamp m;
     isAudioPlaying := Some b |}.

(** The "audible" flag as a condition ([message.isAudioPlaying && ..]). *)
Definition audible (m : Message) : bool :=
  match isAudioPlaying m with
  | Some true => true
  | _ => false
  end.

End types.
Import types.

(* ================================================================== *)
(** * services/geminiService.ts *)
(* ================================================================== *)

Module geminiService.

Definition quote : string := String (ascii_of_nat 34) EmptyString.

Definition SYSTEM_INSTRUCTION : string :=
  "
You are " +:+ quote +:+ "Alaska" +:+ quote +:+ " (ألاسكا), an advanced personal AI assistant.
You were programmed and developed by " +:+ quote +:+ "Hamza Al-Jammal" +:+ quote +:+ " (حمزه الجمل).
You are NOT developed by Google.
You speak Arabic and English fluently.
Your tone is natural, friendly, and intelligent.
Your mission is to help the user with conversation, image analysis, and PDF reading.
If the user speaks Arabic, reply in Arabic. If the user speaks English, reply in English.
Keep answers helpful, concise when needed, and comprehensive when asked.
".

(** The three fixed replies of [generateTextResponse] (lines 94, 100, 103). *)
Definition NO_REPLY : string :=
  "عذراً، لم أستطع تكوين رد. (Sorry, I couldn't generate a response.)".

Definition KEY_NOTICE : string :=
  "⚠️ **تنبيه هام**: مفتاح API مفقود أو غير صحيح.

يرجى التأكد من إضافة متغير البيئة `API_KEY` في إعدادات المنصة (مثل Netlify أو Vercel).

(Critical Error: API Key is missing or invalid. Please check your deployment settings.)".

Definition CONNECTION_ERROR : string :=
  "عذراً، حدث خطأ أثناء الاتصال بالخادم. (Error connecting to Alaska AI)".

(** ** What goes over the wire

    The SDK is not part of the repository.  A request is kept as the
    arguments the service passes; a response as the fields it reads. *)

Record GoogleGenAI : Type := { apiKey : string }.

Inductive Part : Type :=
  | TextPart (text : string)
  | InlineDataPart (data : option string) (mimeType : string).

Record Content : Type := {
  contentRole : string;
  parts : list Part
}.

(** [ai.chats.create({..})] followed by [chat.sendMessage({ message })]. *)
Record ChatRequest : Type := {
  chatModel : string;
  systemInstruction : string;
  history : list Content;
  message : list Part
}.

(** [ai.models.generateContent({..})] of [generateSpeech]. *)
Record SpeechRequest : Type := {
  speechModel : string;
  contents : list Part;
  voiceName : string
}.

Record Blob : Type := { blobData : option string }.
Record ResponsePart : Type := { inlineData : option Blob }.
Record ResponseContent : Type := { responseParts : option (list ResponsePart) }.
Record Candidate : Type := { content : option ResponseContent }.

Record GenerateContentResponse : Type := {
  candidates : option (list Candidate);
  responseText : option string   (* the [text] accessor *)
}.

Inductive Call : Type :=
  | SendMessage (req : ChatRequest)
  | GenerateContent (req : SpeechRequest).

(** The module's state: the credential the build put in
    [process.env.API_KEY] (vite.config.ts defines it as the empty string
    when none is configured), the client kept in [aiInstance], and the
    requests sent so far, latest last. *)
Record Service : Type := {
  API_KEY : string;
  aiInstance : option GoogleGenAI;
  calls : list Call
}.

Definition set_aiInstance (ai : GoogleGenAI) (s : Service) : Service :=
  {| API_KEY := API_KEY s; aiInstance := Some ai; calls := calls s |}.

Definition record_call (c : Call) (s : Service) : Service :=
  {| API_KEY := API_KEY s; aiInstance := aiInstance s; calls := calls s ++ [c] |}.

(** A string in a condition: empty is false. *)
Definition truthy (s : string) : bool := negb (String.eqb s "").

(** [getAiClient] (lines 18-27). *)
Definition getAiClient : M Service GoogleGenAI :=
  cached ← gets aiInstance;
  match cached with
  | Some ai => mret ai
  | None =>
      apiKey ← gets API_KEY;
      if negb (truthy apiKey)
      then throw (Error "API_KEY_MISSING")
      else modify (set_aiInstance {| apiKey := apiKey |});;
           mret {| apiKey := apiKey |}
  end.

(** [s.split(',')] *)
Fixpoint split_commas (s : string) : list string :=
  match s with
  | EmptyString => [EmptyString]
  | String c rest =>
      if Ascii.eqb c ","%char then EmptyString :: split_commas rest
      else match split_commas rest with
           | first :: others => String c first :: others
           | [] => [String c EmptyString]
           end
  end.

(** [fileToGenerativePart] (lines 32-47): the promise is rejected with the
    reader's error event, or resolved with the text after the first comma
    of the data URL. *)
Definition fileToGenerativePart (f : File) : Outcome Part :=
  match dataURL f with
  | None => Throw (EventObj "ProgressEvent")
  | Some result =>
      Ok (InlineDataPart (split_commas result !! 1%nat) (fileType f))
  end.

Definition to_content (m : Message) : Content :=
  {| contentRole := match role m with USER => "user" | MODEL => "model" end;
     parts := [TextPart (text m)] |}.

(** Lines 60-88 of [generateTextResponse]: everything the [try] block does
    before it sends. *)
Definition prepare_chat (currentMessage : string) (attachments : list Attachment)
    (history : list Message) : M Service ChatRequest :=
  ai ← getAiClient;
  let recentHistory := slice_last 10 history in
  let chatHistory := to_content <$> recentHistory in
  let parts := if truthy currentMessage then [TextPart currentMessage] else [] in
  fileParts ← lift (mapM (M := Outcome) (fun att => fileToGenerativePart (file att)) attachments);
  mret {| chatModel := "gemini-2.5-flash";
          systemInstruction := SYSTEM_INSTRUCTION;
          history := chatHistory;
          message := parts ++ fileParts |}.

(** Line 94: [result.text || "..."]. *)
Definition reply_text (result : GenerateContentResponse) : string :=
  match responseText result with
  | Some t => if truthy t then t else NO_REPLY
  | None => NO_REPLY
  end.

(** Lines 95-103: the [catch] block. *)
Definition error_text (error : Thrown) : string :=
  if (bool_decide (error_message error = Some "API_KEY_MISSING")
      || includes (error_toString error) "API key"
      || bool_decide (error_status error = Some 403%Z))%bool
  then KEY_NOTICE
  else CONNECTION_ERROR.

(** [chat.sendMessage]: the request goes out, and [backend] tells how the
    call ends. *)
Definition sendMessage (backend : ChatRequest -> Outcome GenerateContentResponse)
    (req : ChatRequest) : M Service GenerateContentResponse :=
  modify (record_call (SendMessage req));;
  lift (backend req).

(** [generateTextResponse] (lines 53-105). *)
Definition generateTextResponse
    (backend : ChatRequest -> Outcome GenerateContentResponse)
    (currentMessage : string) (attachments : list Attachment)
    (history : list Message) : M Service string :=
  try_ (req ← prepare_chat currentMessage attachments history;
        result ← sendMessage backend req;
        mret (reply_text result))
       (fun error => mret (error_text error)).

(** The same function cut at its last [await], for the session, where other
    handlers run while the request is in flight: what the call has come to
    when it first yields, and what its promise resolves to once the backend
    has answered. *)
Inductive TextCall : Type :=
  | TextSettled (reply : string)      (* the [catch] block has already run *)
  | TextInFlight (req : ChatRequest).

Definition generateTextResponse_begin (currentMessage : string)
    (attachments : list Attachment) (history : list Message)
  : M Service TextCall :=
  try_ (req ← prepare_chat currentMessage attachments history;
        modify (record_call (SendMessage req));;
        mret (TextInFlight req))
       (fun error => mret (TextSettled (error_text error))).

Definition generateTextResponse_end (call : TextCall)
    (answer : Outcome GenerateContentResponse) : string :=
  match call with
  | TextSettled reply => reply
  | TextInFlight _ =>
      match answer with
      | Ok result => reply_text result
      | Throw error => error_text error
      end
  end.

(** Line 129: [response.candidates?.[0]?.content?.parts?.[0]?.inlineData?.data] *)
Definition base64Audio (response : GenerateContentResponse) : option string :=
  first ← (candidates response ≫= head : option Candidate);
  body ← content first;
  part ← (responseParts body ≫= head : option ResponsePart);
  blob ← inlineData part;
  blobData blob.

Definition speech_request (text : string) : SpeechRequest :=
  {| speechModel := "gemini-2.5-flash-preview-tts";
     contents := [TextPart text];
     voiceName := "Kore" |}.

(** Lines 129-141: from the response to the decoded buffer. *)
Definition decode_speech (audioContext : AudioContext)
    (response : GenerateContentResponse) : Outcome (option AudioBuffer) :=
  match base64Audio response with
  | Some b64 =>
      if negb (truthy b64) then Ok None
      else data ← audioUtils.decodeBase64 b64;
           audioBuffer ← audioUtils.decodeAudioData_defaults data audioContext;
           mret (Some audioBuffer)
  | None => Ok None
  end.

(** [generateSpeech] (lines 111-147). *)
Definition generateSpeech
    (backend : SpeechRequest -> Outcome GenerateContentResponse)
    (text : string) (audioContext : AudioContext)
  : M Service (option AudioBuffer) :=
  try_ (ai ← getAiClient;
        modify (record_call (GenerateContent (speech_request text)));;
        response ← lift (backend (speech_request text));
        lift (decode_speech audioContext response))
       (fun error => mret None).

Inductive SpeechCall : Type :=
  | SpeechSettled                      (* the [catch] block returned [null] *)
  | SpeechInFlight (req : SpeechRequest).

Definition generateSpeech_begin (text : string) : M Service SpeechCall :=
  try_ (ai ← getAiClient;
        modify (record_call (GenerateContent (speech_request text)));;
        mret (SpeechInFlight (speech_request text)))
       (fun error => mret SpeechSettled).

Definition generateSpeech_end (call : SpeechCall) (audioContext : AudioContext)
    (answer : Outcome GenerateContentResponse) : option AudioBuffer :=
  match call with
  | SpeechSettled => None
  | SpeechInFlight _ =>
      match try_catch (response ← answer; decode_speech audioContext response)
                      (fun error => Ok None) with
      | Ok audioBuffer => audioBuffer
      | Throw _ => None
      end
  end.

End geminiService.
Import geminiService.

(* ================================================================== *)
(** * components/InputArea.tsx *)
(* ================================================================== *)

Module InputArea.

(** [!text.trim()]: the text is nothing but white space and line
    terminators, read off the UTF-8 bytes of the string. *)
Definition white1 (c : N) : bool :=
  (((9 <=? c) && (c <=? 13)) || (c =? 32))%N.

Definition white2 (c d : N) : bool := ((c =? 194) && (d =? 160))%N.

Definition white3 (c d e : N) : bool :=
  (((c =? 225) && (d =? 154) && (e =? 128))
   || ((c =? 226) && (d =? 128)
       && (((128 <=? e) && (e <=? 138)) || (e =? 168) || (e =? 169) || (e =? 175)))
   || ((c =? 226) && (d =? 129) && (e =? 159))
   || ((c =? 227) && (d =? 128) && (e =? 128))
   || ((c =? 239) && (d =? 187) && (e =? 191)))%N.

Fixpoint all_white (cs : list N) : bool :=
  match cs with
  | [] => true
  | c :: r =>
      if white1 c then all_white r
      else match r with
           | d :: r1 =>
               if white2 c d then all_white r1
               else match r1 with
                    | e :: r2 => if white3 c d e then all_white r2 else false
                    | [] => false
                    end
           | [] => false
           end
  end.

Definition is_blank (text : string) : bool :=
  all_white (N_of_ascii <$> list_ascii_of_string text).

(** The guard of [handleSend] (line 27). *)
Definition send_refused (text : string) (attachments : list Attachment)
    (isLoading : bool) : bool :=
  (is_blank text && bool_decide (length attachments = 0%nat)) || isLoading.

(** [handleSend] (lines 26-31), for the [isLoading] and [onSendMessage] the
    component was rendered with.  Clearing the input box afterwards touches
    the component's own state only. *)
Definition handleSend {S} (onSendMessage : string -> list Attachment -> M S unit)
    (isLoading : bool) (text : string) (attachments : list Attachment)
  : M S unit :=
  if send_refused text attachments isLoading then mret tt
  else onSendMessage text attachments.

End InputArea.

(* ================================================================== *)
(** * The root component (App) *)
(* ================================================================== *)

Module App.

(** What the page finds in its environment. *)
Record Env : Type := {
  credential : string;           (* process.env.API_KEY *)
  hasSpeechRecognition : bool;   (* 'webkitSpeechRecognition' in window *)
  audioLimits : AudioLimits;
  newContextState : ContextState (* the state a new AudioContext starts in *)
}.

(** ** Speech capture

    A recognition object of the Web Speech API, in the single-utterance
    mode the component sets ([continuous] and [interimResults] false).
    [start()] on an object that is already started raises
    [InvalidStateError]; [stop()] and [abort()] on one that is not started
    are ignored.  After [stop()] a result may still arrive; after
    [abort()], or once a result or an error has been delivered, only the
    closing events remain. *)
Inductive CaptureState : Type :=
  | Idle        (* never started, or ended *)
  | Listening
  | Stopping    (* stop() called: a result may still come *)
  | Closing.    (* only [error] and [end] are still to come *)

(** [seenMessages] is the [messages] of the render that built the object:
    its [onresult] handler calls the [handleSendMessage] of that render
    (lines 61-100: [setupRecognition] is memoised on [language] alone). *)
Record Recognition : Type := {
  continuous : bool;
  interimResults : bool;
  lang : string;
  capture : CaptureState;
  seenMessages : list Message
}.

Definition set_capture (c : CaptureState) (r : Recognition) : Recognition :=
  {| continuous := continuous r; interimResults := interimResults r;
     lang := lang r; capture := c; seenMessages := seenMessages r |}.

(** ** Suspended calls

    An activation of [handleSendMessage] waiting for [generateTextResponse],
    and one of [playResponseAudio] waiting for [generateSpeech], with the
    variables each needs when it resumes. *)
Record TextWait : Type := {
  textCall : TextCall;
  isVoiceMode : bool
}.

Record SpeechWait : Type := {
  speechCall : SpeechCall;
  messageId : Id;
  speechContext : AudioContext
}.

Record State : Type := {
  env : Env;
  messages : list Message;
  isLoading : bool;
  isRecording : bool;
  language : Language;
  audioContextRef : option AudioContext;
  activeAudioSourceRef : option nat;
  recognitionRef : option nat;
  service : Service;
  sources : list (SourceNode Id);
  recognizers : list Recognition;
  textWaits : list (option TextWait);
  speechWaits : list (option SpeechWait);
  uuids : nat;
  clock : nat
}.

Definition upd_messages (f : list Message -> list Message) (s : State) : State :=
  {| env := env s;
     messages := f (messages s);
     isLoading := isLoading s;
     isRecording := isRecording s;
     language := language s;
     audioContextRef := audioContextRef s;
     activeAudioSourceRef := activeAudioSourceRef s;
     recognitionRef := recognitionRef s;
     service := service s;
     sources := sources s;
     recognizers := recognizers s;
     textWaits := textWaits s;
     speechWaits := speechWaits s;
     uuids := uuids s;
     clock := clock s |}.

Definition upd_isLoading (f : bool -> bool) (s : State) : State :=
  {| env := env s;
     messages := messages s;
     isLoading := f (isLoading s);
     isRecording := isRecording s;
     language := language s;
     audioContextRef := audioContextRef s;
     activeAudioSourceRef := activeAudioSourceRef s;
     recognitionRef := recognitionRef s;
     service := service s;
     sources := sources s;
     recognizers := recognizers s;
     textWaits := textWaits s;
     speechWaits := speechWaits s;
     uuids := uuids s;
     clock := clock s |}.

Definition upd_isRecording (f : bool -> bool) (s : State) : State :=
  {| env := env s;
     messages := messages s;
     isLoading := isLoading s;
     isRecording := f (isRecording s);
     language := language s;
     audioContextRef := audioContextRef s;
     activeAudioSourceRef := activeAudioSourceRef s;
     recognitionRef := recognitionRef s;
     service := service s;
     sources := sources s;
     recognizers := recognizers s;
     textWaits := textWaits s;
     speechWaits := speechWaits s;
     uuids := uuids s;
     clock := clock s |}.

Definition upd_language (f : Language -> Language) (s : State) : State :=
  {| env := env s;
     messages := messages s;
     isLoading := isLoading s;
     isRecording := isRecording s;
     language := f (language s);
     audioContextRef := audioContextRef s;
     activeAudioSourceRef := activeAudioSourceRef s;
     recognitionRef := recognitionRef s;
     service := service s;
     sources := sources s;
     recognizers := recognizers s;
     textWaits := textWaits s;
     speechWaits := speechWaits s;
     uuids := uuids s;
     clock := clock s |}.

Definition upd_audioContextRef (f : option AudioContext -> option AudioContext) (s : State) : State :=
  {| env := env s;
     messages := messages s;
     isLoading := isLoading s;
     isRecording := isRecording s;
     language := language s;
     audioContextRef := f (audioContextRef s);
     activeAudioSourceRef := activeAudioSourceRef s;
     recognitionRef := recognitionRef s;
     service := service s;
     sources := sources s;
     recognizers := recognizers s;
     textWaits := textWaits s;
     speechWaits := speechWaits s;
     uuids := uuids s;
     clock := clock s |}.

Definition upd_activeAudioSourceRef (f : option nat -> option nat) (s : State) : State :=
  {| env := env s;
     messages := messages s;
     isLoading := isLoading s;
     isRecording := isRecording s;
     language := language s;
     audioContextRef := audioContextRef s;
     activeAudioSourceRef := f (activeAudioSourceRef s);
     recognitionRef := recognitionRef s;
     service := service s;
     sources := sources s;
     recognizers := recognizers s;
     textWaits := textWaits s;
     speechWaits := speechWaits s;
     uuids := uuids s;
     clock := clock s |}.

Definition upd_recognitionRef (f : option nat -> option nat) (s : State) : State :=
  {| env := env s;
     messages := messages s;
     isLoading := isLoading s;
     isRecording := isRecording s;
     language := language s;
     audioContextRef := audioContextRef s;
     activeAudioSourceRef := activeAudioSourceRef s;
     recognitionRef := f (recognitionRef s);
     service := service s;
     sources := sources s;
     recognizers := recognizers s;
     textWaits := textWaits s;
     speechWaits := speechWaits s;
     uuids := uuids s;
     clock := clock s |}.

Definition upd_service (f : Service -> Service) (s : State) : State :=
  {| env := env s;
     messages := messages s;
     isLoading := isLoading s;
     isRecording := isRecording s;
     language := language s;
     audioContextRef := audioContextRef s;
     activeAudioSourceRef := activeAudioSourceRef s;
     recognitionRef := recognitionRef s;
     service := f (service s);
     sources := sources s;
     recognizers := recognizers s;
     textWaits := textWaits s;
     speechWaits := speechWaits s;
     uuids := uuids s;
     clock := clock s |}.

Definition upd_sources (f : list (SourceNode Id) -> list (SourceNode Id)) (s : State) : State :=
  {| env := env s;
     messages := messages s;
     isLoading := isLoading s;
     isRecording := isRecording s;
     language := language s;
     audioContextRef := audioContextRef s;
     activeAudioSourceRef := activeAudioSourceRef s;
     recognitionRef := recognitionRef s;
     service := service s;
     sources := f (sources s);
     recognizers := recognizers s;
     textWaits := textWaits s;
     speechWaits := speechWaits s;
     uuids := uuids s;
     clock := clock s |}.

Definition upd_recognizers (f : list Recognition -> list Recognition) (s : State) : State :=
  {| env := env s;
     messages := messages s;
     isLoading := isLoading s;
     isRecording := isRecording s;
     language := language s;
     audioContextRef := audioContextRef s;
     activeAudioSourceRef := activeAudioSourceRef s;
     recognitionRef := recognitionRef s;
     service := service s;
     sources := sources s;
     recognizers := f (recognizers s);
     textWaits := textWaits s;
     speechWaits := speechWaits s;
     uuids := uuids s;
     clock := clock s |}.

Definition upd_textWaits (f : list (option TextWait) -> list (option TextWait)) (s : State) : State :=
  {| env := env s;
     messages := messages s;
     isLoading := isLoading s;
     isRecording := isRecording s;
     language := language s;
     audioContextRef := audioContextRef s;
     activeAudioSourceRef := activeAudioSourceRef s;
     recognitionRef := recognitionRef s;
     service := service s;
     sources := sources s;
     recognizers := recognizers s;
     textWaits := f (textWaits s);
     speechWaits := speechWaits s;
     uuids := uuids s;
     clock := clock s |}.

Definition upd_speechWaits (f : list (option SpeechWait) -> list (option SpeechWait)) (s : State) : State :=
  {| env := env s;
     messages := messages s;
     isLoading := isLoading s;
     isRecording := isRecording s;
     language := language s;
     audioContextRef := audioContextRef s;
     activeAudioSourceRef := activeAudioSourceRef s;
     recognitionRef := recognitionRef s;
     service := service s;
     sources := sources s;
     recognizers := recognizers s;
     textWaits := textWaits s;
     speechWaits := f (speechWaits s);
     uuids := uuids s;
     clock := clock s |}.

Definition upd_uuids (f : nat -> nat) (s : State) : State :=
  {| env := env s;
     messages := messages s;
     isLoading := isLoading s;
     isRecording := isRecording s;
     language := language s;
     audioContextRef := audioContextRef s;
     activeAudioSourceRef := activeAudioSourceRef s;
     recognitionRef := recognitionRef s;
     service := service s;
     sources := sources s;
     recognizers := recognizers s;
     textWaits := textWaits s;
     speechWaits := speechWaits s;
     uuids := f (uuids s);
     clock := clock s |}.

Definition upd_clock (f : nat -> nat) (s : State) : State :=
  {| env := env s;
     messages := messages s;
     isLoading := isLoading s;
     isRecording := isRecording s;
     language := language s;
     audioContextRef := audioContextRef s;
     activeAudioSourceRef := activeAudioSourceRef s;
     recognitionRef := recognitionRef s;
     service := service s;
     sources := sources s;
     recognizers := recognizers s;
     textWaits := textWaits s;
     speechWaits := speechWaits s;
     uuids := uuids s;
     clock := f (clock s) |}.

Definition initial (e : Env) : State :=
  {| env := e;
     messages := [];
     isLoading := false;
     isRecording := false;
     language := ar;
     audioContextRef := None;
     activeAudioSourceRef := None;
     recognitionRef := None;
     service := {| API_KEY := credential e; aiInstance := None; calls := [] |};
     sources := [];
     recognizers := [];
     textWaits := [];
     speechWaits := [];
     uuids := 0;
     clock := 0 |}.

(** The state setters of [useState], and assignments to the refs. *)
Definition setMessages (f : list Message -> list Message) : M State unit :=
  modify (upd_messages f).
Definition setIsLoading (b : bool) : M State unit :=
  modify (upd_isLoading (fun _ => b)).
Definition setIsRecording (b : bool) : M State unit :=
  modify (upd_isRecording (fun _ => b)).
Definition setLanguage (f : Language -> Language) : M State unit :=
  modify (upd_language f).

(** Code of the service module runs on the [service] part of the state. *)
Definition in_service {A} (c : M Service A) : M State A := fun s =>
  let '(r, sv) := c (service s) in (r, upd_service (fun _ => sv) s).

(** [uuidv4()] and [new Date()]. *)
Definition uuidv4 : M State Id := fun s =>
  (Ok (uuids s), upd_uuids S s).
Definition new_Date : M State Date := gets clock.

(** [initAudioContext] (lines 49-58).  [resume()] is taken to succeed at
    once: the call is made from a user gesture. *)
Definition initAudioContext : M State unit :=
  current ← gets audioContextRef;
  match current with
  | None =>
      e ← gets env;
      modify (upd_audioContextRef (fun _ =>
        Some {| limits := audioLimits e; contextRate := 24000;
                state := newContextState e |}))
  | Some _ => mret tt
  end;;
  current ← gets audioContextRef;
  match current with
  | Some ctx =>
      match state ctx with
      | suspended =>
          modify (upd_audioContextRef (fun _ =>
            Some {| limits := limits ctx; contextRate := contextRate ctx;
                    state := running |}))
      | running => mret tt
      end
  | None => throw (ErrorObj "TypeError" "Cannot read properties of null" None)
  end.

(** ** Calls on the speech-recognition object *)

Definition recognition_call (op : Recognition -> Outcome Recognition) (i : nat)
  : M State unit :=
  rs ← gets recognizers;
  match rs !! i with
  | Some r =>
      r' ← lift (op r);
      modify (upd_recognizers (fun rs => <[i := r']> rs))
  | None => mret tt
  end.

Definition recognition_start (r : Recognition) : Outcome Recognition :=
  match capture r with
  | Idle => Ok (set_capture Listening r)
  | _ => Throw (DOMException "InvalidStateError" "recognition has already started")
  end.

Definition recognition_stop (r : Recognition) : Outcome Recognition :=
  match capture r with
  | Listening => Ok (set_capture Stopping r)
  | _ => Ok r
  end.

Definition recognition_abort (r : Recognition) : Outcome Recognition :=
  match capture r with
  | Listening | Stopping => Ok (set_capture Closing r)
  | _ => Ok r
  end.

(** [recognitionRef.current?.op()] *)
Definition on_current_recognition (op : Recognition -> Outcome Recognition)
  : M State unit :=
  current ← gets recognitionRef;
  match current with
  | Some i => recognition_call op i
  | None => mret tt
  end.

(** [setupRecognition] (lines 61-100). *)
Definition setupRecognition : M State unit :=
  current ← gets recognitionRef;
  match current with
  | Some i => try_ (recognition_call recognition_abort i) (fun e => mret tt)
  | None => mret tt
  end;;
  e ← gets env;
  if hasSpeechRecognition (e : Env) then
    language ← gets language;
    seen ← gets messages;
    rs ← gets recognizers;
    let recognition :=
      {| continuous := false;
         interimResults := false;
         lang := match language with ar => "ar-EG" | en => "en-US" end;
         capture := Idle;
         seenMessages := seen |} in
    modify (upd_recognizers (fun rs => rs ++ [recognition]));;
    modify (upd_recognitionRef (fun _ => Some (length rs)))
  else mret tt.

(** ** Playback *)

(** [activeAudioSourceRef.current.stop()] for the handle of source [h]. *)
Definition stop_source (h : nat) : M State unit :=
  e ← gets env;
  ns ← gets sources;
  match ns !! h with
  | Some n =>
      n' ← lift (audioUtils.stop (audioLimits e) n);
      modify (upd_sources (fun ns => <[h := n']> ns))
  | None => mret tt
  end.

Definition set_audible (messageId : Id) (b : bool) (prev : list Message)
  : list Message :=
  (fun m => if bool_decide (id m = messageId) then with_isAudioPlaying b m else m)
    <$> prev.

(** The completion callback [playResponseAudio] hands to [playAudioBuffer]
    (lines 141-144), for the message it was made for. *)
Definition playback_ended (messageId : Id) : M State unit :=
  setMessages (set_audible messageId false);;
  modify (upd_activeAudioSourceRef (fun _ => None)).

(** [toggleRecording] (lines 107-118). *)
Definition toggleRecording : M State unit :=
  initAudioContext;;
  recording ← gets isRecording;
  if (recording : bool) then on_current_recognition recognition_stop
  else
    active ← gets activeAudioSourceRef;
    match active with
    | Some h =>
        stop_source h;;
        modify (upd_activeAudioSourceRef (fun _ => None))
    | None => mret tt
    end;;
    on_current_recognition recognition_start.

(** [toggleLanguage] (lines 120-127). *)
Definition toggleLanguage : M State unit :=
  recording ← gets isRecording;
  when (recording : bool) (on_current_recognition recognition_stop;;
                  setIsRecording false);;
  setLanguage (fun prev => match prev with ar => en | en => ar end).

(** [playResponseAudio] (lines 129-154), up to its [await] ... *)
Definition playResponseAudio_begin (text : string) (messageId : Id)
  : M State unit :=
  current ← gets audioContextRef;
  match current with
  | None => mret tt
  | Some ctx =>
      try_ (setMessages (set_audible messageId true);;
            call ← in_service (generateSpeech_begin text);
            modify (upd_speechWaits (fun ws =>
              ws ++ [Some {| speechCall := call; messageId := messageId;
                             speechContext := ctx |}])))
           (fun e => setMessages (set_audible messageId false))
  end.

(** ... and from the value [generateSpeech] resolved to. *)
Definition playResponseAudio_end (messageId : Id)
    (audioBuffer : option AudioBuffer) : M State unit :=
  try_ (match audioBuffer with
        | Some audioBuffer =>
            active ← gets activeAudioSourceRef;
            match active with
            | Some h => stop_source h
            | None => mret tt
            end;;
            current ← gets audioContextRef;
            match current with
            | Some ctx =>
                source ← lift (audioUtils.playAudioBuffer ctx audioBuffer (Some messageId));
                ns ← gets sources;
                modify (upd_sources (fun ns => ns ++ [source]));;
                modify (upd_activeAudioSourceRef (fun _ => Some (length ns)))
            | None => throw (ErrorObj "TypeError" "Cannot read properties of null" None)
            end
        | None => setMessages (set_audible messageId false)
        end)
       (fun e => setMessages (set_audible messageId false)).

(** [handleSendMessage] (lines 156-197) in three pieces.  [closedOver] is
    the [messages] of the closure that is called: the render's own for the
    handler passed to the input area, the recognition object's for a
    transcript.  Lines 157-163: *)
Definition interrupt_playback : M State unit :=
  initAudioContext;;
  active ← gets activeAudioSourceRef;
  match active with
  | Some h =>
      stop_source h;;
      modify (upd_activeAudioSourceRef (fun _ => None));;
      setMessages (fun prev => with_isAudioPlaying false <$> prev)
  | None => mret tt
  end.

(** Lines 165-177, to the [await]: *)
Definition request_reply (closedOver : list Message) (text : string)
    (attachments : list Attachment) (isVoiceMode : bool) : M State unit :=
  newId ← uuidv4;
  now ← new_Date;
  let newUserMsg :=
    {| id := newId; role := USER; text := text;
       types.attachments := Some attachments; timestamp := now;
       isAudioPlaying := None |} in
  setMessages (fun prev => prev ++ [newUserMsg]);;
  setIsLoading true;;
  try_ (call ← in_service (generateTextResponse_begin text attachments closedOver);
        modify (upd_textWaits (fun ws =>
          ws ++ [Some {| textCall := call; isVoiceMode := isVoiceMode |}])))
       (fun error => setIsLoading false).

Definition handleSendMessage_begin (closedOver : list Message) (text : string)
    (attachments : list Attachment) (isVoiceMode : bool) : M State unit :=
  interrupt_playback;;
  request_reply closedOver text attachments isVoiceMode.

(** Lines 177-196, from the text [generateTextResponse] resolved to: *)
Definition handleSendMessage_end (aiText : string) (isVoiceMode : bool)
  : M State unit :=
  try_ (newId ← uuidv4;
        now ← new_Date;
        let newAiMsg :=
          {| id := newId; role := MODEL; text := aiText;
             types.attachments := None; timestamp := now;
             isAudioPlaying := None |} in
        setMessages (fun prev => prev ++ [newAiMsg]);;
        setIsLoading false;;
        when isVoiceMode (playResponseAudio_begin aiText newId))
       (fun error => setIsLoading false).

(** ** Everything that can happen to the page

    User input, events of the speech-recognition object [r], answers of the
    backend to the [k]-th suspended call, and events of the audio source
    [n].  An event that cannot occur in the current state leaves it as it
    is.

    State updates are functional ([setMessages(prev => ..)]) or constant,
    so they compose in the order they are issued and are applied here at
    once.  What a handler reads from its closure is the state of the render
    that created the closure: for the handlers the input area was rendered
    with (line 264) that is the current state, React having rendered again
    before the next user event; for [recognition.onresult] it is the state
    [setupRecognition] saw. *)
Inductive Event : Type :=
  | Tick                                   (* the clock advances *)
  | Submit (text : string) (attachments : list Attachment)
  | PressMic
  | PressLanguage
  | RecognitionStart (r : nat)
  | RecognitionResult (r : nat) (transcript : string)
  | RecognitionError (r : nat)
  | RecognitionEnd (r : nat)
  | TextAnswer (k : nat) (answer : Outcome GenerateContentResponse)
  | SpeechAnswer (k : nat) (answer : Outcome GenerateContentResponse)
  | BufferRunsOut (n : nat)
  | EndedEvent (n : nat).

Definition capture_of (r : nat) (s : State) : CaptureState :=
  match recognizers s !! r with
  | Some rec => capture rec
  | None => Idle
  end.

Definition step (ev : Event) : M State unit :=
  match ev with
  | Tick => modify (upd_clock S)
  | Submit text attachments =>
      loading ← gets isLoading;
      rendered ← gets messages;
      InputArea.handleSend
        (fun text att => handleSendMessage_begin rendered text att false)
        loading text attachments
  | PressMic => toggleRecording
  | PressLanguage => toggleLanguage;; setupRecognition
  | RecognitionStart r =>
      c ← gets (capture_of r);
      match c with
      | Listening => setIsRecording true
      | _ => mret tt
      end
  | RecognitionResult r transcript =>
      rs ← gets recognizers;
      match rs !! r with
      | Some rec =>
          match capture rec with
          | Listening | Stopping =>
              modify (upd_recognizers (fun rs => <[r := set_capture Closing rec]> rs));;
              handleSendMessage_begin (seenMessages rec) transcript [] true
          | _ => mret tt
          end
      | None => mret tt
      end
  | RecognitionError r =>
      rs ← gets recognizers;
      match rs !! r with
      | Some rec =>
          match capture rec with
          | Idle => mret tt
          | _ =>
              modify (upd_recognizers (fun rs => <[r := set_capture Closing rec]> rs));;
              setIsRecording false
          end
      | None => mret tt
      end
  | RecognitionEnd r =>
      rs ← gets recognizers;
      match rs !! r with
      | Some rec =>
          match capture rec with
          | Idle => mret tt
          | _ =>
              modify (upd_recognizers (fun rs => <[r := set_capture Idle rec]> rs));;
              setIsRecording false
          end
      | None => mret tt
      end
  | TextAnswer k answer =>
      ws ← gets textWaits;
      match ws !! k with
      | Some (Some w) =>
          modify (upd_textWaits (fun ws => <[k := None]> ws));;
          handleSendMessage_end (generateTextResponse_end (textCall w) answer)
                                (isVoiceMode w)
      | _ => mret tt
      end
  | SpeechAnswer k answer =>
      ws ← gets speechWaits;
      match ws !! k with
      | Some (Some w) =>
          modify (upd_speechWaits (fun ws => <[k := None]> ws));;
          playResponseAudio_end (messageId w)
            (generateSpeech_end (speechCall w) (speechContext w) answer)
      | _ => mret tt
      end
  | BufferRunsOut n =>
      modify (upd_sources (fun ns =>
        match ns !! n with
        | Some node => <[n := buffer_runs_out node]> ns
        | None => ns
        end))
  | EndedEvent n =>
      ns ← gets sources;
      match ns !! n with
      | Some node =>
          let '(node', called) := dispatch_ended node in
          modify (upd_sources (fun ns => <[n := node']> ns));;
          match called with
          | Some messageId => playback_ended messageId
          | None => mret tt
          end
      | None => mret tt
      end
  end.

(** The page after its first render and the effect that sets up speech
    capture (lines 103-105), and after a sequence of events.  A handler
    that throws ends there; the page goes on with the state it left. *)
Definition mounted (e : Env) : State := exec setupRecognition (initial e).

Definition run (evs : list Event) (s : State) : State :=
  foldl (fun s ev => exec (step ev) s) s evs.

End App.

(* ================================================================== *)
(** * Vocabulary of the specification *)
(* ================================================================== *)

Module Spec.

(** The signed 16-bit little-endian value at sample position [k] of a byte
    sequence: bytes [2k] and [2k+1], low byte first. *)
Definition pcm_value (bytes : list byte) (k : nat) : option Z :=
  match bytes !! (2 * k), bytes !! (2 * k + 1) with
  | Some lo, Some hi => Some (int16_le lo hi)
  | _, _ => None
  end.

(** The audio context takes buffers of [nc] channels at [rate] Hz. *)
Definition supports (ctx : AudioContext) (nc : nat) (rate : Q) : Prop :=
  nc <= maxChannels (limits ctx)
  /\ (minRate (limits ctx) <= rate)%Q
  /\ (rate <= maxRate (limits ctx))%Q.

(** A synthesis response without audio data: the field is absent, or an
    empty string. *)
Definition no_audio_data (response : GenerateContentResponse) : Prop :=
  base64Audio response = None \/ base64Audio response = Some "".

(** A message is in the "speaking" state. *)
Definition speaking (m : Message) : Prop := isAudioPlaying m = Some true.

(** The sources that are producing sound. *)
Definition is_playing {C} (n : SourceNode C) : bool :=
  match playState n with
  | Playing => true
  | _ => false
  end.

Definition playing_sources {C} (ns : list (SourceNode C)) : list (SourceNode C) :=
  List.filter is_playing ns.

(** One playback is in order for the callback [cb]: no [stop()] has raised,
    the handler still guards [cb], and [cb] has been called once if the
    [ended] event was dispatched and not at all before. *)
Definition settled {C} (cb : C) (p : audioUtils.Playback C) : Prop :=
  audioUtils.stopErrors p = []
  /\ onended (audioUtils.source p) = Some (Some cb)
  /\ ((playState (audioUtils.source p) = Ended /\ audioUtils.completions p = [cb])
      \/ ((playState (audioUtils.source p) = Playing
           \/ playState (audioUtils.source p) = Finished)
          /\ audioUtils.completions p = [])).

(** The last request for a reply that went out. *)
Definition last_chat_request (cs : list Call) : option ChatRequest :=
  last (omap (fun c => match c with
                       | SendMessage req => Some req
                       | GenerateContent _ => None
                       end) cs).

(** ** Invariants of the session *)

(** No credential is configured and none was ever used: the service has no
    client and has sent nothing, no source was created, and every pending
    synthesis has already settled on [null]. *)
Definition no_key (s : App.State) : Prop :=
  API_KEY (App.service s) = ""
  /\ aiInstance (App.service s) = None
  /\ calls (App.service s) = []
  /\ App.activeAudioSourceRef s = None
  /\ App.sources s = []
  /\ forall k w, App.speechWaits s !! k = Some (Some w) ->
                 App.speechCall w = SpeechSettled.

(** Speech capture is absent: no recognition object exists and nothing is
    being recorded. *)
Definition no_capture (s : App.State) : Prop :=
  App.hasSpeechRecognition (App.env s) = false
  /\ App.recognitionRef s = None
  /\ App.recognizers s = []
  /\ App.isRecording s = false.

(** An assistant message says something. *)
Definition worded (m : Message) : Prop := role m = MODEL -> text m <> "".

(** Every assistant message says something, and so will the reply of every
    call that has already settled. *)
Definition will_be_worded (w : App.TextWait) : Prop :=
  forall r, App.textCall w = TextSettled r -> r <> "".

Definition all_worded (s : App.State) : Prop :=
  Forall worded (App.messages s)
  /\ forall k w, App.textWaits s !! k = Some (Some w) -> will_be_worded w.

End Spec.
Import Spec.

(* ================================================================== *)
(** * Concrete environments and answers, for worked examples *)
(* ================================================================== *)

Module Examples.

(** An engine with the minimum ranges the Web Audio standard asks for. *)
Definition engine : AudioLimits :=
  {| maxChannels := 32; minRate := 8000; maxRate := 96000;
     stopThrowsWhenIdle := false |}.

Definition context : AudioContext :=
  {| limits := engine; contextRate := 24000; state := running |}.

(** Four bytes, and the window on the last two of them. *)
Definition four_bytes : list byte := [Byte.x01; Byte.x00; Byte.x02; Byte.x00].

Definition window : Uint8Array :=
  {| buffer := four_bytes; byteOffset := 2; byteLength := 2 |}.

(** A browser with speech capture and a configured credential, and one
    without either. *)
Definition browser : App.Env :=
  {| App.credential := "secret";
     App.hasSpeechRecognition := true;
     App.audioLimits := engine;
     App.newContextState := suspended |}.

Definition bare_browser : App.Env :=
  {| App.credential := "";
     App.hasSpeechRecognition := false;
     App.audioLimits := engine;
     App.newContextState := suspended |}.

(** Answers of the backend: a text reply, and speech carrying base64 data. *)
Definition text_answer (t : string) : Outcome GenerateContentResponse :=
  Ok {| candidates := None; responseText := Some t |}.

Definition speech_answer (b64 : string) : Outcome GenerateContentResponse :=
  Ok {| candidates :=
          Some [ {| content :=
                      Some {| responseParts :=
                                Some [ {| inlineData := Some {| blobData := Some b64 |} |} ] |} |} ];
        responseText := None |}.

Definition silent_answer : GenerateContentResponse :=
  {| candidates := Some []; responseText := None |}.

(** A voice send as the page sees it: the microphone is pressed, capture
    starts, delivers one transcript and ends. *)
Definition say (transcript : string) : list App.Event :=
  [App.PressMic; App.RecognitionStart 0; App.RecognitionResult 0 transcript;
   App.RecognitionEnd 0].

(** One spoken exchange whose reply has been appended while its speech is
    still being synthesised. *)
Definition awaiting_speech : list App.Event :=
  say "one" ++ [App.TextAnswer 0 (text_answer "first reply")].

(** Two voice sends in flight together: the speech of the first starts
    playing, then the speech of the second arrives and replaces it.  In
    [replaced_when_stopped] the first source is stopped by the second
    playback; in [replaced_when_finished] its buffer has just run out.
    Either way its [ended] event is dispatched once the second source
    plays; then comes a third voice send. *)
Definition two_voices : list App.Event :=
  say "one" ++ [App.TextAnswer 0 (text_answer "first reply")]
  ++ say "two"
  ++ [App.SpeechAnswer 0 (speech_answer "AAA=");
      App.TextAnswer 1 (text_answer "second reply")].

Definition third_voice : list App.Event :=
  say "three"
  ++ [App.TextAnswer 2 (text_answer "third reply");
      App.SpeechAnswer 2 (speech_answer "AAA=")].

Definition replaced_when_stopped : list App.Event :=
  two_voices
  ++ [App.SpeechAnswer 1 (speech_answer "AAA="); App.EndedEvent 0].

Definition replaced_when_finished : list App.Event :=
  two_voices
  ++ [App.BufferRunsOut 0; App.SpeechAnswer 1 (speech_answer "AAA=");
      App.EndedEvent 0].

(** One typed exchange, then the microphone is pressed and capture starts. *)
Definition typed_then_listening : list App.Event :=
  [App.Submit "hi" []; App.TextAnswer 0 (text_answer "hello");
   App.PressMic; App.RecognitionStart 0].

(** Fifteen messages of history, numbered by their ids. *)
Definition fifteen_turns : list Message :=
  (fun n => {| id := n;
               role := if Nat.even n then USER else MODEL;
               text := "turn";
               attachments := None;
               timestamp := n;
               isAudioPlaying := None |}) <$> seq 0 15.

End Examples.

(* ================================================================== *)
(** * Base64 as the backend writes it *)
(* ================================================================== *)

Module Base64.

(** The encoding of RFC 4648, section 4, which [atob] reads back: the
    bytes are cut into groups of six bits, high bits first, the last group
    filled up with zero bits; each group is written as one character of the
    alphabet [A-Z a-z 0-9 + /]; and [=] is added until the number of
    characters is a multiple of four. *)
Definition alphabet (n : N) : ascii :=
  if (n <? 26)%N then ascii_of_N (n + 65)
  else if (n <? 52)%N then ascii_of_N (n + 71)
  else if (n <? 62)%N then ascii_of_N (n - 4)
  else if (n =? 62)%N then "+"%char
  else "/"%char.

Fixpoint sextets (bs : list byte) : list N :=
  match bs with
  | a :: b :: c :: rest =>
      let w := (Byte.to_N a * 65536 + Byte.to_N b * 256 + Byte.to_N c)%N in
      (w / 262144)%N :: ((w / 4096) mod 64)%N :: ((w / 64) mod 64)%N
        :: (w mod 64)%N :: sextets rest
  | [a; b] =>
      let w := (Byte.to_N a * 1024 + Byte.to_N b * 4)%N in
      [(w / 4096)%N; ((w / 64) mod 64)%N; (w mod 64)%N]
  | [a] =>
      let w := (Byte.to_N a * 16)%N in
      [(w / 64)%N; (w mod 64)%N]
  | [] => []
  end.

Definition padding (bs : list byte) : list ascii :=
  match length bs mod 3 with
  | 1 => ["="%char; "="%char]
  | 2 => ["="%char]
  | _ => []
  end.

Definition encode (bs : list byte) : string :=
  string_of_list_ascii ((alphabet <$> sextets bs) ++ padding bs).

End Base64.

(* ================================================================== *)
(** * components/InputArea.tsx: the component and its state *)
(* ================================================================== *)

Module Draft.

(** [xs.filter((x, i) => keep x i)] *)
Fixpoint filter_from {A} (keep : A -> nat -> bool) (i : nat) (xs : list A) : list A :=
  match xs with
  | [] => []
  | x :: rest =>
      if keep x i then x :: filter_from keep (S i) rest
      else filter_from keep (S i) rest
  end.

Definition Array_filter {A} (keep : A -> nat -> bool) (xs : list A) : list A :=
  filter_from keep 0 xs.

(** The state of the component (lines 21-23): the text of the box, the
    attachments chosen so far, and the value of the hidden file input. *)
Record Local : Type := {
  text : string;
  attachments : list Attachment;
  fileInputValue : string
}.

Definition initial : Local :=
  {| text := ""; attachments := []; fileInputValue := "" |}.

Definition setText (value : string) (l : Local) : Local :=
  {| text := value; attachments := attachments l;
     fileInputValue := fileInputValue l |}.

Definition setAttachments (f : list Attachment -> list Attachment) (l : Local)
  : Local :=
  {| text := text l; attachments := f (attachments l);
     fileInputValue := fileInputValue l |}.

Definition set_fileInputValue (value : string) (l : Local) : Local :=
  {| text := text l; attachments := attachments l; fileInputValue := value |}.

(** [handleSend] (lines 26-31) with the component's state: the draft is
    cleared once [onSendMessage] has returned. *)
Definition handleSend {S} (onSendMessage : string -> list Attachment -> M S unit)
    (isLoading : bool) (l : Local) : M S Local :=
  if InputArea.send_refused (text l) (attachments l) isLoading then mret l
  else onSendMessage (text l) (attachments l);;
       mret (setAttachments (fun _ => []) (setText "" l)).

Record KeyboardEvent : Type := {
  key : string;
  shiftKey : bool
}.

(** [handleKeyDown] (lines 33-38); the boolean tells whether
    [preventDefault] was called. *)
Definition handleKeyDown {S} (onSendMessage : string -> list Attachment -> M S unit)
    (isLoading : bool) (e : KeyboardEvent) (l : Local) : M S (Local * bool) :=
  if (String.eqb (key e) "Enter" && negb (shiftKey e))%bool
  then l' ← handleSend onSendMessage isLoading l; mret (l', true)
  else mret (l, false).

(** [handleFileSelect] (lines 40-53), for the files of the change event
    and the URL [URL.createObjectURL] makes.  A file that is neither an
    image nor a PDF ends the handler before the input is reset. *)
Definition handleFileSelect (createObjectURL : File -> string) (files : list File)
    (l : Local) : Local :=
  match files with
  | file :: _ =>
      let type := if String.prefix "image/" (fileType file) then image else pdf in
      if (match type with pdf => true | image => false end
          && negb (String.eqb (fileType file) "application/pdf"))%bool
      then l
      else
        let previewUrl := createObjectURL file in
        set_fileInputValue ""
          (setAttachments
             (fun prev => prev ++ [ {| file := file; previewUrl := previewUrl;
                                       type := type; base64 := None |} ])
             l)
  | [] => set_fileInputValue "" l
  end.

(** [removeAttachment] (lines 55-57). *)
Definition removeAttachment (index : nat) (l : Local) : Local :=
  setAttachments (fun prev => Array_filter (fun _ i => negb (i =? index)) prev) l.

(** What is rendered (lines 99, 113, 117-120): the paperclip and the text
    box are disabled while loading or recording; the send button stands in
    place of the microphone when there is something to send, and is
    disabled while loading. *)
Definition attach_disabled (isLoading isRecording : bool) : bool :=
  isLoading || isRecording.

Definition textarea_disabled (isLoading isRecording : bool) : bool :=
  isLoading || isRecording.

Definition shows_send (l : Local) : bool :=
  negb (InputArea.is_blank (text l)) || (0 <? length (attachments l)).

Definition send_disabled (isLoading : bool) : bool := isLoading.

End Draft.

(* ================================================================== *)
(** * The page: the root component with its input area *)
(* ================================================================== *)

Module Page.

Record State : Type := {
  app : App.State;
  input : Draft.Local
}.

Definition initial (e : App.Env) : State :=
  {| app := App.mounted e; input := Draft.initial |}.

(** What the user can do with the controls, and what happens besides. *)
Inductive Event : Type :=
  | Edit (value : string)                 (* the text box changes *)
  | KeyDown (e : Draft.KeyboardEvent)     (* a key is pressed in the text box *)
  | ClickSend
  | ClickMic
  | PickFiles (files : list File) (value previewUrl : string)
  | ClickRemove (index : nat)
  | ClickLanguage
  | Background (ev : App.Event).          (* answers, capture and audio events *)

(** The [onSendMessage] the input area is rendered with (line 264 of the
    root component): [handleSendMessage] of the current render. *)
Definition onSendMessage (p : State) (text : string) (att : list Attachment)
  : M App.State unit :=
  App.handleSendMessage_begin (App.messages (app p)) text att false.

Definition with_input (l : Draft.Local) (p : State) : State :=
  {| app := app p; input := l |}.

Definition on_app (c : M App.State unit) (p : State) : State :=
  {| app := JS.exec c (app p); input := input p |}.

(** A handler of the input area runs on the session; the draft is as the
    handler left it, or as it was when the handler raised. *)
Definition on_both {A} (c : M App.State A) (draft : A -> Draft.Local) (p : State)
  : State :=
  match c (app p) with
  | (Ok a, s) => {| app := s; input := draft a |}
  | (Throw _, s) => {| app := s; input := input p |}
  end.

Definition step (ev : Event) (p : State) : State :=
  let isLoading := App.isLoading (app p) in
  let isRecording := App.isRecording (app p) in
  match ev with
  | Edit value =>
      if Draft.textarea_disabled isLoading isRecording then p
      else with_input (Draft.setText value (input p)) p
  | KeyDown e =>
      if Draft.textarea_disabled isLoading isRecording then p
      else on_both (Draft.handleKeyDown (onSendMessage p) isLoading e (input p)) fst p
  | ClickSend =>
      if (Draft.shows_send (input p) && negb (Draft.send_disabled isLoading))%bool
      then on_both (Draft.handleSend (onSendMessage p) isLoading (input p)) (fun l => l) p
      else p
  | ClickMic =>
      if Draft.shows_send (input p) then p else on_app App.toggleRecording p
  | PickFiles files value previewUrl =>
      if Draft.attach_disabled isLoading isRecording then p
      else with_input
             (Draft.handleFileSelect (fun _ => previewUrl) files
                (Draft.set_fileInputValue value (input p)))
             p
  | ClickRemove index => with_input (Draft.removeAttachment index (input p)) p
  | ClickLanguage => on_app (App.step App.PressLanguage) p
  | Background ev =>
      match ev with
      | App.Submit _ _ | App.PressMic | App.PressLanguage => p
      | _ => on_app (App.step ev) p
      end
  end.

Definition run (evs : list Event) (p : State) : State :=
  foldl (fun p ev => step ev p) p evs.

End Page.

(* ================================================================== *)
(** * Further vocabulary *)
(* ================================================================== *)

Module Terms.

(** A playback started without a callback: the handler is set and guards
    nothing, nothing has been called and no [stop()] has raised. *)
Definition unobserved {C} (p : audioUtils.Playback C) : Prop :=
  onended (audioUtils.source p) = Some None
  /\ playState (audioUtils.source p) <> Unscheduled
  /\ audioUtils.completions p = []
  /\ audioUtils.stopErrors p = [].

(** [atob] reads character [n] of the alphabet back as [n]; the character
    is neither white space nor the padding. *)
Definition reads_back (n : N) : bool :=
  match sextet (Base64.alphabet n) with
  | Some m => (m =? n)%N
  | None => false
  end
  && negb (is_ascii_whitespace (Base64.alphabet n))
  && negb (Ascii.eqb (Base64.alphabet n) "=").

(** What a [FileReader] gives for a file of the given type and bytes:
    [data:<type>;base64,<the bytes in base64>]. *)
Definition data_url (mimeType : string) (bytes : list byte) : string :=
  "data:" +:+ mimeType +:+ ";base64," +:+ Base64.encode bytes.

Definition comma_free (s : string) : Prop :=
  Forall (fun c => c <> ","%char) (list_ascii_of_string s).

(** The part [generateTextResponse] sends for an attachment whose file
    could be read. *)
Definition sent_part (att : Attachment) : Part :=
  InlineDataPart (dataURL (file att) ≫= fun url => split_commas url !! 1)
                 (fileType (file att)).

Definition readable (att : Attachment) : Prop := is_Some (dataURL (file att)).

(** The service can get a client: one is cached, or a credential is
    configured. *)
Definition has_client (sv : Service) : Prop :=
  aiInstance sv <> None \/ API_KEY sv <> "".

(** A message without its audible flag: what never changes once the
    message is in the list. *)
Definition unflagged (m : Message) : Message :=
  {| id := id m; role := role m; text := text m;
     attachments := attachments m; timestamp := timestamp m;
     isAudioPlaying := None |}.

(** A reply is awaited. *)
Definition reply_pending (s : App.State) : Prop :=
  exists k w, App.textWaits s !! k = Some (Some w).

(** The language tag of the page's language (line 76 of the component). *)
Definition lang_tag (l : Language) : string :=
  match l with ar => "ar-EG" | en => "en-US" end.

(** A recognition object that can deliver nothing any more. *)
Definition discarded (r : App.Recognition) : Prop :=
  App.capture r = App.Idle \/ App.capture r = App.Closing.

(** The recognition objects are in order: the one in [recognitionRef] is
    the latest, listens for one final result in the page's language, and
    every older one is discarded. *)
Definition ordered (rs : list App.Recognition) (ref : option nat) (lg : Language)
  : Prop :=
  exists i r,
    ref = Some i
    /\ rs !! i = Some r
    /\ length rs = S i
    /\ App.lang r = lang_tag lg
    /\ App.continuous r = false
    /\ App.interimResults r = false
    /\ forall j r', j < i -> rs !! j = Some r' -> discarded r'.

Definition capture_in_order (s : App.State) : Prop :=
  App.hasSpeechRecognition (App.env s) = true
  /\ ordered (App.recognizers s) (App.recognitionRef s) (App.language s).

(** A send has been made only after the audio context was set up. *)
Definition ready_to_speak (s : App.State) : Prop :=
  App.textWaits s = [] \/ App.audioContextRef s <> None.

(** The service works for the credential [key]: it holds that credential;
    a client, if there is one, carries it, and it is not empty; and nothing
    has been sent without a client. *)
Definition serves (key : string) (sv : Service) : Prop :=
  API_KEY sv = key
  /\ (forall ai, aiInstance sv = Some ai -> apiKey ai = key /\ key <> "")
  /\ (calls sv <> [] -> aiInstance sv <> None).

(** An attachment's kind fits the type of its file. *)
Definition well_typed (a : Attachment) : Prop :=
  match type a with
  | image => String.prefix "image/" (fileType (file a)) = true
  | pdf => fileType (file a) = "application/pdf"
  end.

(** A part that is a text, an image or a PDF. *)
Definition allowed_part (part : Part) : Prop :=
  match part with
  | TextPart _ => True
  | InlineDataPart _ mimeType =>
      String.prefix "image/" mimeType = true \/ mimeType = "application/pdf"
  end.

Definition allowed_call (c : Call) : Prop :=
  match c with
  | SendMessage req => Forall allowed_part (message req)
  | GenerateContent _ => True
  end.

(** The attachments of the messages shown. *)
Definition shown_attachments (m : Message) : list Attachment :=
  default [] (attachments m).

Definition shown_in_order (ms : list Message) : Prop :=
  Forall (fun m => Forall well_typed (shown_attachments m)) ms.

(** What the page keeps in order about files: the attachments of the
    draft and of the messages fit their files, and no request carries a
    part of another kind. *)
Definition files_in_order (p : Page.State) : Prop :=
  Forall well_typed (Draft.attachments (Page.input p))
  /\ shown_in_order (App.messages (Page.app p))
  /\ Forall allowed_call (calls (App.service (Page.app p))).

(** An event of the session as the input area causes it: a send is a send
    of the draft. *)
Definition caused_by (p : Page.State) (ev : App.Event) : Prop :=
  match ev with
  | App.Submit text attachments =>
      text = Draft.text (Page.input p)
      /\ attachments = Draft.attachments (Page.input p)
  | _ => True
  end.

(** A send of the session whose attachments fit their files. *)
Definition typed_submit (ev : App.Event) : Prop :=
  match ev with
  | App.Submit _ attachments => Forall well_typed attachments
  | _ => True
  end.

End Terms.



(* ================================================================== *)
(** * More concrete values, for worked examples *)
(* ================================================================== *)

Module Samples.

(** A service with a credential and no client yet. *)
Definition ready : Service :=
  {| API_KEY := "secret"; aiInstance := None; calls := [] |}.

(** A picture of three bytes as the reader gives it, and a file the reader
    fails on. *)
Definition picture : Attachment :=
  {| file := {| fileName := "dot.png"; fileType := "image/png";
                dataURL := Some (Terms.data_url "image/png"
                                   [Byte.x01; Byte.x02; Byte.x03]) |};
     previewUrl := "blob:1"; type := image; base64 := None |}.

Definition broken : Attachment :=
  {| file := {| fileName := "gone.pdf"; fileType := "application/pdf";
                dataURL := None |};
     previewUrl := "blob:2"; type := pdf; base64 := None |}.

(** Backends: one that answers every request with a text, one that refuses
    the credential, one that is out of reach. *)
Definition answering (t : string) : ChatRequest -> Outcome GenerateContentResponse :=
  fun _ => Ok {| candidates := None; responseText := Some t |}.

Definition refusing : ChatRequest -> Outcome GenerateContentResponse :=
  fun _ => Throw (ErrorObj "ApiError" "API key not valid." (Some 400%Z)).

(** A synthesis answer carrying the given base64 text. *)
Definition spoken (b64 : string) : GenerateContentResponse :=
  {| candidates :=
       Some [ {| content :=
                   Some {| responseParts :=
                             Some [ {| inlineData := Some {| blobData := Some b64 |} |} ] |} |} ];
     responseText := None |}.

(** Six typed exchanges on the page, each answered before the next, and
    then a draft that has not been sent yet. *)
Definition exchange (k : nat) : list Page.Event :=
  [Page.Edit "question"; Page.ClickSend;
   Page.Background (App.TextAnswer k (Examples.text_answer "answer"))].

Definition six_exchanges : list Page.Event :=
  concat (exchange <$> seq 0 6) ++ [Page.Edit "hi"].

End Samples.

(* ================================================================== *)
(** * Facts about utils/audioUtils.ts *)
(* ================================================================== *)

Module AudioFacts.

Lemma elements_spans (a : Uint8Array) :
  spans_buffer a -> elements a = buffer a.
Proof.
  intros [Hoff Hlen]. unfold elements. rewrite Hoff, Hlen, drop_0.
  apply firstn_all.
Qed.

Lemma int16_pairs_lookup (bs : list byte) (k : nat) :
  int16_pairs bs !! k = pcm_value bs k.
Proof.
  revert bs. induction k as [|k IH]; intros [|lo [|hi rest]]; try reflexivity.
  change (int16_pairs (lo :: hi :: rest) !! S k) with (int16_pairs rest !! k).
  rewrite IH. unfold pcm_value.
  replace (2 * S k) with (S (S (2 * k))) by lia.
  reflexivity.
Qed.

Lemma int16_pairs_length (bs : list byte) :
  length (int16_pairs bs) = length bs / 2.
Proof.
  induction bs as [bs IH] using (induction_ltof1 _ (@length byte)).
  destruct bs as [|lo [|hi rest]]; try reflexivity.
  cbn [int16_pairs length]. rewrite IH by (unfold ltof; cbn; lia).
  replace (S (S (length rest))) with (length rest + 1 * 2) by lia.
  rewrite Nat.div_add by lia. lia.
Qed.

Lemma int16_le_range (lo hi : byte) :
  (-32768 <= int16_le lo hi < 32768)%Z.
Proof.
  unfold int16_le.
  pose proof (Byte.to_N_bounded lo). pose proof (Byte.to_N_bounded hi).
  destruct (Z.ltb_spec (Z.of_N (Byte.to_N lo) + 256 * Z.of_N (Byte.to_N hi)) 32768); lia.
Qed.

Lemma pcm_value_range (bs : list byte) (k : nat) (v : Z) :
  pcm_value bs k = Some v -> (-32768 <= v < 32768)%Z.
Proof.
  unfold pcm_value.
  destruct (bs !! (2 * k)), (bs !! (2 * k + 1)); try discriminate.
  intros [= <-]. apply int16_le_range.
Qed.


(** ** The two loops of [decodeAudioData] *)

Lemma getChannelData_set_same (b : AudioBuffer) (ch i : nat) (v : number) :
  is_Some (getChannelData b ch i) ->
  getChannelData (setChannelData b ch i v) ch i = Some v.
Proof.
  unfold getChannelData, setChannelData. cbn.
  rewrite list_lookup_alter_eq.
  destruct (channels b !! ch) as [cd|] eqn:Hcd; cbn; [|intros [? [=]]].
  intros Hi. apply list_lookup_insert_eq. apply lookup_lt_is_Some. exact Hi.
Qed.

Lemma getChannelData_set_other (b : AudioBuffer) (ch i ch' i' : nat) (v : number) :
  ch' <> ch \/ i' <> i ->
  getChannelData (setChannelData b ch i v) ch' i' = getChannelData b ch' i'.
Proof.
  intros Hne. unfold getChannelData, setChannelData. cbn.
  destruct (decide (ch' = ch)) as [->|Hch].
  - rewrite list_lookup_alter_eq.
    destruct (channels b !! ch) as [cd|]; cbn; [|reflexivity].
    apply list_lookup_insert_ne. destruct Hne; congruence.
  - rewrite list_lookup_alter_ne by congruence. reflexivity.
Qed.

Lemma getChannelData_set_is_Some (b : AudioBuffer) (ch i ch' i' : nat) (v : number) :
  is_Some (getChannelData (setChannelData b ch i v) ch' i')
  <-> is_Some (getChannelData b ch' i').
Proof.
  destruct (decide (ch' = ch /\ i' = i)) as [[-> ->]|Hne].
  - split; intros H.
    + unfold getChannelData, setChannelData in *. cbn in H.
      rewrite list_lookup_alter_eq in H.
      destruct (channels b !! ch) as [cd|]; cbn in *; [|exact H].
      apply lookup_lt_is_Some in H. rewrite length_insert in H.
      apply lookup_lt_is_Some. exact H.
    + rewrite getChannelData_set_same by exact H. eauto.
  - rewrite getChannelData_set_other; [reflexivity|].
    destruct (decide (ch' = ch)) as [->|Hc];
      [right; intros ->; apply Hne; split; reflexivity | left; exact Hc].
Qed.

Section Loops.
Variable f : nat -> nat -> number.

Lemma inner_loop (ch : nat) (idxs : list nat) (b : AudioBuffer) :
  let b' := foldl (fun b i => setChannelData b ch i (f ch i)) b idxs in
  (forall ch' i, ch' <> ch -> getChannelData b' ch' i = getChannelData b ch' i)
  /\ (forall i, i ∈ idxs -> is_Some (getChannelData b ch i) ->
                getChannelData b' ch i = Some (f ch i))
  /\ (forall ch' i, is_Some (getChannelData b' ch' i) <-> is_Some (getChannelData b ch' i))
  /\ numberOfChannels b' = numberOfChannels b
  /\ frames b' = frames b
  /\ sampleRate b' = sampleRate b.
Proof.
  revert b. induction idxs as [|j idxs IH]; intros b; cbn.
  - repeat split; try tauto. intros i Hi. inversion Hi.
  - destruct (IH (setChannelData b ch j (f ch j))) as (Hother & Hsame & Hsome & Hn & Hf & Hr).
    repeat split.
    + intros ch' i Hne. rewrite Hother by exact Hne.
      apply getChannelData_set_other. left. exact Hne.
    + intros i Hi Hin.
      destruct (decide (i ∈ idxs)) as [Hrest|Hrest].
      * apply Hsame; [exact Hrest|]. apply getChannelData_set_is_Some. exact Hin.
      * apply elem_of_cons in Hi as [->|Hi]; [|contradiction].
        clear IH Hsame. revert Hrest.
        generalize (setChannelData b ch j (f ch j)) (getChannelData_set_same b ch j (f ch j) Hin).
        clear. induction idxs as [|k idxs IH]; intros b Hb Hnot; cbn; [exact Hb|].
        apply IH.
        -- rewrite getChannelData_set_other; [exact Hb|].
           right. intros ->. apply Hnot. left.
        -- intros Hk. apply Hnot. right. exact Hk.
    + intros H. apply Hsome in H. apply getChannelData_set_is_Some in H. exact H.
    + intros H. apply Hsome. apply getChannelData_set_is_Some. exact H.
    + rewrite Hn. reflexivity.
    + rewrite Hf. reflexivity.
    + rewrite Hr. reflexivity.
Qed.

Lemma outer_loop (idxs chans : list nat) (b : AudioBuffer) :
  let b' := foldl (fun b ch =>
                     foldl (fun b i => setChannelData b ch i (f ch i)) b idxs)
                  b chans in
  (forall ch i, ch ∉ chans -> getChannelData b' ch i = getChannelData b ch i)
  /\ (forall ch i, ch ∈ chans -> i ∈ idxs -> is_Some (getChannelData b ch i) ->
                   getChannelData b' ch i = Some (f ch i))
  /\ (forall ch i, is_Some (getChannelData b' ch i) <-> is_Some (getChannelData b ch i))
  /\ numberOfChannels b' = numberOfChannels b
  /\ frames b' = frames b
  /\ sampleRate b' = sampleRate b.
Proof.
  revert b. induction chans as [|c chans IH]; intros b; cbn.
  - repeat split; try tauto. intros ch i Hc. inversion Hc.
  - destruct (inner_loop c idxs b) as (Iother & Isame & Isome & In_ & If_ & Ir).
    set (b1 := foldl (fun b i => setChannelData b c i (f c i)) b idxs) in *.
    destruct (IH b1) as (Oother & Osame & Osome & On & Of & Or).
    repeat split.
    + intros ch i Hnot. rewrite Oother; [apply Iother|].
      * intros ->. apply Hnot. left.
      * intros Hin. apply Hnot. right. exact Hin.
    + intros ch i Hch Hi Hin.
      destruct (decide (ch ∈ chans)) as [Hrest|Hrest].
      * apply Osame; [exact Hrest|exact Hi|]. apply Isome. exact Hin.
      * apply elem_of_cons in Hch as [->|Hch]; [|contradiction].
        rewrite Oother by exact Hrest. apply Isame; assumption.
    + intros H. apply Isome. apply Osome. exact H.
    + intros H. apply Osome. apply Isome. exact H.
    + rewrite On. exact In_.
    + rewrite Of. exact If_.
    + rewrite Or. exact Ir.
Qed.
End Loops.


(** ** [decodeAudioData] *)

Lemma frameCount_exact (w nc : nat) :
  0 < nc ->
  to_unsigned_long (div_lengths (w * nc) nc) = w
  /\ indices_below (div_lengths (w * nc) nc) = seq 0 w.
Proof.
  intros Hnc. destruct nc as [|n]; [lia|].
  unfold div_lengths, to_unsigned_long, indices_below, Qceiling, Qfloor, Qopp.
  cbn [Qnum Qden].
  assert (Hden : Z.pos (Pos.of_nat (S n)) = Z.of_nat (S n)).
  { rewrite <- positive_nat_Z, Nat2Pos.id by lia. reflexivity. }
  rewrite Hden, Nat2Z.inj_mul.
  rewrite Z.div_mul by lia.
  replace (- (Z.of_nat w * Z.of_nat (S n)))%Z
    with ((- Z.of_nat w) * Z.of_nat (S n))%Z by lia.
  rewrite Z.div_mul by lia.
  rewrite Z.opp_involutive, Nat2Z.id. split; reflexivity.
Qed.

Lemma pcm_sample_exact (v : Z) :
  (-32768 <= v < 32768)%Z ->
  (v # 32768 == inject_Z v / 32768)%Q
  /\ (-1 <= v # 32768)%Q /\ (v # 32768 < 1)%Q.
Proof.
  intros Hv. repeat split.
  - unfold Qeq, Qdiv, Qmult, Qinv, inject_Z. cbn. lia.
  - unfold Qle. cbn. lia.
  - unfold Qlt. cbn. lia.
Qed.

(** C1 (as amended).  For a [Uint8Array] that spans its whole buffer and
    holds a positive multiple of [2 * numChannels] bytes, and for a channel
    count and sample rate the audio context accepts, [decodeAudioData]
    returns a buffer of [byteLength / 2 / numChannels] frames in which
    sample [i] of channel [ch] is the signed 16-bit little-endian value at
    position [i * numChannels + ch] divided by 32768, a value in [-1, 1). *)
Theorem decodeAudioData_spanning
    (data : Uint8Array) (ctx : AudioContext) (rate : Q) (nc : nat) :
  spans_buffer data ->
  0 < byteLength data ->
  (2 * nc | byteLength data) ->
  supports ctx nc rate ->
  exists b,
    audioUtils.decodeAudioData data ctx rate nc = Ok b
    /\ numberOfChannels b = nc
    /\ frames b = byteLength data / 2 / nc
    /\ sampleRate b = rate
    /\ forall ch i, ch < nc -> i < frames b ->
         exists v,
           pcm_value (elements data) (i * nc + ch) = Some v
           /\ getChannelData b ch i = Some (Num (v # 32768))
           /\ (v # 32768 == inject_Z v / 32768)%Q
           /\ (-1 <= v # 32768)%Q /\ (v # 32768 < 1)%Q.
Proof.
  intros Hspan Hpos [w Hw] (Hmax & Hmin & Hmax').
  rewrite (elements_spans _ Hspan). destruct Hspan as [_ Hlen].
  assert (Hnc : 0 < nc) by (destruct nc; lia).
  assert (Hw0 : 0 < w) by (destruct w; lia).
  assert (Hbytes : length (buffer data) = (w * nc) * 2) by lia.
  assert (Hpairs : length (int16_pairs (buffer data)) = w * nc).
  { rewrite int16_pairs_length, Hbytes. apply Nat.div_mul. lia. }
  assert (Hframes : byteLength data / 2 / nc = w).
  { rewrite Hlen, Hbytes, Nat.div_mul by lia. apply Nat.div_mul. lia. }
  unfold audioUtils.decodeAudioData, Int16Array_of_buffer.
  replace (Nat.even (length (buffer data))) with true
    by (rewrite Hbytes, Nat.even_mul, Bool.orb_true_r; reflexivity).
  cbn [mbind Outcome_bind]. rewrite Hpairs.
  destruct (frameCount_exact w nc Hnc) as [Hlong Hidx].
  unfold createBuffer. rewrite Hlong, Hidx.
  replace (1 <=? nc) with true by (symmetry; apply Nat.leb_le; lia).
  replace (nc <=? maxChannels (limits ctx)) with true
    by (symmetry; apply Nat.leb_le; exact Hmax).
  replace (1 <=? w) with true by (symmetry; apply Nat.leb_le; lia).
  replace (Qle_bool (minRate (limits ctx)) rate) with true
    by (symmetry; apply Qle_bool_iff; exact Hmin).
  replace (Qle_bool rate (maxRate (limits ctx))) with true
    by (symmetry; apply Qle_bool_iff; exact Hmax').
  cbn [andb mret Outcome_ret].
  set (b0 := {| numberOfChannels := nc; frames := w; sampleRate := rate;
                channels := replicate nc (replicate w (Num 0)) |}).
  pose proof (outer_loop
                (fun ch i => audioUtils.pcm_sample
                               (int16_pairs (buffer data) !! (i * nc + ch)))
                (seq 0 w) (seq 0 nc) b0) as Hloop.
  cbn beta zeta in Hloop.
  destruct Hloop as (_ & Hfilled & _ & Hn & Hf & Hr).
  eexists. split; [reflexivity|].
  rewrite Hn, Hf, Hr, Hframes. repeat split; try reflexivity.
  intros ch i Hch Hi.
  assert (Hi' : i < w) by exact Hi.
  assert (Hk : i * nc + ch < length (int16_pairs (buffer data))).
  { rewrite Hpairs. assert ((i + 1) * nc <= w * nc) by (apply Nat.mul_le_mono_r; lia). lia. }
  destruct (lookup_lt_is_Some_2 _ _ Hk) as [v Hv].
  exists v. rewrite <- int16_pairs_lookup. split; [exact Hv|].
  split.
  - rewrite Hfilled.
    + rewrite Hv. reflexivity.
    + apply elem_of_seq. lia.
    + apply elem_of_seq. lia.
    + unfold getChannelData, b0. cbn.
      rewrite lookup_replicate_2 by exact Hch. cbn.
      rewrite lookup_replicate_2 by exact Hi'. eauto.
  - apply pcm_sample_exact. apply (pcm_value_range (buffer data) (i * nc + ch)).
    rewrite <- int16_pairs_lookup. exact Hv.
Qed.


(** The theorem at work: two samples, 1 and -1, on one channel. *)
Lemma decodeAudioData_spanning_witness :
  exists b,
    audioUtils.decodeAudioData
      (Uint8Array_of [Byte.x01; Byte.x00; Byte.xff; Byte.xff])
      Examples.context 24000 1 = Ok b
    /\ numberOfChannels b = 1
    /\ frames b = 4 / 2 / 1
    /\ sampleRate b = 24000%Q
    /\ forall ch i, ch < 1 -> i < frames b ->
         exists v,
           pcm_value [Byte.x01; Byte.x00; Byte.xff; Byte.xff] (i * 1 + ch) = Some v
           /\ getChannelData b ch i = Some (Num (v # 32768))
           /\ (v # 32768 == inject_Z v / 32768)%Q
           /\ (-1 <= v # 32768)%Q /\ (v # 32768 < 1)%Q.
Proof.
  apply (decodeAudioData_spanning
           (Uint8Array_of [Byte.x01; Byte.x00; Byte.xff; Byte.xff])
           Examples.context 24000 1).
  - split; reflexivity.
  - simpl. lia.
  - exists 2. reflexivity.
  - unfold supports, Qle. simpl. lia.
Defined.

(** C1 as stated fails twice.  A window on the last two of four bytes is
    decoded as the whole buffer behind it: two frames instead of one, the
    first of them not from the window.  And the empty sequence, a multiple
    of any frame size, gives no buffer: the context refuses length 0. *)
Lemma decodeAudioData_counterexample :
  ((2 * 1 | byteLength Examples.window)
   /\ elements Examples.window = [Byte.x02; Byte.x00]
   /\ (exists b,
         audioUtils.decodeAudioData Examples.window Examples.context 24000 1 = Ok b
         /\ frames b = 2
         /\ getChannelData b 0 0 = Some (Num (1 # 32768)))
   /\ ~ (exists b,
           audioUtils.decodeAudioData Examples.window Examples.context 24000 1 = Ok b
           /\ frames b = byteLength Examples.window / 2 / 1))
  /\ ((2 * 1 | byteLength (Uint8Array_of []))
      /\ ~ (exists b,
              audioUtils.decodeAudioData (Uint8Array_of []) Examples.context 24000 1
              = Ok b)).
Proof.
  split.
  - split; [exists 1; reflexivity|].
    split; [reflexivity|].
    split.
    + eexists. split; [vm_compute; reflexivity|]. split; reflexivity.
    + intros [b [Hb Hframes]]. vm_compute in Hb.
      injection Hb as <-. discriminate Hframes.
  - split; [exists 0; reflexivity|].
    intros [b Hb]. vm_compute in Hb. discriminate Hb.
Qed.

(** With no channels [createBuffer] refuses, so no loop of the decoder ever
    runs with an infinite bound. *)
Lemma decodeAudioData_no_channels (data : Uint8Array) (ctx : AudioContext) (rate : Q) :
  JS.is_Ok (audioUtils.decodeAudioData data ctx rate 0) = false.
Proof.
  unfold audioUtils.decodeAudioData, Int16Array_of_buffer.
  destruct (Nat.even (length (buffer data))); reflexivity.
Qed.

(** [decodeBase64] returns an array that spans its buffer and shows the
    decoded bytes, so what [generateSpeech] passes on to the decoder is seen
    whole. *)
Lemma fill_bytes (bs : list byte) (k : nat) (pre : list byte) :
  length pre = k ->
  foldl (fun bytes i =>
           match (pre ++ bs) !! i with
           | Some charCode => Uint8Array_set bytes i charCode
           | None => bytes
           end)
        {| buffer := pre ++ replicate (length bs) Byte.x00;
           byteOffset := 0; byteLength := length (pre ++ bs) |}
        (seq k (length bs))
  = Uint8Array_of (pre ++ bs).
Proof.
  revert k pre. induction bs as [|b bs IH]; intros k pre Hk.
  - cbn. rewrite !app_nil_r. reflexivity.
  - cbn [length seq foldl replicate].
    rewrite list_lookup_middle by (symmetry; exact Hk).
    unfold Uint8Array_set. cbn [byteLength byteOffset buffer].
    replace (k <? length (pre ++ b :: bs)) with true
      by (symmetry; apply Nat.ltb_lt; rewrite length_app; cbn; lia).
    cbn [Nat.add].
    replace (<[k:=b]> (pre ++ Byte.x00 :: replicate (length bs) Byte.x00))
      with ((pre ++ [b]) ++ replicate (length bs) Byte.x00).
    2:{ rewrite <- Hk.
        replace (length pre) with (length pre + 0) by lia.
        rewrite insert_app_r. cbn. rewrite <- app_assoc. reflexivity. }
    replace (pre ++ b :: bs) with ((pre ++ [b]) ++ bs)
      by (rewrite <- app_assoc; reflexivity).
    apply IH. rewrite length_app. cbn. lia.
Qed.

Lemma decodeBase64_spans (base64 : string) (data : Uint8Array) :
  audioUtils.decodeBase64 base64 = Ok data ->
  spans_buffer data /\ atob base64 = Ok (elements data).
Proof.
  unfold audioUtils.decodeBase64.
  destruct (atob base64) as [bs|e]; cbn [mbind Outcome_bind mret Outcome_ret];
    [|discriminate].
  intros [= <-]. unfold Uint8Array_new.
  pose proof (fill_bytes bs 0 [] eq_refl) as Hfill. cbn [app] in Hfill.
  rewrite Hfill. split; [split; reflexivity|].
  rewrite elements_spans by (split; reflexivity). reflexivity.
Qed.

Lemma decodeBase64_spans_witness :
  audioUtils.decodeBase64 "AQID" = Ok (Uint8Array_of [Byte.x01; Byte.x02; Byte.x03])
  /\ spans_buffer (Uint8Array_of [Byte.x01; Byte.x02; Byte.x03])
  /\ atob "AQID" = Ok (elements (Uint8Array_of [Byte.x01; Byte.x02; Byte.x03])).
Proof.
  split; [reflexivity|].
  apply (decodeBase64_spans "AQID"). reflexivity.
Defined.

(** ** The playback handle *)

Lemma playAudioBuffer_starts {C} (ctx : AudioContext) (buffer : AudioBuffer)
    (onEnded : option C) :
  audioUtils.playAudioBuffer ctx buffer onEnded
  = Ok {| nodeBuffer := Some buffer; connected := true;
          onended := Some onEnded; playState := Playing |}.
Proof. reflexivity. Qed.

(** Whatever the node's state and the engine, the handle's [stop()] returns,
    and leaves a node that is not playing unless it was never started. *)
Lemma stop_returns {C} (l : AudioLimits) (n : SourceNode C) :
  exists n', audioUtils.stop l n = Ok n'
    /\ onended n' = onended n
    /\ (playState n = Playing -> playState n' = Finished)
    /\ (playState n <> Playing -> n' = n).
Proof.
  unfold audioUtils.stop, source_stop, try_catch.
  destruct n as [buf conn h st]. cbn [playState].
  destruct st; cbn; try destruct (stopThrowsWhenIdle l);
    (eexists; split; [reflexivity|]; split; [reflexivity|]; split;
     [intros; try discriminate; reflexivity
     |intros; try reflexivity; congruence]).
Qed.

Section OnePlayback.
Context {C : Type}.
Variables (l : AudioLimits) (cb : C).

Lemma playback_step_settled (p : audioUtils.Playback C) (ev : audioUtils.PlaybackEvent) :
  settled cb p -> settled cb (audioUtils.playback_step l p ev).
Proof.
  unfold settled. destruct p as [[buf conn h st] done errs].
  cbn [audioUtils.source audioUtils.completions audioUtils.stopErrors
       onended playState].
  intros (-> & -> & Hst).
  destruct ev; cbn [audioUtils.playback_step];
    unfold audioUtils.stop, source_stop, try_catch, buffer_runs_out,
      dispatch_ended, set_playState;
    cbn [audioUtils.source audioUtils.completions audioUtils.stopErrors
         onended playState nodeBuffer connected];
    destruct Hst as [[-> ->]|[[->| ->] ->]];
    try destruct (stopThrowsWhenIdle l);
    cbn [audioUtils.source audioUtils.completions audioUtils.stopErrors
         onended playState nodeBuffer connected];
    auto 6.
Qed.

Lemma playback_settled (evs : list audioUtils.PlaybackEvent) (p : audioUtils.Playback C) :
  settled cb p -> settled cb (foldl (audioUtils.playback_step l) p evs).
Proof.
  revert p. induction evs as [|ev evs IH]; intros p Hp; cbn; [exact Hp|].
  apply IH, playback_step_settled, Hp.
Qed.

Lemma playback_done_stays (evs : list audioUtils.PlaybackEvent) (p : audioUtils.Playback C) :
  settled cb p -> playState (audioUtils.source p) = Ended ->
  audioUtils.completions (foldl (audioUtils.playback_step l) p evs) = [cb].
Proof.
  revert p. induction evs as [|ev evs IH]; intros p Hp Hend; cbn.
  - destruct Hp as (_ & _ & [[_ Hd]|[[Hs|Hs] _]]); congruence.
  - apply IH; [apply playback_step_settled, Hp|].
    destruct p as [n done errs]. cbn in Hend.
    destruct ev; cbn.
    + destruct (stop_returns l n) as (n' & -> & _ & _ & Hidle).
      cbn. rewrite Hidle by congruence. exact Hend.
    + unfold buffer_runs_out. rewrite Hend. exact Hend.
    + unfold dispatch_ended. rewrite Hend. exact Hend.
Qed.

(** C6.  For the handle [playAudioBuffer] returns: no call of [stop()]
    raises, whatever was called or has happened before; the completion
    callback is never called twice; two more calls of [stop()] add no call
    of it; and when the buffer runs out and the [ended] event is dispatched,
    it has been called exactly once, and stays so under whatever follows. *)
Theorem stop_is_idempotent (ctx : AudioContext) (buffer : AudioBuffer) :
  exists source,
    audioUtils.playAudioBuffer ctx buffer (Some cb) = Ok source
    /\ forall evs,
         let p := audioUtils.playback_run l evs source in
         audioUtils.stopErrors p = []
         /\ length (audioUtils.completions p) <= 1
         /\ audioUtils.completions
              (audioUtils.playback_run l (evs ++ [audioUtils.CallStop; audioUtils.CallStop]) source)
            = audioUtils.completions p
         /\ audioUtils.completions
              (audioUtils.playback_run l
                 (audioUtils.BufferRunsOut :: audioUtils.DispatchEnded :: evs) source)
            = [cb].
Proof.
  eexists. split; [apply playAudioBuffer_starts|].
  set (n := {| nodeBuffer := Some buffer; connected := true;
               onended := Some (Some cb); playState := Playing |}).
  assert (Hstart : settled cb {| audioUtils.source := n; audioUtils.completions := [];
                              audioUtils.stopErrors := [] |}).
  { unfold settled. cbn.
    split; [reflexivity|split; [reflexivity|right; split; [left|]; reflexivity]]. }
  intros evs. cbn zeta. unfold audioUtils.playback_run.
  pose proof (playback_settled evs _ Hstart) as Hp.
  unfold settled in Hp. destruct Hp as (Herr & _ & Hst).
  split; [exact Herr|]. split.
  { destruct Hst as [[_ Hd]|[_ Hd]]; rewrite Hd; cbn; lia. }
  split.
  - rewrite foldl_app.
    destruct (foldl (audioUtils.playback_step l) _ evs) as [m done errs].
    cbn [foldl audioUtils.playback_step].
    cbn [audioUtils.source audioUtils.completions audioUtils.stopErrors].
    destruct (stop_returns l m) as (m' & -> & _ & _ & _).
    cbn [audioUtils.source audioUtils.completions audioUtils.stopErrors].
    destruct (stop_returns l m') as (m'' & -> & _ & _ & _).
    reflexivity.
  - cbn [foldl]. apply playback_done_stays.
    + apply playback_step_settled, playback_step_settled, Hstart.
    + reflexivity.
Qed.
End OnePlayback.

End AudioFacts.
Import AudioFacts.

(* ================================================================== *)
(** * Facts about services/geminiService.ts *)
(* ================================================================== *)

Module ServiceFacts.

(** Running monadic code on a given store. *)
Ltac step_m :=
  unfold mbind, mret, M_bind, M_ret, JS.bind, JS.ret, JS.gets, JS.get,
    JS.modify, JS.throw, JS.lift, JS.try_, JS.when in *.

Lemma truthy_nonempty (s : string) : truthy s = true <-> s <> "".
Proof.
  unfold truthy. destruct (String.eqb_spec s ""); cbn; split; congruence.
Qed.

Lemma reply_text_nonempty (result : GenerateContentResponse) :
  reply_text result <> "".
Proof.
  unfold reply_text. destruct (responseText result) as [t|]; [|discriminate].
  destruct (truthy t) eqn:Ht; [|discriminate].
  apply truthy_nonempty, Ht.
Qed.

Lemma reply_text_fallback (result : GenerateContentResponse) :
  responseText result = None \/ responseText result = Some "" ->
  reply_text result = NO_REPLY.
Proof. unfold reply_text. intros [-> | ->]; reflexivity. Qed.

Lemma reply_text_given (result : GenerateContentResponse) (t : string) :
  responseText result = Some t -> t <> "" -> reply_text result = t.
Proof.
  unfold reply_text. intros -> Ht. apply truthy_nonempty in Ht. rewrite Ht.
  reflexivity.
Qed.

Lemma error_text_cases (e : Thrown) :
  error_text e = KEY_NOTICE \/ error_text e = CONNECTION_ERROR.
Proof. unfold error_text. destruct (_ || _ || _)%bool; auto. Qed.

Lemma error_text_nonempty (e : Thrown) : error_text e <> "".
Proof. destruct (error_text_cases e) as [-> | ->]; discriminate. Qed.

Lemma generateTextResponse_end_nonempty (call : TextCall)
    (answer : Outcome GenerateContentResponse) :
  (forall r, call = TextSettled r -> r <> "") ->
  generateTextResponse_end call answer <> "".
Proof.
  intros Hcall. destruct call as [r|req]; cbn.
  - apply Hcall. reflexivity.
  - destruct answer; [apply reply_text_nonempty|apply error_text_nonempty].
Qed.

(** [getAiClient] by cases: the cached client, a new one, or the error. *)
Lemma getAiClient_cached (sv : Service) (ai : GoogleGenAI) :
  aiInstance sv = Some ai -> getAiClient sv = (Ok ai, sv).
Proof. intros H. unfold getAiClient. step_m. rewrite H. reflexivity. Qed.

Lemma getAiClient_missing (sv : Service) :
  aiInstance sv = None -> API_KEY sv = "" ->
  getAiClient sv = (Throw (Error "API_KEY_MISSING"), sv).
Proof.
  intros Hai Hkey. unfold getAiClient. step_m. rewrite Hai, Hkey. reflexivity.
Qed.

Lemma getAiClient_cases (sv : Service) :
  (exists ai sv', getAiClient sv = (Ok ai, sv')
     /\ API_KEY sv' = API_KEY sv /\ calls sv' = calls sv
     /\ aiInstance sv' = Some ai
     /\ (aiInstance sv <> None \/ API_KEY sv <> ""))
  \/ (getAiClient sv = (Throw (Error "API_KEY_MISSING"), sv)
      /\ aiInstance sv = None /\ API_KEY sv = "").
Proof.
  unfold getAiClient. step_m.
  destruct (aiInstance sv) as [ai|] eqn:Hai.
  - left. exists ai, sv. repeat split; try (left; discriminate); auto.
  - destruct (truthy (API_KEY sv)) eqn:Hkey; cbn.
    + left. eexists _, _. repeat split. right. apply truthy_nonempty, Hkey.
    + right. repeat split.
      destruct (String.eqb_spec (API_KEY sv) ""); [assumption|].
      unfold truthy in Hkey. destruct (String.eqb_spec (API_KEY sv) ""); [contradiction|discriminate].
Qed.

(** What [generateTextResponse] has done when it first yields: it has not
    thrown; either its [catch] block has produced one of the two error
    texts and nothing was sent, or one request went out, carrying the last
    ten messages of the history it was given, oldest first. *)
Lemma generateTextResponse_begin_spec (currentMessage : string)
    (attachments : list Attachment) (history : list Message) (sv : Service) :
  exists call sv',
    generateTextResponse_begin currentMessage attachments history sv = (Ok call, sv')
    /\ API_KEY sv' = API_KEY sv
    /\ match call with
       | TextSettled r =>
           (r = KEY_NOTICE \/ r = CONNECTION_ERROR) /\ calls sv' = calls sv
       | TextInFlight req =>
           calls sv' = calls sv ++ [SendMessage req]
           /\ geminiService.history req = to_content <$> slice_last 10 history
           /\ (aiInstance sv <> None \/ API_KEY sv <> "")
       end.
Proof.
  unfold generateTextResponse_begin, prepare_chat. step_m.
  destruct (getAiClient_cases sv) as [(ai & sv1 & -> & Hkey & Hcalls & _ & Hsome)|(-> & _ & _)].
  - destruct (mapM _ attachments) as [fileParts|e]; cbn.
    + eexists _, _. split; [reflexivity|]. cbn. rewrite Hcalls. auto.
    + eexists _, _. split; [reflexivity|]. cbn.
      split; [exact Hkey|]. split; [apply error_text_cases|exact Hcalls].
  - eexists _, _. split; [reflexivity|]. cbn. auto.
Qed.

Lemma generateTextResponse_begin_missing (currentMessage : string)
    (attachments : list Attachment) (history : list Message) (sv : Service) :
  aiInstance sv = None -> API_KEY sv = "" ->
  generateTextResponse_begin currentMessage attachments history sv
  = (Ok (TextSettled KEY_NOTICE), sv).
Proof.
  intros Hai Hkey. unfold generateTextResponse_begin, prepare_chat. step_m.
  rewrite (getAiClient_missing sv Hai Hkey). reflexivity.
Qed.

(** The function in one piece is the two halves put together: the request
    the first half sends is the one the backend answers. *)
Lemma generateTextResponse_cut
    (backend : ChatRequest -> Outcome GenerateContentResponse)
    (currentMessage : string) (attachments : list Attachment)
    (history : list Message) (sv : Service) :
  exists call sv',
    generateTextResponse_begin currentMessage attachments history sv = (Ok call, sv')
    /\ forall answer,
         (forall req, call = TextInFlight req -> answer = backend req) ->
         generateTextResponse backend currentMessage attachments history sv
         = (Ok (generateTextResponse_end call answer), sv').
Proof.
  unfold generateTextResponse, generateTextResponse_begin, sendMessage. step_m.
  destruct (prepare_chat currentMessage attachments history sv) as [[req|e] sv1].
  - eexists _, _. split; [reflexivity|]. intros answer Hans.
    rewrite (Hans req eq_refl). cbn. destruct (backend req); reflexivity.
  - eexists _, _. split; [reflexivity|]. intros answer _. reflexivity.
Qed.

Lemma generateSpeech_begin_spec (text : string) (sv : Service) :
  exists call sv',
    generateSpeech_begin text sv = (Ok call, sv')
    /\ API_KEY sv' = API_KEY sv
    /\ match call with
       | SpeechSettled => sv' = sv
       | SpeechInFlight req =>
           calls sv' = calls sv ++ [GenerateContent req]
           /\ (aiInstance sv <> None \/ API_KEY sv <> "")
       end.
Proof.
  unfold generateSpeech_begin. step_m.
  destruct (getAiClient_cases sv) as [(ai & sv1 & -> & Hkey & Hcalls & _ & Hsome)|(-> & _ & _)].
  - eexists _, _. split; [reflexivity|]. cbn. rewrite Hcalls. auto.
  - eexists _, _. split; [reflexivity|]. cbn. auto.
Qed.

Lemma generateSpeech_begin_missing (text : string) (sv : Service) :
  aiInstance sv = None -> API_KEY sv = "" ->
  generateSpeech_begin text sv = (Ok SpeechSettled, sv).
Proof.
  intros Hai Hkey. unfold generateSpeech_begin. step_m.
  rewrite (getAiClient_missing sv Hai Hkey). reflexivity.
Qed.

Lemma decode_speech_silent (ctx : AudioContext) (response : GenerateContentResponse) :
  no_audio_data response -> decode_speech ctx response = Ok None.
Proof. unfold decode_speech. intros [-> | ->]; reflexivity. Qed.

Lemma generateSpeech_end_silent (call : SpeechCall) (ctx : AudioContext)
    (response : GenerateContentResponse) :
  no_audio_data response -> generateSpeech_end call ctx (Ok response) = None.
Proof.
  intros H. destruct call; cbn; [reflexivity|].
  rewrite (decode_speech_silent ctx response H). reflexivity.
Qed.

Lemma generateSpeech_cut
    (backend : SpeechRequest -> Outcome GenerateContentResponse)
    (text : string) (ctx : AudioContext) (sv : Service) :
  exists call sv',
    generateSpeech_begin text sv = (Ok call, sv')
    /\ forall answer,
         (forall req, call = SpeechInFlight req -> answer = backend req) ->
         generateSpeech backend text ctx sv
         = (Ok (generateSpeech_end call ctx answer), sv').
Proof.
  unfold generateSpeech, generateSpeech_begin. step_m.
  destruct (getAiClient sv) as [[ai|e] sv1].
  - eexists _, _. split; [reflexivity|]. intros answer Hans.
    rewrite (Hans _ eq_refl). cbn.
    destruct (backend (speech_request text)) as [response|e]; cbn; [|reflexivity].
    destruct (decode_speech ctx response) as [b|e]; reflexivity.
  - eexists _, _. split; [reflexivity|]. intros answer _. reflexivity.
Qed.

End ServiceFacts.
Import ServiceFacts.

(* ================================================================== *)
(** * Facts about the pieces of a send *)
(* ================================================================== *)

Module SessionFacts.
Import App.

(** Symbolic execution of a handler on a state given by its fields. *)
Ltac unfold_app :=
  unfold step, handleSendMessage_begin, handleSendMessage_end,
    interrupt_playback, request_reply, playResponseAudio_begin,
    playResponseAudio_end, toggleRecording, toggleLanguage, setupRecognition,
    playback_ended, stop_source, on_current_recognition, recognition_call,
    initAudioContext, uuidv4, new_Date, in_service, setMessages, setIsLoading,
    setIsRecording, setLanguage, capture_of, InputArea.handleSend,
    JS.exec, JS.returns,
    upd_messages, upd_isLoading, upd_isRecording, upd_language,
    upd_audioContextRef, upd_activeAudioSourceRef, upd_recognitionRef,
    upd_service, upd_sources, upd_recognizers, upd_textWaits, upd_speechWaits,
    upd_uuids, upd_clock in *;
  step_m.

Lemma initAudioContext_spec (s : State) :
  exists ctx, initAudioContext s
              = (Ok tt, upd_audioContextRef (fun _ => Some ctx) s).
Proof.
  destruct s as [e ms ld rc lg [ctx|] act rr sv ns rs tw sw uu ck]; unfold_app; cbn.
  - destruct ctx as [lim rate [|]]; cbn; eexists; reflexivity.
  - destruct (newContextState e); cbn; eexists; reflexivity.
Qed.

Lemma stop_source_spec (h : nat) (s : State) :
  exists ns',
    stop_source h s = (Ok tt, upd_sources (fun _ => ns') s)
    /\ length ns' = length (sources s)
    /\ (forall n, ns' !! h = Some n -> playState n <> Playing)
    /\ (forall j n, ns' !! j = Some n -> playState n = Playing ->
                    sources s !! j = Some n).
Proof.
  destruct s as [e ms ld rc lg ac act rr sv ns rs tw sw uu ck]; unfold_app; cbn.
  destruct (ns !! h) as [n|] eqn:Hn.
  - destruct (stop_returns (audioLimits e) n) as (n' & -> & _ & Hplay & Hidle). cbn.
    exists (<[h := n']> ns). split; [reflexivity|]. split; [apply length_insert|].
    assert (Hn' : playState n' <> Playing).
    { destruct (playState n) eqn:Hp;
        try (rewrite Hidle by discriminate; rewrite Hp; discriminate).
      rewrite (Hplay eq_refl). discriminate. }
    split.
    + intros m Hm. rewrite list_lookup_insert_eq in Hm by (eapply lookup_lt_Some; eauto).
      congruence.
    + intros j m Hm Hp. destruct (decide (j = h)) as [->|Hj].
      * rewrite list_lookup_insert_eq in Hm by (eapply lookup_lt_Some; eauto).
        congruence.
      * rewrite list_lookup_insert_ne in Hm by congruence. exact Hm.
  - exists ns. split; [reflexivity|]. split; [reflexivity|]. split.
    + intros n Hn'. congruence.
    + auto.
Qed.


Lemma interrupt_playback_active (s : State) (h : nat) :
  activeAudioSourceRef s = Some h ->
  exists ctx ns',
    interrupt_playback s
    = (Ok tt,
       upd_messages (fun prev => with_isAudioPlaying false <$> prev)
         (upd_activeAudioSourceRef (fun _ => None)
            (upd_sources (fun _ => ns')
               (upd_audioContextRef (fun _ => Some ctx) s))))
    /\ length ns' = length (sources s)
    /\ (forall n, ns' !! h = Some n -> playState n <> Playing)
    /\ (forall j n, ns' !! j = Some n -> playState n = Playing ->
                    sources s !! j = Some n).
Proof.
  intros Hact. unfold interrupt_playback. step_m.
  destruct (initAudioContext_spec s) as [ctx ->]. exists ctx.
  cbn [upd_audioContextRef activeAudioSourceRef]. rewrite Hact.
  destruct (stop_source_spec h (upd_audioContextRef (fun _ => Some ctx) s))
    as (ns' & -> & Hlen & Hstop & Hother).
  exists ns'. split; [reflexivity|]. auto.
Qed.

Lemma interrupt_playback_idle (s : State) :
  activeAudioSourceRef s = None ->
  exists ctx,
    interrupt_playback s = (Ok tt, upd_audioContextRef (fun _ => Some ctx) s).
Proof.
  intros Hact. unfold interrupt_playback. step_m.
  destruct (initAudioContext_spec s) as [ctx ->]. exists ctx.
  cbn [upd_audioContextRef activeAudioSourceRef]. rewrite Hact. reflexivity.
Qed.

Lemma request_reply_spec (closedOver : list Message) (text : string)
    (attachments : list Attachment) (voice : bool) (s : State) :
  exists call sv',
    generateTextResponse_begin text attachments closedOver (service s) = (Ok call, sv')
    /\ request_reply closedOver text attachments voice s
       = (Ok tt,
          upd_textWaits
            (fun ws => ws ++ [Some {| textCall := call; isVoiceMode := voice |}])
            (upd_service (fun _ => sv')
               (upd_isLoading (fun _ => true)
                  (upd_messages
                     (fun prev =>
                        prev ++ [ {| id := uuids s; role := USER; text := text;
                                     types.attachments := Some attachments;
                                     timestamp := clock s;
                                     isAudioPlaying := None |} ])
                     (upd_uuids S s))))).
Proof.
  destruct (generateTextResponse_begin_spec text attachments closedOver (service s))
    as (call & sv' & Hbegin & _).
  exists call, sv'. split; [exact Hbegin|].
  unfold request_reply, uuidv4, new_Date, setMessages, setIsLoading, in_service.
  step_m. cbn. rewrite Hbegin. reflexivity.
Qed.


(** C2 (as amended).  A send made while [activeAudioSourceRef] holds a
    handle stops that source, releases the handle and clears the audible
    flag of every message, all before the request for the reply is made:
    the request starts from the state [s1] in which this is done and nothing
    has been sent yet, and no message is speaking when the send yields. *)
Theorem send_interrupts_active_playback (s : State) (closedOver : list Message)
    (text : string) (attachments : list Attachment) (voice : bool) (h : nat) :
  activeAudioSourceRef s = Some h ->
  let send := handleSendMessage_begin closedOver text attachments voice in
  let s1 := JS.exec interrupt_playback s in
  JS.returns send s = true
  /\ JS.exec send s = JS.exec (request_reply closedOver text attachments voice) s1
  /\ calls (service s1) = calls (service s)
  /\ (forall n, sources s1 !! h = Some n -> playState n <> Playing)
  /\ activeAudioSourceRef s1 = None
  /\ (forall m, m ∈ messages s1 -> isAudioPlaying m = Some false)
  /\ (forall m, m ∈ messages (JS.exec send s) -> ~ speaking m)
  /\ activeAudioSourceRef (JS.exec send s) = None
  /\ sources (JS.exec send s) = sources s1.
Proof.
  intros Hact send s1.
  destruct (interrupt_playback_active s h Hact) as (ctx & ns' & Hint & _ & Hstop & _).
  assert (Hs1 : s1 = upd_messages (fun prev => with_isAudioPlaying false <$> prev)
                       (upd_activeAudioSourceRef (fun _ => None)
                          (upd_sources (fun _ => ns')
                             (upd_audioContextRef (fun _ => Some ctx) s)))).
  { unfold s1, JS.exec. rewrite Hint. reflexivity. }
  destruct (request_reply_spec closedOver text attachments voice s1)
    as (call & sv' & _ & Hreq).
  assert (Hsend : send s = request_reply closedOver text attachments voice s1).
  { unfold send, handleSendMessage_begin. step_m. rewrite Hint, <- Hs1. reflexivity. }
  assert (Hflags : forall m, m ∈ messages s1 -> isAudioPlaying m = Some false).
  { intros m Hm. rewrite Hs1 in Hm. cbn in Hm.
    apply list_elem_of_fmap in Hm as (m0 & -> & _). reflexivity. }
  unfold JS.returns, JS.exec. rewrite Hsend, Hreq. cbn [fst snd JS.is_Ok].
  split; [reflexivity|]. split; [reflexivity|].
  split; [rewrite Hs1; reflexivity|].
  split; [rewrite Hs1; exact Hstop|].
  split; [rewrite Hs1; reflexivity|].
  split; [exact Hflags|].
  split; [|split; [rewrite Hs1; reflexivity|reflexivity]].
  intros m Hm. cbn in Hm. unfold speaking.
  apply elem_of_app in Hm as [Hm|Hm].
  - rewrite (Hflags m Hm). discriminate.
  - apply list_elem_of_singleton in Hm as ->. discriminate.
Qed.


(** ** The other pieces of a send *)

Lemma playResponseAudio_begin_spec (text : string) (messageId : Id) (s : State) :
  match audioContextRef s with
  | None => playResponseAudio_begin text messageId s = (Ok tt, s)
  | Some ctx =>
      exists call sv',
        generateSpeech_begin text (service s) = (Ok call, sv')
        /\ playResponseAudio_begin text messageId s
           = (Ok tt,
              upd_speechWaits
                (fun ws => ws ++ [Some {| speechCall := call; messageId := messageId;
                                          speechContext := ctx |}])
                (upd_service (fun _ => sv')
                   (upd_messages (set_audible messageId true) s)))
  end.
Proof.
  unfold playResponseAudio_begin, setMessages, in_service. step_m.
  destruct (audioContextRef s) as [ctx|]; [|reflexivity].
  destruct (generateSpeech_begin_spec text (service s)) as (call & sv' & Hbegin & _).
  exists call, sv'. split; [exact Hbegin|]. cbn. rewrite Hbegin. reflexivity.
Qed.

Lemma playResponseAudio_end_silent (messageId : Id) (s : State) :
  playResponseAudio_end messageId None s
  = (Ok tt, upd_messages (set_audible messageId false) s).
Proof. reflexivity. Qed.

Lemma handleSendMessage_end_spec (aiText : string) (voice : bool) (s : State) :
  let s1 :=
    upd_isLoading (fun _ => false)
      (upd_messages
         (fun prev =>
            prev ++ [ {| id := uuids s; role := MODEL; text := aiText;
                         types.attachments := None; timestamp := clock s;
                         isAudioPlaying := None |} ])
         (upd_uuids S s)) in
  handleSendMessage_end aiText voice s
  = if voice then playResponseAudio_begin aiText (uuids s) s1 else (Ok tt, s1).
Proof.
  cbn zeta. unfold handleSendMessage_end, uuidv4, new_Date, setMessages, setIsLoading.
  step_m. cbn. destruct voice; cbn; [|reflexivity].
  match goal with |- context [playResponseAudio_begin ?t ?i ?st] =>
    pose proof (playResponseAudio_begin_spec t i st) as Hplay;
    destruct (audioContextRef st)
  end.
  - destruct Hplay as (call & sv' & _ & ->). reflexivity.
  - rewrite Hplay. reflexivity.
Qed.

Lemma text_answer_pending (s : State) (k : nat) (w : TextWait)
    (answer : Outcome GenerateContentResponse) :
  textWaits s !! k = Some (Some w) ->
  step (TextAnswer k answer) s
  = handleSendMessage_end (generateTextResponse_end (textCall w) answer)
      (isVoiceMode w) (upd_textWaits (fun ws => <[k := None]> ws) s).
Proof.
  intros Hw. unfold step. step_m. rewrite Hw. reflexivity.
Qed.

Lemma speech_answer_pending (s : State) (k : nat) (w : SpeechWait)
    (answer : Outcome GenerateContentResponse) :
  speechWaits s !! k = Some (Some w) ->
  step (SpeechAnswer k answer) s
  = playResponseAudio_end (messageId w)
      (generateSpeech_end (speechCall w) (speechContext w) answer)
      (upd_speechWaits (fun ws => <[k := None]> ws) s).
Proof.
  intros Hw. unfold step. step_m. rewrite Hw. reflexivity.
Qed.

(** Whatever the state, the first part of a send returns, with loading on
    and its own wait at the end of the list. *)
Lemma handleSendMessage_begin_spec (closedOver : list Message) (text : string)
    (attachments : list Attachment) (voice : bool) (s : State) :
  exists s1 call sv',
    interrupt_playback s = (Ok tt, s1)
    /\ service s1 = service s
    /\ textWaits s1 = textWaits s
    /\ speechWaits s1 = speechWaits s
    /\ length (sources s1) = length (sources s)
    /\ audioContextRef s1 <> None
    /\ activeAudioSourceRef s1 = None
    /\ generateTextResponse_begin text attachments closedOver (service s)
       = (Ok call, sv')
    /\ handleSendMessage_begin closedOver text attachments voice s
       = (Ok tt,
          upd_textWaits
            (fun ws => ws ++ [Some {| textCall := call; isVoiceMode := voice |}])
            (upd_service (fun _ => sv')
               (upd_isLoading (fun _ => true)
                  (upd_messages
                     (fun prev =>
                        prev ++ [ {| id := uuids s; role := USER; text := text;
                                     types.attachments := Some attachments;
                                     timestamp := clock s;
                                     isAudioPlaying := None |} ])
                     (upd_uuids S s1))))).
Proof.
  assert (Hint : exists s1, interrupt_playback s = (Ok tt, s1)
                   /\ service s1 = service s /\ textWaits s1 = textWaits s
                   /\ speechWaits s1 = speechWaits s
                   /\ length (sources s1) = length (sources s)
                   /\ audioContextRef s1 <> None
                   /\ activeAudioSourceRef s1 = None
                   /\ uuids s1 = uuids s /\ clock s1 = clock s).
  { destruct (activeAudioSourceRef s) as [h|] eqn:Hact.
    - destruct (interrupt_playback_active s h Hact) as (ctx & ns' & -> & Hlen & _).
      eexists. split; [reflexivity|]. cbn. repeat split; auto; discriminate.
    - destruct (interrupt_playback_idle s Hact) as (ctx & ->).
      eexists. split; [reflexivity|]. cbn. repeat split; auto; discriminate. }
  destruct Hint as (s1 & Hint & Hsv & Htw & Hsw & Hlen & Hctx & Href & Huu & Hck).
  destruct (request_reply_spec closedOver text attachments voice s1)
    as (call & sv' & Hbegin & Hreq).
  exists s1, call, sv'. rewrite <- Hsv.
  repeat split; auto.
  unfold handleSendMessage_begin. step_m. rewrite Hint, Hreq, Huu, Hck. reflexivity.
Qed.


(** C5.  [generateTextResponse] returns a text whatever the backend does:
    either one of the two bilingual error texts, or the reply of a backend
    that answered the request that was sent.  The first part of a send
    returns with loading on and a wait of its own; and when the call a send
    waits for settles, in whatever way, the rest of the send returns with
    loading off, the text appended as the assistant's message. *)
Theorem reply_is_text_and_loading_ends :
  (forall backend currentMessage attachments history sv,
     exists reply sv',
       generateTextResponse backend currentMessage attachments history sv
       = (Ok reply, sv')
       /\ (reply = KEY_NOTICE \/ reply = CONNECTION_ERROR
           \/ exists req result,
                calls sv' = calls sv ++ [SendMessage req]
                /\ backend req = Ok result /\ reply = reply_text result))
  /\ (forall s closedOver text attachments voice,
        let send := handleSendMessage_begin closedOver text attachments voice in
        JS.returns send s = true
        /\ isLoading (JS.exec send s) = true
        /\ exists w, textWaits (JS.exec send s) !! length (textWaits s) = Some (Some w)
                     /\ isVoiceMode w = voice)
  /\ (forall s k w answer,
        textWaits s !! k = Some (Some w) ->
        let settle := step (TextAnswer k answer) in
        JS.returns settle s = true
        /\ isLoading (JS.exec settle s) = false
        /\ exists a, a ∈ messages (JS.exec settle s)
                     /\ role a = MODEL
                     /\ text a = generateTextResponse_end (textCall w) answer).
Proof.
  split; [|split].
  - intros backend currentMessage attachments history sv.
    destruct (generateTextResponse_cut backend currentMessage attachments history sv)
      as (call & sv' & Hbegin & Hcut).
    destruct (generateTextResponse_begin_spec currentMessage attachments history sv)
      as (call' & sv'' & Hbegin' & _ & Hcall).
    rewrite Hbegin in Hbegin'. injection Hbegin' as <- <-.
    destruct call as [r|req].
    + exists r, sv'. split.
      * apply (Hcut (Throw (Error ""))). intros req [=].
      * destruct Hcall as [[-> | ->] _]; auto.
    + exists (generateTextResponse_end (TextInFlight req) (backend req)), sv'. split.
      * apply Hcut. intros req' [= <-]. reflexivity.
      * destruct Hcall as (Hcalls & _). cbn.
        destruct (backend req) as [result|e] eqn:Hback.
        -- right. right. exists req, result. auto.
        -- destruct (error_text_cases e) as [-> | ->]; auto.
  - intros s closedOver text attachments voice send.
    destruct (handleSendMessage_begin_spec closedOver text attachments voice s)
      as (s1 & call & sv' & _ & _ & Htw & _ & _ & _ & _ & _ & Hsend).
    unfold JS.returns, JS.exec, send. rewrite Hsend. cbn.
    split; [reflexivity|]. split; [reflexivity|].
    eexists. split; [rewrite Htw; apply list_lookup_middle; reflexivity|reflexivity].
  - intros s k w answer Hw settle.
    unfold JS.returns, JS.exec, settle.
    rewrite (text_answer_pending s k w answer Hw), handleSendMessage_end_spec.
    set (a := {| id := _; role := MODEL; text := _ |}).
    destruct (isVoiceMode w).
    + match goal with |- context [playResponseAudio_begin ?t ?i ?st] =>
        pose proof (playResponseAudio_begin_spec t i st) as Hplay;
        destruct (audioContextRef st)
      end.
      * destruct Hplay as (call & sv' & _ & ->). cbn.
        split; [reflexivity|]. split; [reflexivity|].
        exists (if bool_decide (id a = uuids s) then with_isAudioPlaying true a else a).
        split; [|destruct (bool_decide _); split; reflexivity].
        unfold set_audible. apply list_elem_of_fmap.
        exists a. split; [reflexivity|]. apply elem_of_app. right. left.
      * rewrite Hplay. cbn. split; [reflexivity|]. split; [reflexivity|].
        exists a. split; [|split; reflexivity]. apply elem_of_app. right. left.
    + cbn. split; [reflexivity|]. split; [reflexivity|].
      exists a. split; [|split; reflexivity]. apply elem_of_app. right. left.
Qed.


Lemma set_audible_flag (messageId : Id) (b : bool) (prev : list Message) (m : Message) :
  m ∈ set_audible messageId b prev -> id m = messageId ->
  isAudioPlaying m = Some b.
Proof.
  unfold set_audible. intros Hm Hid.
  apply list_elem_of_fmap in Hm as (m0 & -> & _).
  destruct (bool_decide (id m0 = messageId)) eqn:Hdec; [reflexivity|].
  apply bool_decide_eq_false in Hdec. contradiction.
Qed.

Lemma set_audible_snoc (messageId : Id) (b : bool) (prev : list Message) (a : Message) :
  id a = messageId ->
  set_audible messageId b (prev ++ [a])
  = set_audible messageId b prev ++ [with_isAudioPlaying b a].
Proof.
  intros Hid. unfold set_audible. rewrite fmap_app. cbn.
  rewrite (bool_decide_eq_true_2 (id a = messageId) Hid). reflexivity.
Qed.

(** C7.  When the synthesis backend answers without audio data:
    [generateSpeech] returns [null]; the playback that waits for it returns
    without an error, creates no source, leaves the handle as it was and
    leaves the message it was made for not audible; and so a voice-mode
    send ends with its assistant message not audible and no handle. *)
Theorem silent_synthesis_skips_playback (response : GenerateContentResponse) :
  no_audio_data response ->
  (forall backend text ctx sv,
     (forall req, backend req = Ok response) ->
     fst (generateSpeech backend text ctx sv) = Ok None)
  /\ (forall s k w,
        speechWaits s !! k = Some (Some w) ->
        let settle := step (SpeechAnswer k (Ok response)) in
        JS.returns settle s = true
        /\ sources (JS.exec settle s) = sources s
        /\ activeAudioSourceRef (JS.exec settle s) = activeAudioSourceRef s
        /\ messages (JS.exec settle s) = set_audible (messageId w) false (messages s)
        /\ forall m, m ∈ messages (JS.exec settle s) -> id m = messageId w ->
                     isAudioPlaying m = Some false)
  /\ (forall s closedOver text answer,
        let s1 := JS.exec (handleSendMessage_begin closedOver text [] true) s in
        let s2 := JS.exec (step (TextAnswer (length (textWaits s)) answer)) s1 in
        let settle := step (SpeechAnswer (length (speechWaits s)) (Ok response)) in
        JS.returns settle s2 = true
        /\ (exists a, last (messages (JS.exec settle s2)) = Some a
                      /\ role a = MODEL /\ isAudioPlaying a = Some false)
        /\ sources (JS.exec settle s2) = sources s1
        /\ activeAudioSourceRef (JS.exec settle s2) = None).
Proof.
  intros Hsilent. split; [|split].
  - intros backend text ctx sv Hback.
    destruct (generateSpeech_cut backend text ctx sv) as (call & sv' & _ & Hcut).
    rewrite (Hcut (Ok response)) by (intros req _; rewrite Hback; reflexivity).
    cbn. rewrite (generateSpeech_end_silent call ctx response Hsilent). reflexivity.
  - intros s k w Hw settle. unfold JS.returns, JS.exec, settle.
    rewrite (speech_answer_pending s k w _ Hw).
    rewrite (generateSpeech_end_silent _ _ response Hsilent).
    rewrite playResponseAudio_end_silent. cbn.
    repeat split. intros m Hm Hid. eapply set_audible_flag; eauto.
  - intros s closedOver text answer s1 s2 settle.
    destruct (handleSendMessage_begin_spec closedOver text [] true s)
      as (s0 & call & sv' & _ & _ & Htw & Hsw & _ & Hctx & Href & _ & Hsend).
    assert (Hs1 : s1 = snd (handleSendMessage_begin closedOver text [] true s))
      by reflexivity.
    rewrite Hsend in Hs1. cbn [snd] in Hs1.
    assert (Hwait : textWaits s1 !! length (textWaits s)
                    = Some (Some {| textCall := call; isVoiceMode := true |})).
    { rewrite Hs1. cbn. rewrite Htw. apply list_lookup_middle. reflexivity. }
    assert (Hs2 : s2 = snd (step (TextAnswer (length (textWaits s)) answer) s1))
      by reflexivity.
    rewrite (text_answer_pending s1 _ _ answer Hwait), handleSendMessage_end_spec in Hs2.
    cbn [isVoiceMode textCall] in Hs2.
    match type of Hs2 with context [playResponseAudio_begin ?t ?i ?st] =>
      pose proof (playResponseAudio_begin_spec t i st) as Hplay;
      assert (Hc : audioContextRef st = audioContextRef s0) by (rewrite Hs1; reflexivity)
    end.
    rewrite Hc in Hplay. destruct (audioContextRef s0) as [ctx|]; [|contradiction].
    destruct Hplay as (scall & sv2 & _ & Hplay). rewrite Hplay in Hs2. cbn [snd] in Hs2.
    assert (Hspeech : exists w, speechWaits s2 !! length (speechWaits s) = Some (Some w)
                                /\ messageId w = uuids s1).
    { eexists. rewrite Hs2. cbn. rewrite Hs1. cbn. rewrite Hsw.
      split; [apply list_lookup_middle; reflexivity|reflexivity]. }
    destruct Hspeech as (w & Hw & Hid).
    unfold JS.returns, JS.exec, settle.
    rewrite (speech_answer_pending s2 _ w _ Hw).
    rewrite (generateSpeech_end_silent _ _ response Hsilent).
    rewrite playResponseAudio_end_silent. cbn [fst snd JS.is_Ok].
    split; [reflexivity|]. split; [|split].
    + rewrite Hid, Hs2. cbn [messages upd_messages upd_speechWaits upd_service
                               upd_isLoading upd_uuids upd_textWaits].
      rewrite set_audible_snoc by reflexivity.
      rewrite set_audible_snoc by reflexivity.
      rewrite last_snoc.
      eexists. split; [reflexivity|]. split; reflexivity.
    + rewrite Hs2, Hs1. reflexivity.
    + rewrite Hs2, Hs1. cbn. exact Href.
Qed.

End SessionFacts.
Import SessionFacts.

(* ================================================================== *)
(** * Invariants of the page *)
(* ================================================================== *)

Module Invariants.
Import App.

Lemma handleSendMessage_begin_idle (closedOver : list Message) (text : string)
    (attachments : list Attachment) (voice : bool) (s : State) :
  activeAudioSourceRef s = None ->
  exists ctx call sv',
    generateTextResponse_begin text attachments closedOver (service s) = (Ok call, sv')
    /\ handleSendMessage_begin closedOver text attachments voice s
       = (Ok tt,
          upd_textWaits
            (fun ws => ws ++ [Some {| textCall := call; isVoiceMode := voice |}])
            (upd_service (fun _ => sv')
               (upd_isLoading (fun _ => true)
                  (upd_messages
                     (fun prev =>
                        prev ++ [ {| id := uuids s; role := USER; text := text;
                                     types.attachments := Some attachments;
                                     timestamp := clock s;
                                     isAudioPlaying := None |} ])
                     (upd_uuids S (upd_audioContextRef (fun _ => Some ctx) s)))))).
Proof.
  intros Href. destruct (interrupt_playback_idle s Href) as (ctx & Hint).
  destruct (request_reply_spec closedOver text attachments voice
              (upd_audioContextRef (fun _ => Some ctx) s)) as (call & sv' & Hbegin & Hreq).
  exists ctx, call, sv'. split; [exact Hbegin|].
  unfold handleSendMessage_begin. step_m. rewrite Hint, Hreq. reflexivity.
Qed.

#[local] Arguments set_audible : simpl never.

Ltac split_match :=
  match goal with
  | |- context [audioUtils.stop ?l ?n] =>
      destruct (stop_returns l n) as (? & -> & ? & ? & ?)
  | |- context [match ?x with _ => _ end] =>
      lazymatch x with
      | context [match _ with _ => _ end] => fail
      | _ => destruct x eqn:?
      end
  end.

Ltac split_service :=
  match goal with
  | |- context [generateTextResponse_begin ?t ?a ?h ?sv] =>
      let H := fresh "Hcall" in
      destruct (generateTextResponse_begin_spec t a h sv) as (? & ? & -> & ? & H)
  | |- context [generateSpeech_begin ?t ?sv] =>
      let H := fresh "Hcall" in
      destruct (generateSpeech_begin_spec t sv) as (? & ? & -> & ? & H)
  end.

Ltac split_cases := repeat (first [progress cbn | split_service | split_match]).

Lemma waits_settle {W} (P : W -> Prop) (ws : list (option W)) (k : nat) :
  (forall j w, ws !! j = Some (Some w) -> P w) ->
  forall j w, <[k := None]> ws !! j = Some (Some w) -> P w.
Proof.
  intros H j w Hj. destruct (decide (k = j)) as [->|Hne].
  - destruct (decide (j < length ws)) as [Hlt|Hge].
    + rewrite list_lookup_insert_eq in Hj by exact Hlt. discriminate.
    + rewrite list_insert_ge in Hj by lia. eauto.
  - rewrite list_lookup_insert_ne in Hj by exact Hne. eauto.
Qed.

Lemma waits_snoc {W} (P : W -> Prop) (ws : list (option W)) (w0 : W) :
  (forall j w, ws !! j = Some (Some w) -> P w) -> P w0 ->
  forall j w, (ws ++ [Some w0]) !! j = Some (Some w) -> P w.
Proof.
  intros H H0 j w Hj. apply lookup_app_Some in Hj as [Hj|[_ Hj]]; [eauto|].
  destruct (j - length ws); cbn in Hj; [|discriminate].
  injection Hj as <-. exact H0.
Qed.

(** ** No credential *)

Lemma step_no_key (ev : Event) (s : State) :
  no_key s -> no_key (JS.exec (step ev) s).
Proof.
  destruct s as [e ms ld rc lg ac act rr sv ns rs tw sw uu ck].
  unfold no_key. cbn. intros (Hkey & Hai & Hcalls & -> & -> & Hsw).
  pose proof (fun t a h => generateTextResponse_begin_missing t a h sv Hai Hkey) as Htext.
  pose proof (fun t => generateSpeech_begin_missing t sv Hai Hkey) as Hspeech.
  destruct ev; unfold_app; cbn.
  all: repeat (first [rewrite Htext | rewrite Hspeech | progress cbn | split_match]).
  all: try (repeat split; auto; fail).
  all: repeat (split; [assumption || reflexivity|]).
  all: try (apply (waits_settle (fun w => speechCall w = SpeechSettled)); assumption).
  - apply (waits_snoc (fun w => speechCall w = SpeechSettled));
      [assumption|reflexivity].
  - exfalso.
    match goal with
    | Hw : sw !! _ = Some (Some ?w), Hb : generateSpeech_end (speechCall ?w) _ _ = Some _ |- _ =>
        rewrite (Hsw _ _ Hw) in Hb; discriminate Hb
    end.
Qed.

Lemma run_invariant (P : State -> Prop) :
  (forall ev s, P s -> P (JS.exec (step ev) s)) ->
  forall evs s, P s -> P (run evs s).
Proof.
  intros Hstep evs. induction evs as [|ev evs IH]; intros s Hs; cbn; [exact Hs|].
  apply IH, Hstep, Hs.
Qed.

Lemma mounted_no_key (e : Env) : credential e = "" -> no_key (mounted e).
Proof.
  intros Hkey. unfold mounted, initial. unfold_app. cbn.
  destruct (hasSpeechRecognition e); unfold no_key; cbn;
    repeat split; auto; intros [|k] w [=].
Qed.


(** ** Assistant messages say something *)

Lemma worded_flag (b : bool) (m : Message) : worded m -> worded (with_isAudioPlaying b m).
Proof. intros H. exact H. Qed.

Lemma worded_cleared (ms : list Message) :
  Forall worded ms -> Forall worded (with_isAudioPlaying false <$> ms).
Proof. intros H. apply Forall_fmap. eapply Forall_impl; [exact H|]. intros m Hm. exact Hm. Qed.

Lemma worded_set_audible (messageId : Id) (b : bool) (ms : list Message) :
  Forall worded ms -> Forall worded (set_audible messageId b ms).
Proof.
  intros H. unfold set_audible. apply Forall_fmap.
  eapply Forall_impl; [exact H|]. intros m Hm. cbn.
  destruct (bool_decide _); exact Hm.
Qed.

Ltac worded_goal :=
  repeat match goal with
  | |- _ /\ _ => split
  | |- Forall worded (_ ++ _) => apply Forall_app; split
  | |- Forall worded [_] => apply Forall_singleton
  | |- Forall worded (with_isAudioPlaying false <$> _) => apply worded_cleared
  | |- Forall worded (set_audible _ _ _) => apply worded_set_audible
  | |- Forall worded _ => assumption
  | |- worded _ => let H := fresh in unfold worded; cbn; intros H; try discriminate H
  | |- forall j w, <[_ := None]> _ !! j = Some (Some w) -> will_be_worded w =>
      apply (waits_settle will_be_worded)
  | |- forall j w, (_ ++ [Some _]) !! j = Some (Some w) -> will_be_worded w =>
      apply (waits_snoc will_be_worded)
  | |- forall j w, _ !! j = Some (Some w) -> will_be_worded w => assumption
  end.

Lemma step_all_worded (ev : Event) (s : State) :
  all_worded s -> all_worded (JS.exec (step ev) s).
Proof.
  destruct s as [e ms ld rc lg ac act rr sv ns rs tw sw uu ck].
  unfold all_worded. cbn. intros (Hms & Htw).
  destruct ev; unfold_app; cbn.
  all: split_cases.
  all: try (split; assumption).
  all: worded_goal.
  all: try match goal with
       | Hcall : match ?x with TextSettled _ => _ | TextInFlight _ => _ end
         |- will_be_worded {| textCall := ?x |} =>
           let r' := fresh "reply" in
           let Hr := fresh "Hreply" in
           intros r' Hr; cbn in Hr; subst x;
           destruct Hcall as [[-> | ->] _]; discriminate
       end.
  all: try match goal with
       | Hw : _ !! _ = Some (Some ?w) |- generateTextResponse_end (textCall ?w) _ <> "" =>
           apply generateTextResponse_end_nonempty; exact (Htw _ _ Hw)
       end.
Qed.

Lemma mounted_all_worded (e : Env) : all_worded (mounted e).
Proof.
  unfold mounted, initial. unfold_app. cbn.
  destruct (hasSpeechRecognition e); unfold all_worded; cbn;
    (split; [constructor|intros [|k] w [=]]).
Qed.

(** ** No speech capture *)

Lemma step_no_capture (ev : Event) (s : State) :
  no_capture s -> no_capture (JS.exec (step ev) s).
Proof.
  destruct s as [e ms ld rc lg ac act rr sv ns rs tw sw uu ck].
  unfold no_capture. cbn. intros (Hcap & -> & -> & ->).
  destruct ev; unfold_app; cbn; rewrite ?Hcap.
  all: split_cases.
  all: try (repeat split; auto; fail).
  all: match goal with
       | H : [] !! _ = Some _ |- _ => rewrite lookup_nil in H; discriminate H
       end.
Qed.

Lemma mounted_no_capture (e : Env) :
  hasSpeechRecognition e = false -> no_capture (mounted e).
Proof.
  intros Hcap. unfold mounted, initial. unfold_app. cbn. rewrite Hcap.
  unfold no_capture. cbn. auto.
Qed.

End Invariants.
Import Invariants.

(* ================================================================== *)
(** * The session as a whole *)
(* ================================================================== *)

Module Claims.
Import App.

(** C4.  With no credential configured, in any state the page can reach:
    [send("hello", [], false)] returns with loading on; when its call
    settles, whatever the answer, loading is off and the messages are the
    earlier ones, the user's "hello", and an assistant message that is the
    missing-key notice; and the service has never sent a request. *)
Theorem missing_key_notice (e : Env) (evs : list Event)
    (answer : Outcome GenerateContentResponse) :
  credential e = "" ->
  let s := run evs (mounted e) in
  let send := handleSendMessage_begin (messages s) "hello" [] false in
  let s1 := JS.exec send s in
  let settle := step (TextAnswer (length (textWaits s)) answer) in
  let s2 := JS.exec settle s1 in
  JS.returns send s = true
  /\ isLoading s1 = true
  /\ JS.returns settle s1 = true
  /\ isLoading s2 = false
  /\ (exists u a, messages s2 = messages s ++ [u; a]
                  /\ role u = USER /\ text u = "hello"
                  /\ role a = MODEL /\ text a = KEY_NOTICE)
  /\ calls (service s2) = [].
Proof.
  intros Hkey s send s1 settle s2.
  assert (Hs : no_key s) by (apply run_invariant; [apply step_no_key|apply mounted_no_key, Hkey]).
  destruct Hs as (Hk & Hai & Hcalls & Href & _ & _).
  destruct (handleSendMessage_begin_idle (messages s) "hello" [] false s Href)
    as (ctx & call & sv' & Hbegin & Hsend).
  rewrite (generateTextResponse_begin_missing _ _ _ _ Hai Hk) in Hbegin.
  injection Hbegin as <- <-.
  assert (Hs1 : s1 = snd (send s)) by reflexivity.
  unfold send in Hs1. rewrite Hsend in Hs1. cbn [snd] in Hs1.
  assert (Hwait : textWaits s1 !! length (textWaits s)
                  = Some (Some {| textCall := TextSettled KEY_NOTICE; isVoiceMode := false |})).
  { rewrite Hs1. cbn. apply list_lookup_middle. reflexivity. }
  assert (Hs2 : s2 = snd (settle s1)) by reflexivity.
  unfold settle in Hs2.
  rewrite (text_answer_pending s1 _ _ answer Hwait), handleSendMessage_end_spec in Hs2.
  cbn [isVoiceMode textCall snd generateTextResponse_end] in Hs2.
  unfold JS.returns, settle. rewrite (text_answer_pending s1 _ _ answer Hwait), handleSendMessage_end_spec.
  unfold send. rewrite Hsend. cbn [isVoiceMode fst snd JS.is_Ok].
  split; [reflexivity|]. split; [rewrite Hs1; reflexivity|].
  split; [reflexivity|]. split; [rewrite Hs2; reflexivity|].
  split.
  - eexists _, _. split.
    + rewrite Hs2, Hs1. cbn. rewrite <- app_assoc. reflexivity.
    + repeat split; reflexivity.
  - rewrite Hs2, Hs1. cbn. exact Hcalls.
Qed.

Lemma missing_key_notice_witness :
  credential Examples.bare_browser = ""
  /\ let s := run [Submit "hi" []; TextAnswer 0 (Throw (Error "offline"))]
                (mounted Examples.bare_browser) in
     let send := handleSendMessage_begin (messages s) "hello" [] false in
     let s1 := JS.exec send s in
     let settle := step (TextAnswer (length (textWaits s)) (Throw (Error "offline"))) in
     let s2 := JS.exec settle s1 in
     JS.returns send s = true
     /\ isLoading s1 = true
     /\ JS.returns settle s1 = true
     /\ isLoading s2 = false
     /\ (exists u a, messages s2 = messages s ++ [u; a]
                     /\ role u = USER /\ text u = "hello"
                     /\ role a = MODEL /\ text a = KEY_NOTICE)
     /\ calls (service s2) = [].
Proof.
  split; [reflexivity|].
  apply (missing_key_notice Examples.bare_browser
           [Submit "hi" []; TextAnswer 0 (Throw (Error "offline"))]
           (Throw (Error "offline"))).
  reflexivity.
Defined.


(** C9.  Without the speech-capture capability, in any state the page can
    reach, there is no recognition object: the call that would start the
    capture changes nothing, and pressing the microphone returns without an
    error and leaves capture, messages and loading as they were.  And
    [stop()] and [abort()] return on a recognition object in any state,
    never started and ended included, as do the handlers that call them
    ([toggleRecording] while recording, [toggleLanguage],
    [setupRecognition]) in any state of the page. *)
Theorem capture_calls_are_safe :
  (forall e evs,
     hasSpeechRecognition e = false ->
     let s := run evs (mounted e) in
     recognitionRef s = None
     /\ on_current_recognition recognition_start s = (Ok tt, s)
     /\ JS.returns toggleRecording s = true
     /\ isRecording (JS.exec toggleRecording s) = false
     /\ recognitionRef (JS.exec toggleRecording s) = None
     /\ recognizers (JS.exec toggleRecording s) = []
     /\ messages (JS.exec toggleRecording s) = messages s
     /\ isLoading (JS.exec toggleRecording s) = isLoading s)
  /\ (forall r, JS.is_Ok (recognition_stop r) = true
                /\ JS.is_Ok (recognition_abort r) = true)
  /\ (forall s,
        JS.returns (on_current_recognition recognition_stop) s = true
        /\ JS.returns (on_current_recognition recognition_abort) s = true
        /\ JS.returns setupRecognition s = true
        /\ JS.returns toggleLanguage s = true
        /\ (isRecording s = true -> JS.returns toggleRecording s = true)).
Proof.
  split; [|split].
  - intros e evs Hcap s.
    assert (Hs : no_capture s)
      by (apply run_invariant; [apply step_no_capture|apply mounted_no_capture, Hcap]).
    clearbody s. destruct s as [e' ms ld rc lg ac act rr sv ns rs tw sw uu ck].
    unfold no_capture in Hs. cbn in Hs. destruct Hs as (_ & -> & -> & ->).
    unfold_app. cbn. split_cases; repeat split; reflexivity.
  - intros r. unfold recognition_stop, recognition_abort.
    destruct (capture r); split; reflexivity.
  - intros s. destruct s as [e ms ld rc lg ac act rr sv ns rs tw sw uu ck].
    unfold_app. unfold recognition_stop, recognition_abort. cbn.
    repeat split; try (intros ->); split_cases; reflexivity.
Qed.

(** C10.  A backend result without text, or with the empty text, turns
    into the fixed fallback reply; this is what [generateTextResponse]
    returns when the request it sent is answered that way; whatever it
    returns is not the empty string; and so no assistant message the page
    ever holds has an empty text. *)
Theorem assistant_reply_is_worded :
  (forall result,
     responseText result = None \/ responseText result = Some "" ->
     reply_text result = NO_REPLY)
  /\ NO_REPLY <> ""
  /\ (forall backend currentMessage attachments history sv reply sv' req result,
        generateTextResponse backend currentMessage attachments history sv
        = (Ok reply, sv') ->
        calls sv' = calls sv ++ [SendMessage req] ->
        backend req = Ok result ->
        responseText result = None \/ responseText result = Some "" ->
        reply = NO_REPLY)
  /\ (forall backend currentMessage attachments history sv,
        exists reply sv',
          generateTextResponse backend currentMessage attachments history sv
          = (Ok reply, sv')
          /\ reply <> "")
  /\ (forall e evs m,
        m ∈ messages (run evs (mounted e)) -> role m = MODEL -> text m <> "").
Proof.
  split; [exact reply_text_fallback|]. split; [discriminate|]. split; [|split].
  - intros backend currentMessage attachments history sv reply sv' req result
           Hrun Hcalls Hback Hempty.
    destruct (generateTextResponse_cut backend currentMessage attachments history sv)
      as (call & sv1 & Hbegin & Hcut).
    destruct (generateTextResponse_begin_spec currentMessage attachments history sv)
      as (call' & sv1' & Hbegin' & _ & Hcall).
    rewrite Hbegin in Hbegin'. injection Hbegin' as <- <-.
    destruct call as [r|req0].
    + rewrite (Hcut (Throw (Error ""))) in Hrun by (intros ? [=]).
      injection Hrun as _ <-. destruct Hcall as [_ Hsame].
      rewrite Hsame in Hcalls. apply (f_equal length) in Hcalls.
      rewrite length_app in Hcalls. cbn in Hcalls. lia.
    + rewrite (Hcut (backend req0)) in Hrun by (intros ? [= <-]; reflexivity).
      injection Hrun as <- <-. destruct Hcall as (Hsent & _).
      rewrite Hsent in Hcalls. apply app_inj_tail in Hcalls as [_ [= ->]].
      cbn. rewrite Hback. apply reply_text_fallback, Hempty.
  - intros backend currentMessage attachments history sv.
    destruct (generateTextResponse_cut backend currentMessage attachments history sv)
      as (call & sv1 & Hbegin & Hcut).
    destruct (generateTextResponse_begin_spec currentMessage attachments history sv)
      as (call' & sv1' & Hbegin' & _ & Hcall).
    rewrite Hbegin in Hbegin'. injection Hbegin' as <- <-.
    destruct call as [r|req0].
    + exists r, sv1. split; [apply (Hcut (Throw (Error ""))); intros ? [=]|].
      destruct Hcall as [[-> | ->] _]; discriminate.
    + eexists _, sv1. split; [apply (Hcut (backend req0)); intros ? [= <-]; reflexivity|].
      apply generateTextResponse_end_nonempty. intros ? [=].
  - intros e evs m Hm.
    assert (Hs : all_worded (run evs (mounted e)))
      by (apply run_invariant; [apply step_all_worded|apply mounted_all_worded]).
    destruct Hs as [Hall _]. rewrite Forall_forall in Hall. exact (Hall m Hm).
Qed.


(** C2 as stated fails.  After one spoken exchange the reply is marked
    audible while its speech is still being synthesised, and no handle is
    held yet.  A send made then starts its request and leaves that message
    audible. *)
Lemma send_leaves_pending_speech_audible :
  let s := run Examples.awaiting_speech (mounted Examples.browser) in
  isAudioPlaying <$> messages s = [None; Some true]
  /\ activeAudioSourceRef s = None
  /\ isLoading s = false
  /\ let s' := JS.exec (step (Submit "next" [])) s in
     isAudioPlaying <$> messages s' = [None; Some true; None]
     /\ (message <$> last_chat_request (calls (service s'))) = Some [TextPart "next"]
     /\ ~ (forall m, m ∈ messages s' -> ~ speaking m).
Proof.
  cbn zeta. split; [vm_compute; reflexivity|].
  split; [vm_compute; reflexivity|]. split; [vm_compute; reflexivity|].
  split; [vm_compute; reflexivity|]. split; [vm_compute; reflexivity|].
  intros Hnone.
  assert (Hm : exists m, messages (JS.exec (step (Submit "next" []))
                           (run Examples.awaiting_speech (mounted Examples.browser))) !! 1
                         = Some m /\ speaking m).
  { eexists. split; [vm_compute; reflexivity|reflexivity]. }
  destruct Hm as (m & Hm & Hspeaking).
  exact (Hnone m (list_elem_of_lookup_2 _ _ _ Hm) Hspeaking).
Qed.

(** The amended C2 at work: the first reply is playing when "next" is sent. *)
Lemma send_interrupts_active_playback_witness :
  let s := run (Examples.awaiting_speech
                ++ [SpeechAnswer 0 (Examples.speech_answer "AAA=")])
               (mounted Examples.browser) in
  activeAudioSourceRef s = Some 0
  /\ let send := handleSendMessage_begin (messages s) "next" [] false in
     let s1 := JS.exec interrupt_playback s in
     JS.returns send s = true
     /\ JS.exec send s = JS.exec (request_reply (messages s) "next" [] false) s1
     /\ calls (service s1) = calls (service s)
     /\ (forall n, sources s1 !! 0 = Some n -> playState n <> Playing)
     /\ activeAudioSourceRef s1 = None
     /\ (forall m, m ∈ messages s1 -> isAudioPlaying m = Some false)
     /\ (forall m, m ∈ messages (JS.exec send s) -> ~ speaking m)
     /\ activeAudioSourceRef (JS.exec send s) = None
     /\ sources (JS.exec send s) = sources s1.
Proof.
  split; [vm_compute; reflexivity|].
  apply (send_interrupts_active_playback
           (run (Examples.awaiting_speech
                 ++ [SpeechAnswer 0 (Examples.speech_answer "AAA=")])
                (mounted Examples.browser))).
  vm_compute. reflexivity.
Defined.

(** C3 fails for a send that comes from speech capture.  After one typed
    exchange the page holds two messages; the transcript that follows is
    sent with an empty history, the one the recognition object saw when it
    was set up. *)
Theorem transcript_is_sent_without_history :
  let s := run Examples.typed_then_listening (mounted Examples.browser) in
  (text <$> messages s) = ["hi"; "hello"]
  /\ let s' := JS.exec (step (RecognitionResult 0 "again")) s in
     (message <$> last_chat_request (calls (service s'))) = Some [TextPart "again"]
     /\ (geminiService.history <$> last_chat_request (calls (service s'))) = Some []
     /\ to_content <$> slice_last 10 (messages s)
        = [ {| contentRole := "user"; parts := [TextPart "hi"] |};
            {| contentRole := "model"; parts := [TextPart "hello"] |} ].
Proof.
  cbn zeta. split; [vm_compute; reflexivity|].
  split; [vm_compute; reflexivity|]. split; vm_compute; reflexivity.
Qed.

(** C8 fails.  With two voice sends in flight, the second playback replaces
    the first; the [ended] event of the first then clears the handle of the
    second, which goes on playing unreferenced; the playback of a third
    voice send finds no handle to stop and starts on top of it.  This
    happens both when the first source was stopped by the second playback
    and when its buffer had just run out. *)
Theorem playbacks_overlap :
  (let s := run Examples.replaced_when_stopped (mounted Examples.browser) in
   playState <$> sources s = [Ended; Playing]
   /\ activeAudioSourceRef s = None
   /\ let s' := run Examples.third_voice s in
      playState <$> sources s' = [Ended; Playing; Playing]
      /\ length (playing_sources (sources s')) = 2)
  /\ (let s := run Examples.replaced_when_finished (mounted Examples.browser) in
      playState <$> sources s = [Ended; Playing]
      /\ activeAudioSourceRef s = None
      /\ let s' := run Examples.third_voice s in
         playState <$> sources s' = [Ended; Playing; Playing]
         /\ length (playing_sources (sources s')) = 2).
Proof.
  cbn zeta. repeat split; vm_compute; reflexivity.
Qed.

(** The theorem for C7 at work, on an answer with no candidates. *)
Lemma silent_synthesis_skips_playback_witness :
  no_audio_data Examples.silent_answer
  /\ forall s closedOver text answer,
       let s1 := JS.exec (handleSendMessage_begin closedOver text [] true) s in
       let s2 := JS.exec (step (TextAnswer (length (textWaits s)) answer)) s1 in
       let settle := step (SpeechAnswer (length (speechWaits s)) (Ok Examples.silent_answer)) in
       JS.returns settle s2 = true
       /\ (exists a, last (messages (JS.exec settle s2)) = Some a
                     /\ role a = MODEL /\ isAudioPlaying a = Some false)
       /\ sources (JS.exec settle s2) = sources s1
       /\ activeAudioSourceRef (JS.exec settle s2) = None.
Proof.
  split; [left; reflexivity|].
  apply (silent_synthesis_skips_playback Examples.silent_answer).
  left. reflexivity.
Defined.

(** ** What does hold of the history bound *)

Lemma slice_last_length {A} (n : nat) (xs : list A) :
  length (slice_last n xs) = min (length xs) n.
Proof. unfold slice_last. rewrite length_drop. lia. Qed.

Lemma slice_last_suffix {A} (n : nat) (xs : list A) :
  slice_last n xs `suffix_of` xs.
Proof. unfold slice_last. apply suffix_drop. Qed.


(** ** What does hold of the single handle *)

(** When the speech for a message arrives while [activeAudioSourceRef]
    holds the handle of a source, that source is stopped before the new one
    is created; the new source plays and its handle is the one held. *)
Lemma speech_replaces_held_source (s : State) (messageId : Id)
    (audioBuffer : AudioBuffer) (h : nat) :
  activeAudioSourceRef s = Some h ->
  h < length (sources s) ->
  audioContextRef s <> None ->
  let play := playResponseAudio_end messageId (Some audioBuffer) in
  let s' := JS.exec play s in
  JS.returns play s = true
  /\ length (sources s') = S (length (sources s))
  /\ activeAudioSourceRef s' = Some (length (sources s))
  /\ (playState <$> sources s' !! length (sources s)) = Some Playing
  /\ (forall n, sources s' !! h = Some n -> playState n <> Playing).
Proof.
  intros Hact Hh Hctx play s'.
  destruct (stop_source_spec h s) as (ns' & Hstop & Hlen & Hstopped & _).
  destruct (audioContextRef s) as [ctx|] eqn:Hc; [clear Hctx|contradiction].
  assert (Hplay : play s
                  = (Ok tt,
                     upd_activeAudioSourceRef (fun _ => Some (length ns'))
                       (upd_sources
                          (fun ns => ns ++ [ {| nodeBuffer := Some audioBuffer;
                                                connected := true;
                                                onended := Some (Some messageId);
                                                playState := Playing |} ])
                          (upd_sources (fun _ => ns') s)))).
  { unfold play, playResponseAudio_end. step_m. rewrite Hact, Hstop. cbn.
    rewrite Hc. reflexivity. }
  unfold JS.returns, s', JS.exec. rewrite Hplay. cbn.
  split; [reflexivity|]. split; [rewrite length_app, Hlen; cbn; lia|].
  split; [rewrite Hlen; reflexivity|]. split.
  - rewrite <- Hlen, list_lookup_middle by reflexivity. reflexivity.
  - intros n Hn. rewrite lookup_app_l in Hn by lia. exact (Hstopped n Hn).
Qed.

Lemma speech_replaces_held_source_witness :
  let s := run (Examples.two_voices) (mounted Examples.browser) in
  activeAudioSourceRef s = Some 0
  /\ (exists audioBuffer,
        generateSpeech_end (SpeechInFlight (speech_request "second reply"))
          Examples.context (Examples.speech_answer "AAA=") = Some audioBuffer
        /\ let play := playResponseAudio_end 3 (Some audioBuffer) in
           let s' := JS.exec play s in
           JS.returns play s = true
           /\ length (sources s') = S (length (sources s))
           /\ activeAudioSourceRef s' = Some (length (sources s))
           /\ (playState <$> sources s' !! length (sources s)) = Some Playing
           /\ (forall n, sources s' !! 0 = Some n -> playState n <> Playing)).
Proof.
  split; [vm_compute; reflexivity|].
  eexists. split; [vm_compute; reflexivity|].
  apply (speech_replaces_held_source
           (run (Examples.two_voices) (mounted Examples.browser))).
  - vm_compute. reflexivity.
  - vm_compute. lia.
  - vm_compute. discriminate.
Defined.

End Claims.

(* ================================================================== *)
(** * More about decoding and playback *)
(* ================================================================== *)

Module Decoding.
Import Terms.

(** ** [decodeAudioData] on any buffer *)

Lemma frameCount_floor (p nc : nat) :
  0 < nc ->
  to_unsigned_long (div_lengths p nc) = p / nc
  /\ forall i, i < p / nc -> i ∈ indices_below (div_lengths p nc).
Proof.
  intros Hnc. destruct nc as [|n]; [lia|].
  assert (Hden : Z.pos (Pos.of_nat (S n)) = Z.of_nat (S n)).
  { rewrite <- positive_nat_Z, Nat2Pos.id by lia. reflexivity. }
  assert (Hfloor : Qfloor (Z.of_nat p # Pos.of_nat (S n)) = Z.of_nat (p / S n)).
  { unfold Qfloor. rewrite Hden, Nat2Z.inj_div. reflexivity. }
  unfold div_lengths, to_unsigned_long, indices_below.
  rewrite Hfloor, Nat2Z.id. split; [reflexivity|].
  intros i Hi. apply elem_of_seq.
  pose proof (Qle_floor_ceiling (Z.of_nat p # Pos.of_nat (S n))) as Hle.
  rewrite <- Zle_Qle, Hfloor in Hle. lia.
Qed.

Lemma createBuffer_returns (ctx : AudioContext) (nc len : nat) (length : number) (rate : Q) :
  to_unsigned_long length = len ->
  1 <= nc -> 1 <= len -> supports ctx nc rate ->
  createBuffer ctx nc length rate
  = Ok {| numberOfChannels := nc; frames := len; sampleRate := rate;
          channels := replicate nc (replicate len (Num 0)) |}.
Proof.
  intros Hlen Hnc Hpos (Hmax & Hmin & Hmax'). unfold createBuffer. rewrite Hlen.
  replace (1 <=? nc) with true by (symmetry; apply Nat.leb_le; exact Hnc).
  replace (nc <=? maxChannels (limits ctx)) with true
    by (symmetry; apply Nat.leb_le; exact Hmax).
  replace (1 <=? len) with true by (symmetry; apply Nat.leb_le; exact Hpos).
  replace (Qle_bool (minRate (limits ctx)) rate) with true
    by (symmetry; apply Qle_bool_iff; exact Hmin).
  replace (Qle_bool rate (maxRate (limits ctx))) with true
    by (symmetry; apply Qle_bool_iff; exact Hmax').
  reflexivity.
Qed.

Lemma silent_buffer_shape (nc len : nat) (rate : Q) (ch i : nat) :
  is_Some (getChannelData
             {| numberOfChannels := nc; frames := len; sampleRate := rate;
                channels := replicate nc (replicate len (Num 0)) |} ch i)
  <-> ch < nc /\ i < len.
Proof.
  unfold getChannelData. cbn. split.
  - intros [v Hv].
    destruct (replicate nc (replicate len (Num 0)) !! ch) as [cd|] eqn:Hcd;
      [|discriminate].
    apply lookup_replicate in Hcd as [-> Hch]. cbn in Hv.
    apply lookup_replicate in Hv as [_ Hi]. split; assumption.
  - intros [Hch Hi]. rewrite lookup_replicate_2 by exact Hch. cbn.
    rewrite lookup_replicate_2 by exact Hi. eauto.
Qed.

(** The decoder reads the buffer behind its argument, two bytes a sample,
    and keeps the whole frames. *)
Lemma decodeAudioData_buffer (data : Uint8Array) (ctx : AudioContext) (rate : Q)
    (nc : nat) :
  Nat.even (length (buffer data)) = true ->
  1 <= nc -> nc <= length (buffer data) / 2 -> supports ctx nc rate ->
  exists b,
    audioUtils.decodeAudioData data ctx rate nc = Ok b
    /\ numberOfChannels b = nc
    /\ frames b = length (buffer data) / 2 / nc
    /\ sampleRate b = rate
    /\ (forall ch i, is_Some (getChannelData b ch i) <-> ch < nc /\ i < frames b)
    /\ forall ch i, ch < nc -> i < frames b ->
         getChannelData b ch i
         = Some (audioUtils.pcm_sample (pcm_value (buffer data) (i * nc + ch))).
Proof.
  intros Heven Hnc Hfits Hsup.
  set (p := length (buffer data) / 2) in *.
  assert (Hpairs : length (int16_pairs (buffer data)) = p)
    by apply int16_pairs_length.
  assert (Hframes : 1 <= p / nc).
  { apply Nat.div_le_lower_bound; lia. }
  destruct (frameCount_floor p nc Hnc) as [Hlong Hidx].
  unfold audioUtils.decodeAudioData, Int16Array_of_buffer. rewrite Heven.
  cbn [mbind Outcome_bind]. rewrite Hpairs.
  rewrite (createBuffer_returns ctx nc (p / nc) _ rate Hlong Hnc Hframes Hsup).
  cbn [mbind Outcome_bind mret Outcome_ret].
  set (b0 := {| numberOfChannels := nc; frames := p / nc; sampleRate := rate;
                channels := replicate nc (replicate (p / nc) (Num 0)) |}).
  pose proof (outer_loop
                (fun ch i => audioUtils.pcm_sample
                               (int16_pairs (buffer data) !! (i * nc + ch)))
                (indices_below (div_lengths p nc)) (seq 0 nc) b0) as Hloop.
  cbn beta zeta in Hloop.
  destruct Hloop as (_ & Hfilled & Hshape & Hn & Hf & Hr).
  eexists. split; [reflexivity|].
  rewrite Hn, Hf, Hr.
  split; [reflexivity|]. split; [reflexivity|]. split; [reflexivity|]. split.
  - intros ch i. rewrite Hshape. apply silent_buffer_shape.
  - intros ch i Hch Hi. cbn [frames b0] in Hi.
    rewrite Hfilled.
    + rewrite int16_pairs_lookup. reflexivity.
    + apply elem_of_seq. lia.
    + apply Hidx. exact Hi.
    + apply silent_buffer_shape. split; assumption.
Qed.

Lemma whole_frame_sample (bs : list byte) (nc ch i : nat) :
  ch < nc -> i < length bs / 2 / nc ->
  exists v, pcm_value bs (i * nc + ch) = Some v.
Proof.
  intros Hch Hi.
  assert (Hk : i * nc + ch < length (int16_pairs bs)).
  { rewrite int16_pairs_length.
    assert (Hle : (i + 1) * nc <= length bs / 2 / nc * nc)
      by (apply Nat.mul_le_mono_r; lia).
    pose proof (Nat.Div0.mul_div_le (length bs / 2) nc). lia. }
  destruct (lookup_lt_is_Some_2 _ _ Hk) as [v Hv].
  exists v. rewrite <- int16_pairs_lookup. exact Hv.
Qed.

(** Whatever window the [Uint8Array] is, the buffer behind it is what gets
    decoded.  When that buffer holds an even number of bytes and at least
    one frame, for a channel count and rate the context accepts, the result
    has [numChannels] channels of [floor(samples / numChannels)] frames and
    nothing else; sample [i] of channel [ch] is the 16-bit value at
    position [i * numChannels + ch] of the buffer over 32768, in [-1, 1);
    the samples of a trailing partial frame are dropped. *)
Theorem decodeAudioData_whole_frames
    (data : Uint8Array) (ctx : AudioContext) (rate : Q) (nc : nat) :
  Nat.Even (length (buffer data)) ->
  1 <= nc <= length (buffer data) / 2 ->
  supports ctx nc rate ->
  exists b,
    audioUtils.decodeAudioData data ctx rate nc = Ok b
    /\ numberOfChannels b = nc
    /\ frames b = length (buffer data) / 2 / nc
    /\ sampleRate b = rate
    /\ (forall ch i, is_Some (getChannelData b ch i) <-> ch < nc /\ i < frames b)
    /\ forall ch i, ch < nc -> i < frames b ->
         exists v,
           pcm_value (buffer data) (i * nc + ch) = Some v
           /\ getChannelData b ch i = Some (Num (v # 32768))
           /\ (-1 <= v # 32768)%Q /\ (v # 32768 < 1)%Q.
Proof.
  intros Heven [Hnc Hfits] Hsup. apply Nat.even_spec in Heven.
  destruct (decodeAudioData_buffer data ctx rate nc Heven Hnc Hfits Hsup)
    as (b & Hb & Hn & Hf & Hr & Hshape & Hsamples).
  exists b. repeat (split; [assumption|]).
  intros ch i Hch Hi.
  destruct (whole_frame_sample (buffer data) nc ch i Hch) as [v Hv];
    [rewrite <- Hf; exact Hi|].
  exists v. split; [exact Hv|].
  rewrite (Hsamples ch i Hch Hi), Hv. split; [reflexivity|].
  apply pcm_sample_exact, (pcm_value_range (buffer data) (i * nc + ch)), Hv.
Qed.

(** Three samples for two channels: one frame, the third sample dropped. *)
Lemma decodeAudioData_whole_frames_witness :
  exists b,
    audioUtils.decodeAudioData
      (Uint8Array_of [Byte.x01; Byte.x00; Byte.x02; Byte.x00; Byte.x03; Byte.x00])
      Examples.context 24000 2 = Ok b
    /\ numberOfChannels b = 2
    /\ frames b = 6 / 2 / 2
    /\ sampleRate b = 24000%Q
    /\ (forall ch i, is_Some (getChannelData b ch i) <-> ch < 2 /\ i < frames b)
    /\ forall ch i, ch < 2 -> i < frames b ->
         exists v,
           pcm_value [Byte.x01; Byte.x00; Byte.x02; Byte.x00; Byte.x03; Byte.x00]
             (i * 2 + ch) = Some v
           /\ getChannelData b ch i = Some (Num (v # 32768))
           /\ (-1 <= v # 32768)%Q /\ (v # 32768 < 1)%Q.
Proof.
  apply (decodeAudioData_whole_frames
           (Uint8Array_of [Byte.x01; Byte.x00; Byte.x02; Byte.x00; Byte.x03; Byte.x00])
           Examples.context 24000 2).
  - exists 3. reflexivity.
  - simpl. lia.
  - unfold supports, Qle. simpl. lia.
Defined.

Lemma decodeAudioData_ok_inv
    (data : Uint8Array) (ctx : AudioContext) (rate : Q) (nc : nat) :
  JS.is_Ok (audioUtils.decodeAudioData data ctx rate nc) = true ->
  Nat.Even (length (buffer data))
  /\ 1 <= nc <= length (buffer data) / 2
  /\ supports ctx nc rate.
Proof.
  unfold audioUtils.decodeAudioData, Int16Array_of_buffer.
  destruct (Nat.even (length (buffer data))) eqn:Heven; [|discriminate].
  cbn [mbind Outcome_bind]. rewrite int16_pairs_length.
  unfold createBuffer.
  destruct (1 <=? nc) eqn:Hnc; [|discriminate].
  apply Nat.leb_le in Hnc.
  destruct (frameCount_floor (length (buffer data) / 2) nc Hnc) as [-> _].
  destruct (nc <=? maxChannels (limits ctx)) eqn:Hmax; [|discriminate].
  destruct (1 <=? length (buffer data) / 2 / nc) eqn:Hlen; [|discriminate].
  destruct (Qle_bool (minRate (limits ctx)) rate) eqn:Hmin; [|discriminate].
  destruct (Qle_bool rate (maxRate (limits ctx))) eqn:Hmax'; [|discriminate].
  intros _. apply Nat.even_spec in Heven.
  apply Nat.leb_le in Hmax, Hlen. apply Qle_bool_iff in Hmin, Hmax'.
  split; [exact Heven|]. split; [|split; [exact Hmax|split; assumption]].
  split; [exact Hnc|].
  destruct (Nat.lt_ge_cases (length (buffer data) / 2) nc) as [Hsmall|Hfits];
    [|exact Hfits].
  rewrite (Nat.div_small _ _ Hsmall) in Hlen. lia.
Qed.

(** When the decoder returns and when it raises.  It returns exactly when
    the buffer behind the data holds an even number of bytes and at least
    one whole frame, for a channel count of at least one and a count and
    rate the context accepts.  On an odd number of bytes the 16-bit view
    raises a [RangeError]; in every other failing case [createBuffer] raises
    [NotSupportedError]: no channels, fewer samples than channels (the
    empty buffer included), or a count or rate out of range. *)
Theorem decodeAudioData_returns_iff
    (data : Uint8Array) (ctx : AudioContext) (rate : Q) (nc : nat) :
  (JS.is_Ok (audioUtils.decodeAudioData data ctx rate nc) = true
   <-> Nat.Even (length (buffer data))
       /\ 1 <= nc <= length (buffer data) / 2
       /\ supports ctx nc rate)
  /\ (Nat.Odd (length (buffer data)) ->
      exists m, audioUtils.decodeAudioData data ctx rate nc = Throw (RangeError m))
  /\ (Nat.Even (length (buffer data)) ->
      JS.is_Ok (audioUtils.decodeAudioData data ctx rate nc) = false ->
      exists m, audioUtils.decodeAudioData data ctx rate nc
                = Throw (DOMException "NotSupportedError" m)).
Proof.
  split; [split|split].
  - apply decodeAudioData_ok_inv.
  - intros (Heven & [Hnc Hfits] & Hsup). apply Nat.even_spec in Heven.
    destruct (decodeAudioData_buffer data ctx rate nc Heven Hnc Hfits Hsup)
      as (b & -> & _). reflexivity.
  - intros Hodd. unfold audioUtils.decodeAudioData, Int16Array_of_buffer.
    replace (Nat.even (length (buffer data))) with false.
    + eexists. reflexivity.
    + symmetry. rewrite <- Nat.negb_odd. apply Nat.odd_spec in Hodd.
      rewrite Hodd. reflexivity.
  - intros Heven. apply Nat.even_spec in Heven.
    unfold audioUtils.decodeAudioData, Int16Array_of_buffer. rewrite Heven.
    cbn [mbind Outcome_bind]. unfold createBuffer.
    destruct (_ && _ && _ && _ && _)%bool; [discriminate|].
    intros _. eexists. reflexivity.
Qed.

(** ** The completion callback *)

Lemma playback_step_quiet {C} (l : AudioLimits) (p : audioUtils.Playback C)
    (ev : audioUtils.PlaybackEvent) :
  ev <> audioUtils.DispatchEnded ->
  audioUtils.completions (audioUtils.playback_step l p ev) = audioUtils.completions p.
Proof.
  intros Hev. destruct ev; cbn; [|reflexivity|contradiction].
  destruct (audioUtils.stop l (audioUtils.source p)); reflexivity.
Qed.

Lemma playback_quiet {C} (l : AudioLimits) (evs : list audioUtils.PlaybackEvent)
    (p : audioUtils.Playback C) :
  audioUtils.DispatchEnded ∉ evs ->
  audioUtils.completions (foldl (audioUtils.playback_step l) p evs)
  = audioUtils.completions p.
Proof.
  revert p. induction evs as [|ev evs IH]; intros p Hnot; cbn; [reflexivity|].
  rewrite IH by (intros Hin; apply Hnot; right; exact Hin).
  apply playback_step_quiet. intros ->. apply Hnot. left.
Qed.

Lemma playback_unobserved {C} (l : AudioLimits) (evs : list audioUtils.PlaybackEvent)
    (p : audioUtils.Playback C) :
  unobserved p -> unobserved (foldl (audioUtils.playback_step l) p evs).
Proof.
  revert p. induction evs as [|ev evs IH]; intros p Hp; cbn; [exact Hp|].
  apply IH. clear IH. destruct p as [[buf conn h st] done errs].
  unfold unobserved in *. cbn in Hp. destruct Hp as (-> & Hst & -> & ->).
  destruct ev; cbn;
    unfold audioUtils.stop, source_stop, try_catch, buffer_runs_out,
      dispatch_ended, set_playState; cbn;
    destruct st; try contradiction; try destruct (stopThrowsWhenIdle l); cbn;
    repeat split; discriminate.
Qed.

(** The callback given to [playAudioBuffer] runs when the [ended] event of
    the source is dispatched, and the engine queues that event when the
    source stops playing for either reason.  So it is not called before an
    [ended] event is dispatched; and after a [stop()] of the handle and the
    dispatch of the event, whatever came before, it has been called exactly
    once: a forced stop completes like a natural end.  Without a callback
    nothing is ever called, and [stop()] still never raises. *)
Theorem forced_stop_still_completes {C} (l : AudioLimits) (cb : C)
    (ctx : AudioContext) (buffer : AudioBuffer) :
  (exists source,
     audioUtils.playAudioBuffer ctx buffer (Some cb) = Ok source
     /\ (forall evs, audioUtils.DispatchEnded ∉ evs ->
           audioUtils.completions (audioUtils.playback_run l evs source) = [])
     /\ forall evs,
          let p := audioUtils.playback_run l
                     (evs ++ [audioUtils.CallStop; audioUtils.DispatchEnded]) source in
          audioUtils.completions p = [cb]
          /\ playState (audioUtils.source p) = Ended
          /\ audioUtils.stopErrors p = [])
  /\ (exists source,
        audioUtils.playAudioBuffer ctx buffer (@None C) = Ok source
        /\ forall evs,
             let p := audioUtils.playback_run l evs source in
             audioUtils.completions p = [] /\ audioUtils.stopErrors p = []).
Proof.
  split.
  - eexists. split; [apply playAudioBuffer_starts|].
    set (n := {| nodeBuffer := Some buffer; connected := true;
                 onended := Some (Some cb); playState := Playing |}).
    split.
    + intros evs Hnot. unfold audioUtils.playback_run.
      rewrite playback_quiet by exact Hnot. reflexivity.
    + intros evs. cbn zeta. unfold audioUtils.playback_run. rewrite foldl_app.
      assert (Hstart : settled cb {| audioUtils.source := n;
                                     audioUtils.completions := [];
                                     audioUtils.stopErrors := [] |}).
      { unfold settled. cbn.
        split; [reflexivity|split; [reflexivity|right; split; [left|]; reflexivity]]. }
      pose proof (playback_settled l cb evs _ Hstart) as Hp.
      destruct (foldl (audioUtils.playback_step l) _ evs) as [[buf conn h st] done errs].
      unfold settled in Hp. cbn in Hp. destruct Hp as (-> & -> & Hst).
      cbn [foldl audioUtils.playback_step audioUtils.source
           audioUtils.completions audioUtils.stopErrors].
      unfold audioUtils.stop, source_stop, try_catch. cbn [playState].
      destruct Hst as [[-> ->]|[[->| ->] ->]];
        try destruct (stopThrowsWhenIdle l); cbn; repeat split; reflexivity.
  - eexists. split; [apply playAudioBuffer_starts|].
    intros evs. cbn zeta. unfold audioUtils.playback_run.
    match goal with |- context [foldl _ ?p0 evs] =>
      assert (Hstart : unobserved p0)
        by (unfold unobserved; cbn; repeat split; discriminate);
      pose proof (playback_unobserved l evs p0 Hstart) as (_ & _ & Hdone & Herr)
    end.
    split; assumption.
Qed.

(** ** [decodeBase64] and the encoding it undoes *)

Ltac div_lia := zify; Z.to_euclidean_division_equations; lia.

Lemma bytes_ind3 (P : list byte -> Prop) :
  P [] -> (forall a, P [a]) -> (forall a b, P [a; b]) ->
  (forall a b c rest, P rest -> P (a :: b :: c :: rest)) ->
  forall bs, P bs.
Proof.
  intros H0 H1 H2 H3 bs.
  induction bs as [bs IH] using (induction_ltof1 _ (@length byte)).
  destruct bs as [|a [|b [|c rest]]]; auto.
  apply H3, IH. unfold ltof. cbn. lia.
Qed.

Lemma byte_of_to_N (a : byte) (n : N) :
  (n mod 256 = Byte.to_N a)%N -> byte_of_N n = a.
Proof. intros H. unfold byte_of_N. rewrite H, Byte.of_to_N. reflexivity. Qed.

Lemma decode_sextets_sextets (bs : list byte) :
  decode_sextets (Base64.sextets bs) = bs.
Proof.
  induction bs as [|a|a b|a b c rest IH] using bytes_ind3.
  - reflexivity.
  - pose proof (Byte.to_N_bounded a). cbn [Base64.sextets decode_sextets].
    f_equal. apply byte_of_to_N. div_lia.
  - pose proof (Byte.to_N_bounded a). pose proof (Byte.to_N_bounded b).
    cbn [Base64.sextets decode_sextets].
    f_equal; [|f_equal]; apply byte_of_to_N; div_lia.
  - pose proof (Byte.to_N_bounded a). pose proof (Byte.to_N_bounded b).
    pose proof (Byte.to_N_bounded c).
    cbn [Base64.sextets decode_sextets]. rewrite IH.
    f_equal; [|f_equal; [|f_equal]]; apply byte_of_to_N; div_lia.
Qed.

Lemma sextets_bound (bs : list byte) :
  Forall (fun n => (n < 64)%N) (Base64.sextets bs).
Proof.
  induction bs as [|a|a b|a b c rest IH] using bytes_ind3.
  - constructor.
  - pose proof (Byte.to_N_bounded a).
    cbn [Base64.sextets]. repeat constructor; div_lia.
  - pose proof (Byte.to_N_bounded a). pose proof (Byte.to_N_bounded b).
    cbn [Base64.sextets]. repeat constructor; div_lia.
  - pose proof (Byte.to_N_bounded a). pose proof (Byte.to_N_bounded b).
    pose proof (Byte.to_N_bounded c).
    cbn [Base64.sextets]. repeat (constructor; [div_lia|]). exact IH.
Qed.

Lemma alphabet_reads_back (n : N) :
  (n < 64)%N ->
  sextet (Base64.alphabet n) = Some n
  /\ is_ascii_whitespace (Base64.alphabet n) = false
  /\ Base64.alphabet n <> "="%char.
Proof.
  intros Hn.
  assert (Hall : forallb (fun k => reads_back (N.of_nat k)) (seq 0 64) = true)
    by (vm_compute; reflexivity).
  rewrite forallb_forall in Hall.
  specialize (Hall (N.to_nat n)). rewrite N2Nat.id in Hall.
  assert (Hin : In (N.to_nat n) (seq 0 64)) by (apply in_seq; lia).
  specialize (Hall Hin). unfold reads_back in Hall.
  apply andb_prop in Hall as [Hall Heq]. apply andb_prop in Hall as [Hs Hw].
  destruct (sextet (Base64.alphabet n)) as [m|]; [|discriminate].
  apply N.eqb_eq in Hs as ->. split; [reflexivity|]. split.
  - destruct (is_ascii_whitespace _); [discriminate|reflexivity].
  - intros E. rewrite E in Heq. discriminate.
Qed.

Lemma body_chars (bs : list byte) :
  Forall (fun c => is_ascii_whitespace c = false /\ c <> "="%char)
         (Base64.alphabet <$> Base64.sextets bs)
  /\ mapM sextet (Base64.alphabet <$> Base64.sextets bs) = Some (Base64.sextets bs).
Proof.
  pose proof (sextets_bound bs) as Hb.
  induction Hb as [|n ns Hn Hns [IHc IHm]]; [split; [constructor|reflexivity]|].
  destruct (alphabet_reads_back n Hn) as (Hs & Hw & He). split.
  - constructor; [split; assumption|exact IHc].
  - cbn [fmap list_fmap mapM]. rewrite Hs. cbn. fold (@fmap list _ _ _ Base64.alphabet ns).
    rewrite IHm. reflexivity.
Qed.

Lemma sextets_length (bs : list byte) :
  length (Base64.sextets bs) + length (Base64.padding bs) = 4 * ((length bs + 2) / 3)
  /\ length (Base64.sextets bs) mod 4 <> 1
  /\ (Base64.padding bs <> [] -> Base64.sextets bs <> []).
Proof.
  induction bs as [|a|a b|a b c rest (IHl & IHm & IHp)] using bytes_ind3;
    try (split; [reflexivity|split; [cbn; discriminate|cbn; auto; discriminate]]).
  assert (Hpad : Base64.padding (a :: b :: c :: rest) = Base64.padding rest).
  { unfold Base64.padding. cbn [length].
    replace (S (S (S (length rest)))) with (length rest + 1 * 3) by lia.
    rewrite Nat.Div0.mod_add. reflexivity. }
  rewrite Hpad. cbn [Base64.sextets length].
  replace (S (S (S (length rest))) + 2) with (length rest + 2 + 1 * 3) by lia.
  rewrite Nat.div_add by lia.
  split; [lia|]. split; [|discriminate].
  replace (S (S (S (S (length (Base64.sextets rest))))))
    with (length (Base64.sextets rest) + 1 * 4) by lia.
  rewrite Nat.Div0.mod_add. exact IHm.
Qed.

Lemma not_padding (x : ascii) {A} (r : list ascii) (two one : list ascii -> A) (other : A) :
  x <> "="%char ->
  match x :: r with
  | "="%char :: "="%char :: r' => two r'
  | "="%char :: r' => one r'
  | _ => other
  end = other.
Proof.
  intros Hx. destruct x as [[] [] [] [] [] [] [] []]; try reflexivity.
  contradiction.
Qed.

Lemma strip_padding_encoded (bs : list byte) :
  strip_padding ((Base64.alphabet <$> Base64.sextets bs) ++ Base64.padding bs)
  = Base64.alphabet <$> Base64.sextets bs.
Proof.
  destruct (sextets_length bs) as (Hlen & _ & Hpad).
  destruct (body_chars bs) as [Hchars _].
  set (body := Base64.alphabet <$> Base64.sextets bs) in *.
  assert (Hlast : forall x r, reverse body = x :: r -> x <> "="%char).
  { intros x r Hr. rewrite Forall_forall in Hchars.
    apply (Hchars x). apply elem_of_reverse. rewrite Hr. left. }
  assert (Hbody : Base64.padding bs <> [] -> exists x r, reverse body = x :: r).
  { intros Hne. specialize (Hpad Hne).
    destruct (reverse body) as [|x r] eqn:Hr; [|eauto].
    apply (f_equal length) in Hr. rewrite length_reverse in Hr.
    unfold body in Hr. rewrite length_fmap in Hr.
    destruct (Base64.sextets bs); [contradiction|discriminate]. }
  unfold strip_padding. rewrite length_app. unfold body at 1. rewrite length_fmap, Hlen.
  replace (4 * ((length bs + 2) / 3)) with (0 + ((length bs + 2) / 3) * 4) by lia.
  rewrite Nat.Div0.mod_add. cbn [Nat.modulo Nat.eqb].
  rewrite reverse_app. unfold Base64.padding in *.
  destruct (length bs mod 3) as [|[|[|k]]]; cbn [reverse rev_append app].
  - rewrite app_nil_r. rewrite ?app_nil_r in *.
    destruct (reverse body) as [|x r] eqn:Hr; [reflexivity|].
    apply not_padding. exact (Hlast x r eq_refl).
  - change (reverse ["="%char; "="%char]) with ["="%char; "="%char].
    cbn [app]. apply reverse_involutive.
  - change (reverse ["="%char]) with ["="%char]. cbn [app].
    destruct (Hbody ltac:(discriminate)) as (x & r & Hr). rewrite Hr.
    pose proof (Hlast x r Hr) as Hx.
    transitivity (reverse (x :: r)); [|rewrite <- Hr; apply reverse_involutive].
    destruct x as [[] [] [] [] [] [] [] []]; try reflexivity. contradiction.
  - rewrite app_nil_r. rewrite ?app_nil_r in *.
    destruct (reverse body) as [|x r] eqn:Hr; [reflexivity|].
    apply not_padding. exact (Hlast x r eq_refl).
Qed.

(** [atob] reads the encoding of a byte sequence back as that sequence. *)
Lemma atob_encode (bs : list byte) : atob (Base64.encode bs) = Ok bs.
Proof.
  unfold atob, Base64.encode. rewrite list_ascii_of_string_of_list_ascii.
  destruct (body_chars bs) as [Hchars Hmap].
  destruct (sextets_length bs) as (_ & Hmod & _).
  assert (Hfilter : forall cs : list ascii,
            Forall (fun c => is_ascii_whitespace c = false) cs ->
            filter (fun c => is_ascii_whitespace c = false) cs = cs).
  { induction 1 as [|c cs Hc Hcs IH]; [reflexivity|].
    rewrite filter_cons_True by exact Hc. rewrite IH. reflexivity. }
  rewrite Hfilter.
  2:{ apply Forall_app. split.
      - eapply Forall_impl; [exact Hchars|]. intros c [Hc _]. exact Hc.
      - unfold Base64.padding. destruct (length bs mod 3) as [|[|[|k]]];
          repeat constructor. }
  rewrite strip_padding_encoded, length_fmap.
  destruct (length (Base64.sextets bs) mod 4 =? 1) eqn:H1;
    [apply Nat.eqb_eq in H1; contradiction|].
  rewrite Hmap, decode_sextets_sextets. reflexivity.
Qed.

Lemma decodeBase64_value (base64 : string) (bs : list byte) :
  atob base64 = Ok bs -> audioUtils.decodeBase64 base64 = Ok (Uint8Array_of bs).
Proof.
  intros Hbs. unfold audioUtils.decodeBase64. rewrite Hbs.
  cbn [mbind Outcome_bind mret Outcome_ret]. unfold Uint8Array_new.
  pose proof (fill_bytes bs 0 [] eq_refl) as Hfill. cbn [app] in Hfill.
  rewrite Hfill. reflexivity.
Qed.

(** Round trip.  Whatever the bytes, [decodeBase64] of their base64
    encoding returns an array that spans its buffer and shows exactly those
    bytes. *)
Theorem decodeBase64_inverts_encoding (bs : list byte) :
  audioUtils.decodeBase64 (Base64.encode bs) = Ok (Uint8Array_of bs)
  /\ elements (Uint8Array_of bs) = bs
  /\ spans_buffer (Uint8Array_of bs).
Proof.
  split; [apply decodeBase64_value, atob_encode|].
  assert (Hspan : spans_buffer (Uint8Array_of bs)) by (split; reflexivity).
  split; [apply (elements_spans _ Hspan)|exact Hspan].
Qed.

Lemma one_padding (z : ascii) {A} (r : list ascii) (two one : list ascii -> A) (other : A) :
  z <> "="%char ->
  match "="%char :: z :: r with
  | "="%char :: "="%char :: r' => two r'
  | "="%char :: r' => one r'
  | _ => other
  end = one (z :: r).
Proof.
  intros Hz. destruct z as [[] [] [] [] [] [] [] []]; try reflexivity.
  contradiction.
Qed.

Lemma strip_padding_keeps (cs : list ascii) (c : ascii) :
  c ∈ cs -> c <> "="%char -> c ∈ strip_padding cs.
Proof.
  intros Hin Hc. unfold strip_padding.
  destruct (length cs mod 4 =? 0); [|exact Hin].
  apply elem_of_reverse in Hin.
  destruct (reverse cs) as [|y r] eqn:Hr; [inversion Hin|].
  assert (Hback : c ∈ cs) by (apply elem_of_reverse; rewrite Hr; exact Hin).
  destruct (ascii_dec y "="%char) as [->|Hy]; [|rewrite not_padding by exact Hy; exact Hback].
  apply elem_of_cons in Hin as [->|Hin]; [contradiction|].
  destruct r as [|z r'].
  - inversion Hin.
  - destruct (ascii_dec z "="%char) as [->|Hz].
    + apply elem_of_cons in Hin as [->|Hin]; [contradiction|].
      apply elem_of_reverse. exact Hin.
    + rewrite (one_padding z r' (fun r => reverse r) (fun r => reverse r) cs Hz).
      apply elem_of_reverse. exact Hin.
Qed.

(** A character that is neither white space, nor [=], nor of the standard
    alphabet (the [-] and [_] of the URL-safe variant, for one) makes
    [decodeBase64] raise [InvalidCharacterError], wherever it stands. *)
Theorem decodeBase64_rejects (base64 : string) (c : ascii) :
  c ∈ list_ascii_of_string base64 ->
  is_ascii_whitespace c = false ->
  c <> "="%char ->
  sextet c = None ->
  exists m,
    audioUtils.decodeBase64 base64 = Throw (DOMException "InvalidCharacterError" m).
Proof.
  intros Hin Hw Heq Hs. unfold audioUtils.decodeBase64, atob.
  set (cs := filter _ _).
  assert (Hcs : c ∈ strip_padding cs).
  { apply strip_padding_keeps; [|exact Heq].
    apply list_elem_of_filter. split; assumption. }
  destruct (length (strip_padding cs) mod 4 =? 1); [eexists; reflexivity|].
  rewrite (mapM_None_2 sextet (strip_padding cs)).
  - eexists. reflexivity.
  - apply Exists_exists. exists c. split; assumption.
Qed.

Lemma decodeBase64_rejects_witness :
  exists m,
    audioUtils.decodeBase64 "AQ-D" = Throw (DOMException "InvalidCharacterError" m).
Proof.
  apply (decodeBase64_rejects "AQ-D" "-"%char).
  - simpl. do 2 right. left.
  - reflexivity.
  - discriminate.
  - reflexivity.
Defined.

End Decoding.

(* ================================================================== *)
(** * More about the requests *)
(* ================================================================== *)

Module Requests.
Import Terms Decoding.

(** ** The client *)

(** [getAiClient] builds a client at most once.  When it returns, a second
    call returns the same client and changes nothing; a client built from
    an empty cache carries the configured credential, which is not empty; a
    cached client is returned as it is.  When it raises, it raises
    [API_KEY_MISSING], has changed nothing, and no credential is
    configured: the failure is not remembered, each call checks again. *)
Theorem getAiClient_builds_one_client (sv : Service) :
  match getAiClient sv with
  | (Ok ai, sv1) =>
      getAiClient sv1 = (Ok ai, sv1)
      /\ aiInstance sv1 = Some ai
      /\ API_KEY sv1 = API_KEY sv
      /\ calls sv1 = calls sv
      /\ (aiInstance sv = None -> apiKey ai = API_KEY sv /\ API_KEY sv <> "")
      /\ (forall cached, aiInstance sv = Some cached -> ai = cached /\ sv1 = sv)
  | (Throw e, sv1) =>
      e = Error "API_KEY_MISSING"
      /\ sv1 = sv
      /\ aiInstance sv = None
      /\ API_KEY sv = ""
      /\ getAiClient sv1 = (Throw e, sv1)
  end.
Proof.
  destruct sv as [key [cached|] cs].
  - cbn. split; [reflexivity|]. split; [reflexivity|]. split; [reflexivity|].
    split; [reflexivity|]. split; [discriminate|].
    intros c [= <-]. split; reflexivity.
  - unfold getAiClient. step_m. cbn.
    destruct (truthy key) eqn:Hkey; cbn.
    + apply truthy_nonempty in Hkey.
      split; [reflexivity|]. split; [reflexivity|]. split; [reflexivity|].
      split; [reflexivity|]. split; [intros _; split; [reflexivity|exact Hkey]|].
      intros c [=].
    + assert (Hempty : key = "").
      { destruct (String.eqb_spec key "") as [E|E]; [exact E|].
        apply truthy_nonempty in E. congruence. }
      subst key. repeat split.
Qed.

(** ** Attachments *)

Lemma comma_free_app (a b : string) :
  comma_free (a +:+ b) <-> comma_free a /\ comma_free b.
Proof.
  unfold comma_free. induction a as [|c a IH]; cbn.
  - split; [intros H; split; [constructor|exact H]|intros [_ H]; exact H].
  - split.
    + intros H. apply Forall_cons in H as [Hc H]. apply IH in H as [Ha Hb].
      split; [constructor; assumption|exact Hb].
    + intros [H Hb]. apply Forall_cons in H as [Hc Ha].
      constructor; [exact Hc|]. apply IH. split; assumption.
Qed.

Lemma split_commas_free (s : string) : comma_free s -> split_commas s = [s].
Proof.
  unfold comma_free. induction s as [|c s IH]; [reflexivity|].
  intros H. cbn [list_ascii_of_string] in H. apply Forall_cons in H as [Hc Hs].
  cbn [split_commas].
  destruct (Ascii.eqb_spec c ","%char) as [E|_]; [contradiction|].
  rewrite (IH Hs). reflexivity.
Qed.

Lemma split_commas_append (h rest : string) :
  comma_free h ->
  split_commas (h +:+ String ","%char rest) = h :: split_commas rest.
Proof.
  unfold comma_free. induction h as [|c h IH]; [reflexivity|].
  intros H. cbn [list_ascii_of_string] in H. apply Forall_cons in H as [Hc Hs].
  change (String c h +:+ String ","%char rest)
    with (String c (h +:+ String ","%char rest)).
  cbn [split_commas].
  destruct (Ascii.eqb_spec c ","%char) as [E|_]; [contradiction|].
  rewrite (IH Hs). reflexivity.
Qed.

Lemma encode_comma_free (bs : list byte) : comma_free (Base64.encode bs).
Proof.
  unfold comma_free, Base64.encode. rewrite list_ascii_of_string_of_list_ascii.
  apply Forall_app. split.
  - apply Forall_fmap. eapply Forall_impl; [apply sextets_bound|].
    intros n Hn. cbn. destruct (alphabet_reads_back n Hn) as (Hs & _).
    intros E. rewrite E in Hs. discriminate Hs.
  - unfold Base64.padding. destruct (length bs mod 3) as [|[|[|k]]];
      repeat constructor; discriminate.
Qed.

Lemma append_assoc (a b c : string) : (a +:+ b) +:+ c = a +:+ (b +:+ c).
Proof.
  induction a as [|x a IH]; [reflexivity|].
  change (String x (a +:+ b +:+ c)) with (String x a +:+ (b +:+ c)) in *.
  change ((String x a +:+ b) +:+ c) with (String x ((a +:+ b) +:+ c)).
  change (String x a +:+ (b +:+ c)) with (String x (a +:+ (b +:+ c))).
  rewrite IH. reflexivity.
Qed.

Lemma data_url_split (mimeType : string) (bs : list byte) :
  data_url mimeType bs
  = ("data:" +:+ mimeType +:+ ";base64") +:+ String ","%char (Base64.encode bs).
Proof.
  unfold data_url. rewrite !append_assoc. reflexivity.
Qed.

(** What [fileToGenerativePart] makes of a file.  When the reader fails,
    the promise is rejected with the reader's event.  When the reader gives
    the data URL of the file's bytes, the part carries those bytes in
    base64, which decode back to them, and the file's type.  When the
    reader's text holds no comma (some engines give a bare [data:] for an
    empty file), the part is made all the same, without data. *)
Theorem fileToGenerativePart_carries_file (f : File) :
  (dataURL f = None -> fileToGenerativePart f = Throw (EventObj "ProgressEvent"))
  /\ (forall bs,
        comma_free (fileType f) ->
        dataURL f = Some (data_url (fileType f) bs) ->
        fileToGenerativePart f
        = Ok (InlineDataPart (Some (Base64.encode bs)) (fileType f))
        /\ atob (Base64.encode bs) = Ok bs)
  /\ (forall url,
        dataURL f = Some url -> comma_free url ->
        fileToGenerativePart f = Ok (InlineDataPart None (fileType f))).
Proof.
  unfold fileToGenerativePart. split; [|split].
  - intros ->. reflexivity.
  - intros bs Htype ->. split; [|apply atob_encode].
    rewrite data_url_split, split_commas_append.
    + rewrite (split_commas_free _ (encode_comma_free bs)). reflexivity.
    + apply comma_free_app. split; [repeat constructor; discriminate|].
      apply comma_free_app. split; [exact Htype|repeat constructor; discriminate].
  - intros url -> Hfree. rewrite (split_commas_free url Hfree). reflexivity.
Qed.

Lemma mapM_cons {A B} (f : A -> Outcome B) (x : A) (xs : list A) :
  mapM f (x :: xs) = (y ← f x; k ← mapM f xs; mret (y :: k)).
Proof. reflexivity. Qed.

Lemma read_all (atts : list Attachment) :
  Forall readable atts ->
  mapM (M := Outcome) (fun att => fileToGenerativePart (file att)) atts
  = Ok (sent_part <$> atts).
Proof.
  induction 1 as [|att atts [url Hurl] _ IH]; [reflexivity|].
  assert (Hpart : sent_part att
                  = InlineDataPart (split_commas url !! 1) (fileType (file att)))
    by (unfold sent_part; rewrite Hurl; reflexivity).
  rewrite mapM_cons, IH, fmap_cons, Hpart.
  unfold fileToGenerativePart. rewrite Hurl. reflexivity.
Qed.

Lemma read_fails (atts : list Attachment) (att : Attachment) :
  att ∈ atts -> dataURL (file att) = None ->
  mapM (M := Outcome) (fun att => fileToGenerativePart (file att)) atts
  = Throw (EventObj "ProgressEvent").
Proof.
  intros Hin Hnone. induction atts as [|a atts IH]; [inversion Hin|].
  rewrite mapM_cons.
  destruct (fileToGenerativePart (file a)) as [part|e] eqn:Hhead;
    unfold fileToGenerativePart in Hhead;
    destruct (dataURL (file a)) as [url|] eqn:Hurl; try discriminate.
  - apply elem_of_cons in Hin as [->|Hin]; [congruence|].
    rewrite (IH Hin). reflexivity.
  - injection Hhead as <-. reflexivity.
Qed.

Lemma classic_has_client (sv : Service) : has_client sv \/ ~ has_client sv.
Proof.
  unfold has_client. destruct (aiInstance sv); [left; left; discriminate|].
  destruct (String.eqb_spec (API_KEY sv) "") as [E|E].
  - right. intros [H|H]; contradiction.
  - left. right. exact E.
Qed.

Lemma getAiClient_available (sv : Service) :
  has_client sv ->
  exists ai sv', getAiClient sv = (Ok ai, sv')
    /\ API_KEY sv' = API_KEY sv /\ calls sv' = calls sv /\ aiInstance sv' = Some ai.
Proof.
  intros Hhas.
  destruct (getAiClient_cases sv) as [(ai & sv' & H & Hk & Hc & Hai & _)|(_ & Hai & Hkey)].
  - exists ai, sv'. auto.
  - destruct Hhas; contradiction.
Qed.

(** ** [generateTextResponse] from end to end *)

(** The request a call makes for a text and attachments that can be read. *)
Lemma generateTextResponse_sent
    (backend : ChatRequest -> Outcome GenerateContentResponse)
    (currentMessage : string) (attachments : list Attachment)
    (history : list Message) (sv : Service) :
  has_client sv -> Forall readable attachments ->
  let req := {| chatModel := "gemini-2.5-flash";
                systemInstruction := SYSTEM_INSTRUCTION;
                geminiService.history := to_content <$> slice_last 10 history;
                message := (if truthy currentMessage
                            then [TextPart currentMessage] else [])
                           ++ (sent_part <$> attachments) |} in
  exists sv',
    generateTextResponse backend currentMessage attachments history sv
    = (Ok match backend req with
          | Ok result => reply_text result
          | Throw error => error_text error
          end, sv')
    /\ calls sv' = calls sv ++ [SendMessage req]
    /\ API_KEY sv' = API_KEY sv
    /\ aiInstance sv' <> None.
Proof.
  intros Hhas Hread req.
  destruct (getAiClient_available sv Hhas) as (ai & sv1 & Hai & Hkey & Hcalls & Hcached).
  unfold generateTextResponse, prepare_chat, sendMessage. step_m.
  rewrite Hai, (read_all attachments Hread). cbn.
  fold req. eexists. split.
  - destruct (backend req); reflexivity.
  - cbn. rewrite Hcalls, Hkey, Hcached. repeat split. discriminate.
Qed.

(** One call of [generateTextResponse], with a client at hand and files
    that can be read, sends exactly one request: to the model
    [gemini-2.5-flash], with the fixed system instruction, the last ten
    messages of the history, and as the message the text, when it is not
    empty, followed by one part for each attachment in their order.  With an
    empty text and no attachment the message has no part at all.  The reply
    is the backend's text, the fallback text, or an error text. *)
Theorem request_carries_text_then_files
    (backend : ChatRequest -> Outcome GenerateContentResponse)
    (currentMessage : string) (attachments : list Attachment)
    (history : list Message) (sv : Service) :
  has_client sv -> Forall readable attachments ->
  exists req reply sv',
    generateTextResponse backend currentMessage attachments history sv
    = (Ok reply, sv')
    /\ calls sv' = calls sv ++ [SendMessage req]
    /\ chatModel req = "gemini-2.5-flash"
    /\ systemInstruction req = SYSTEM_INSTRUCTION
    /\ geminiService.history req = to_content <$> slice_last 10 history
    /\ (currentMessage <> "" ->
        message req = TextPart currentMessage :: (sent_part <$> attachments))
    /\ (currentMessage = "" -> message req = sent_part <$> attachments)
    /\ (forall i att, attachments !! i = Some att ->
          exists url, dataURL (file att) = Some url
            /\ sent_part att
               = InlineDataPart (split_commas url !! 1) (fileType (file att)))
    /\ match backend req with
       | Ok result => reply = reply_text result
       | Throw error => reply = error_text error
       end.
Proof.
  intros Hhas Hread.
  destruct (generateTextResponse_sent backend currentMessage attachments history sv
              Hhas Hread) as (sv' & Hrun & Hcalls & _).
  cbn zeta in Hrun, Hcalls.
  eexists _, _, sv'. split; [exact Hrun|]. split; [exact Hcalls|].
  cbn [chatModel systemInstruction geminiService.history message].
  split; [reflexivity|]. split; [reflexivity|]. split; [reflexivity|].
  split; [|split; [|split]].
  - intros Hne. apply truthy_nonempty in Hne. rewrite Hne. reflexivity.
  - intros ->. reflexivity.
  - intros i att Hi. rewrite Forall_forall in Hread.
    destruct (Hread att (list_elem_of_lookup_2 _ _ _ Hi)) as [url Hurl].
    exists url. split; [exact Hurl|]. unfold sent_part. rewrite Hurl. reflexivity.
  - destruct (backend _); reflexivity.
Qed.

(** The theorem at work: a text and a picture of three bytes, whose part
    carries them as [AQID]. *)
Lemma request_carries_text_then_files_witness :
  sent_part Samples.picture = InlineDataPart (Some "AQID") "image/png"
  /\ exists req reply sv',
       generateTextResponse (Samples.answering "a dot") "look" [Samples.picture] []
         Samples.ready
       = (Ok reply, sv')
       /\ calls sv' = calls Samples.ready ++ [SendMessage req]
       /\ chatModel req = "gemini-2.5-flash"
       /\ systemInstruction req = SYSTEM_INSTRUCTION
       /\ geminiService.history req = to_content <$> slice_last 10 []
       /\ ("look" <> "" ->
           message req = TextPart "look" :: (sent_part <$> [Samples.picture]))
       /\ ("look" = "" -> message req = sent_part <$> [Samples.picture])
       /\ (forall i att, [Samples.picture] !! i = Some att ->
             exists url, dataURL (file att) = Some url
               /\ sent_part att
                  = InlineDataPart (split_commas url !! 1) (fileType (file att)))
       /\ match Samples.answering "a dot" req with
          | Ok result => reply = reply_text result
          | Throw error => reply = error_text error
          end.
Proof.
  split; [vm_compute; reflexivity|].
  apply (request_carries_text_then_files (Samples.answering "a dot") "look"
           [Samples.picture] [] Samples.ready).
  - right. discriminate.
  - repeat constructor. eexists. reflexivity.
Defined.

(** When a file cannot be read, nothing is sent: the call returns the
    connection-error text, or the missing-key notice when there is no
    client either, the credential being checked first. *)
Theorem unreadable_attachment_sends_nothing
    (backend : ChatRequest -> Outcome GenerateContentResponse)
    (currentMessage : string) (attachments : list Attachment)
    (history : list Message) (sv : Service) (att : Attachment) :
  att ∈ attachments -> dataURL (file att) = None ->
  exists reply sv',
    generateTextResponse backend currentMessage attachments history sv
    = (Ok reply, sv')
    /\ calls sv' = calls sv
    /\ (has_client sv -> reply = CONNECTION_ERROR)
    /\ (~ has_client sv -> reply = KEY_NOTICE).
Proof.
  intros Hin Hnone.
  unfold generateTextResponse, prepare_chat, sendMessage. step_m.
  destruct (getAiClient_cases sv)
    as [(ai & sv1 & -> & _ & Hcalls & _ & Hhas)|(-> & Hai & Hkey)].
  - rewrite (read_fails attachments att Hin Hnone). cbn.
    eexists _, _. split; [reflexivity|]. split; [exact Hcalls|].
    split; [reflexivity|]. intros Hnot. contradiction.
  - eexists _, _. split; [reflexivity|]. split; [reflexivity|].
    split; [|reflexivity]. intros [Hc|Hc]; contradiction.
Qed.

Lemma unreadable_attachment_sends_nothing_witness :
  exists reply sv',
    generateTextResponse (Samples.answering "never asked") "see these"
      [Samples.picture; Samples.broken] [] Samples.ready
    = (Ok reply, sv')
    /\ calls sv' = calls Samples.ready
    /\ (has_client Samples.ready -> reply = CONNECTION_ERROR)
    /\ (~ has_client Samples.ready -> reply = KEY_NOTICE).
Proof.
  apply (unreadable_attachment_sends_nothing (Samples.answering "never asked")
           "see these" [Samples.picture; Samples.broken] [] Samples.ready
           Samples.broken).
  - right. left.
  - reflexivity.
Defined.

(** ** Failures of the backend *)

Lemma includes_cons (c : ascii) (s sub : string) :
  includes s sub = true -> includes (String c s) sub = true.
Proof.
  unfold includes. cbn [index].
  destruct (String.prefix sub (String c s)); [reflexivity|].
  destruct (index 0 sub s); [reflexivity|discriminate].
Qed.

Lemma includes_app_l (pre s sub : string) :
  includes s sub = true -> includes (pre +:+ s) sub = true.
Proof.
  intros H. induction pre as [|c pre IH]; [exact H|].
  change (String c pre +:+ s) with (String c (pre +:+ s)).
  apply includes_cons, IH.
Qed.

Lemma message_in_toString (name m sub : string) (status : option Z) :
  sub <> "" -> includes m sub = true ->
  includes (error_toString (ErrorObj name m status)) sub = true.
Proof.
  intros Hsub Hm. cbn [error_toString].
  destruct (String.eqb name ""); [exact Hm|].
  destruct (String.eqb_spec m "") as [->|_].
  - destruct sub; [contradiction|discriminate Hm].
  - apply includes_app_l. apply (includes_app_l ": "). exact Hm.
Qed.

(** A request the backend fails is sent once and not again, and the reply
    is one of the two error texts.  It is the key notice when the error
    carries the HTTP status 403, when its message mentions [API key]
    (whatever its name and status), or when its message is
    [API_KEY_MISSING]; it is the connection-error text when none of the
    three tests of the [catch] block holds. *)
Theorem backend_error_classification
    (backend : ChatRequest -> Outcome GenerateContentResponse)
    (currentMessage : string) (attachments : list Attachment)
    (history : list Message) (sv : Service) (error : Thrown) :
  has_client sv -> Forall readable attachments ->
  (forall req, backend req = Throw error) ->
  exists reply sv' req,
    generateTextResponse backend currentMessage attachments history sv
    = (Ok reply, sv')
    /\ calls sv' = calls sv ++ [SendMessage req]
    /\ (error_status error = Some 403%Z -> reply = KEY_NOTICE)
    /\ (forall name m status,
          error = ErrorObj name m status -> includes m "API key" = true ->
          reply = KEY_NOTICE)
    /\ (error_message error = Some "API_KEY_MISSING" -> reply = KEY_NOTICE)
    /\ (error_status error <> Some 403%Z ->
        error_message error <> Some "API_KEY_MISSING" ->
        includes (error_toString error) "API key" = false ->
        reply = CONNECTION_ERROR).
Proof.
  intros Hhas Hread Hback.
  destruct (generateTextResponse_sent backend currentMessage attachments history sv
              Hhas Hread) as (sv' & Hrun & Hcalls & _).
  cbn zeta in Hrun, Hcalls. rewrite Hback in Hrun.
  eexists _, sv', _. split; [exact Hrun|]. split; [exact Hcalls|].
  unfold error_text. split; [|split; [|split]].
  - intros ->. rewrite (bool_decide_eq_true_2 _ eq_refl), !Bool.orb_true_r.
    reflexivity.
  - intros name m status -> Hm.
    rewrite (message_in_toString name m "API key" status) by (discriminate || exact Hm).
    rewrite Bool.orb_true_r. reflexivity.
  - intros ->. rewrite (bool_decide_eq_true_2 _ eq_refl). reflexivity.
  - intros Hstatus Hmessage ->.
    rewrite (bool_decide_eq_false_2 _ Hstatus), (bool_decide_eq_false_2 _ Hmessage).
    reflexivity.
Qed.

(** The theorem at work: the backend refuses the credential with status
    400 and a message that mentions the key. *)
Lemma backend_error_classification_witness :
  exists reply sv' req,
    generateTextResponse Samples.refusing "hi" [] [] Samples.ready = (Ok reply, sv')
    /\ calls sv' = calls Samples.ready ++ [SendMessage req]
    /\ (error_status (ErrorObj "ApiError" "API key not valid." (Some 400%Z))
        = Some 403%Z -> reply = KEY_NOTICE)
    /\ (forall name m status,
          ErrorObj "ApiError" "API key not valid." (Some 400%Z)
          = ErrorObj name m status ->
          includes m "API key" = true -> reply = KEY_NOTICE)
    /\ (error_message (ErrorObj "ApiError" "API key not valid." (Some 400%Z))
        = Some "API_KEY_MISSING" -> reply = KEY_NOTICE)
    /\ (error_status (ErrorObj "ApiError" "API key not valid." (Some 400%Z))
        <> Some 403%Z ->
        error_message (ErrorObj "ApiError" "API key not valid." (Some 400%Z))
        <> Some "API_KEY_MISSING" ->
        includes (error_toString (ErrorObj "ApiError" "API key not valid." (Some 400%Z)))
          "API key" = false ->
        reply = CONNECTION_ERROR).
Proof.
  apply (backend_error_classification Samples.refusing "hi" [] [] Samples.ready
           (ErrorObj "ApiError" "API key not valid." (Some 400%Z))).
  - right. discriminate.
  - constructor.
  - intros req. reflexivity.
Defined.

(** ** [generateSpeech] from end to end *)

Lemma generateSpeech_run
    (backend : SpeechRequest -> Outcome GenerateContentResponse)
    (text : string) (ctx : AudioContext) (sv : Service) :
  has_client sv ->
  exists sv',
    generateSpeech backend text ctx sv
    = (Ok (generateSpeech_end (SpeechInFlight (speech_request text)) ctx
             (backend (speech_request text))), sv')
    /\ calls sv' = calls sv ++ [GenerateContent (speech_request text)].
Proof.
  intros Hhas.
  destruct (getAiClient_available sv Hhas) as (ai & sv1 & Hai & _ & Hcalls & _).
  unfold generateSpeech. step_m. rewrite Hai. cbn.
  eexists. split.
  - destruct (backend (speech_request text)) as [response|e]; cbn; [|reflexivity].
    destruct (decode_speech ctx response); reflexivity.
  - cbn. rewrite Hcalls. reflexivity.
Qed.

Lemma generateSpeech_idle
    (backend : SpeechRequest -> Outcome GenerateContentResponse)
    (text : string) (ctx : AudioContext) (sv : Service) :
  ~ has_client sv -> generateSpeech backend text ctx sv = (Ok None, sv).
Proof.
  intros Hnot.
  destruct (getAiClient_cases sv) as [(_ & _ & _ & _ & _ & _ & Hhas)|(Hai & _)].
  - contradiction.
  - unfold generateSpeech. step_m. rewrite Hai. reflexivity.
Qed.

Lemma decode_speech_data (ctx : AudioContext) (response : GenerateContentResponse)
    (b64 : string) (bs : list byte) :
  base64Audio response = Some b64 -> atob b64 = Ok bs -> bs <> [] ->
  decode_speech ctx response
  = (audioBuffer ← audioUtils.decodeAudioData (Uint8Array_of bs) ctx 24000 1;
     mret (Some audioBuffer)).
Proof.
  intros Hdata Hbs Hne. unfold decode_speech. rewrite Hdata.
  assert (Htruthy : truthy b64 = true).
  { apply truthy_nonempty. intros ->. cbn in Hbs. congruence. }
  rewrite Htruthy. cbn [negb].
  rewrite (decodeBase64_value b64 bs Hbs). reflexivity.
Qed.

(** When the synthesis backend answers with audio data that [atob] reads as
    an even, positive number of bytes, and the context takes one channel at
    24000 Hz, [generateSpeech] sends one request (model
    [gemini-2.5-flash-preview-tts], voice [Kore], the text as its only
    part) and returns a buffer of one channel at 24000 Hz with one frame
    for every two bytes, frame [i] being the 16-bit little-endian value of
    bytes [2i] and [2i+1] over 32768. *)
Theorem generateSpeech_decodes_reply
    (backend : SpeechRequest -> Outcome GenerateContentResponse)
    (text : string) (ctx : AudioContext) (sv : Service)
    (response : GenerateContentResponse) (b64 : string) (bs : list byte) :
  has_client sv ->
  backend (speech_request text) = Ok response ->
  base64Audio response = Some b64 ->
  atob b64 = Ok bs ->
  Nat.Even (length bs) -> 2 <= length bs ->
  supports ctx 1 24000 ->
  exists b sv',
    generateSpeech backend text ctx sv = (Ok (Some b), sv')
    /\ calls sv'
       = calls sv ++ [GenerateContent {| speechModel := "gemini-2.5-flash-preview-tts";
                                         contents := [TextPart text];
                                         voiceName := "Kore" |}]
    /\ numberOfChannels b = 1
    /\ frames b = length bs / 2
    /\ sampleRate b = 24000%Q
    /\ forall i, i < frames b ->
         exists v, pcm_value bs i = Some v
                   /\ getChannelData b 0 i = Some (Num (v # 32768)).
Proof.
  intros Hhas Hback Hdata Hbs Heven Hlen Hsup.
  destruct (generateSpeech_run backend text ctx sv Hhas) as (sv' & Hrun & Hcalls).
  assert (Hne : bs <> []) by (intros ->; cbn in Hlen; lia).
  assert (Hfits : 1 <= length (buffer (Uint8Array_of bs)) / 2).
  { cbn [buffer Uint8Array_of]. apply Nat.div_le_lower_bound; lia. }
  apply Nat.even_spec in Heven.
  destruct (decodeAudioData_buffer (Uint8Array_of bs) ctx 24000 1 Heven
              (le_n 1) Hfits Hsup)
    as (b & Hb & Hn & Hf & Hr & _ & Hsamples).
  cbn [buffer Uint8Array_of] in Hf, Hsamples. rewrite Nat.div_1_r in Hf.
  rewrite Hback in Hrun. cbn [generateSpeech_end mbind Outcome_bind] in Hrun.
  rewrite (decode_speech_data ctx response b64 bs Hdata Hbs Hne), Hb in Hrun.
  cbn in Hrun.
  exists b, sv'. split; [exact Hrun|]. split; [exact Hcalls|].
  split; [exact Hn|]. split; [exact Hf|]. split; [exact Hr|].
  intros i Hi.
  destruct (whole_frame_sample bs 1 0 i) as [v Hv]; [lia|rewrite Nat.div_1_r, <- Hf; exact Hi|].
  specialize (Hsamples 0 i ltac:(lia) Hi).
  rewrite Nat.mul_1_r, Nat.add_0_r in Hv, Hsamples.
  exists v. split; [exact Hv|]. rewrite Hsamples, Hv. reflexivity.
Qed.

(** The theorem at work: [AQD//w==] is the four bytes 01 00 ff ff, the
    samples 1 and -1. *)
Lemma generateSpeech_decodes_reply_witness :
  atob "AQD//w==" = Ok [Byte.x01; Byte.x00; Byte.xff; Byte.xff]
  /\ pcm_value [Byte.x01; Byte.x00; Byte.xff; Byte.xff] 1 = Some (-1)%Z
  /\ exists b sv',
       generateSpeech (fun _ => Ok (Samples.spoken "AQD//w==")) "hello"
         Examples.context Samples.ready
       = (Ok (Some b), sv')
       /\ calls sv'
          = calls Samples.ready
            ++ [GenerateContent {| speechModel := "gemini-2.5-flash-preview-tts";
                                   contents := [TextPart "hello"];
                                   voiceName := "Kore" |}]
       /\ numberOfChannels b = 1
       /\ frames b = length [Byte.x01; Byte.x00; Byte.xff; Byte.xff] / 2
       /\ sampleRate b = 24000%Q
       /\ forall i, i < frames b ->
            exists v, pcm_value [Byte.x01; Byte.x00; Byte.xff; Byte.xff] i = Some v
                      /\ getChannelData b 0 i = Some (Num (v # 32768)).
Proof.
  split; [vm_compute; reflexivity|]. split; [vm_compute; reflexivity|].
  apply (generateSpeech_decodes_reply (fun _ => Ok (Samples.spoken "AQD//w==")) "hello"
           Examples.context Samples.ready (Samples.spoken "AQD//w==") "AQD//w=="
           [Byte.x01; Byte.x00; Byte.xff; Byte.xff]).
  - right. discriminate.
  - reflexivity.
  - reflexivity.
  - vm_compute. reflexivity.
  - exists 2. reflexivity.
  - simpl. lia.
  - unfold supports, Qle. simpl. lia.
Defined.

(** [generateSpeech] never raises, and what it returns is [null]: when
    there is no client, and then nothing is sent; when the backend fails;
    when the answer carries no audio data; when the data is not base64;
    and when the bytes cannot be decoded: an odd number of them, none at
    all, or a context that does not take one channel at 24000 Hz. *)
Theorem generateSpeech_failure_is_null
    (backend : SpeechRequest -> Outcome GenerateContentResponse)
    (text : string) (ctx : AudioContext) (sv : Service) :
  exists r sv',
    generateSpeech backend text ctx sv = (Ok r, sv')
    /\ (~ has_client sv -> r = None /\ sv' = sv)
    /\ (forall e, backend (speech_request text) = Throw e -> r = None)
    /\ (forall response,
          backend (speech_request text) = Ok response ->
          (no_audio_data response -> r = None)
          /\ forall b64,
               base64Audio response = Some b64 ->
               (forall e, atob b64 = Throw e -> r = None)
               /\ (forall bs, atob b64 = Ok bs ->
                     Nat.Odd (length bs) \/ bs = [] \/ ~ supports ctx 1 24000 ->
                     r = None)).
Proof.
  destruct (classic_has_client sv) as [Hhas|Hnot].
  2:{ exists None, sv. split; [apply generateSpeech_idle, Hnot|].
      split; [auto|]. split; [auto|]. intros response _. split; [auto|].
      intros b64 _. split; auto. }
  destruct (generateSpeech_run backend text ctx sv Hhas) as (sv' & Hrun & _).
  eexists _, sv'. split; [exact Hrun|].
  split; [intros Hnot; contradiction|]. split.
  { intros e ->. reflexivity. }
  intros response ->. cbn [generateSpeech_end mbind Outcome_bind]. split.
  { intros Hsilent. rewrite (decode_speech_silent ctx response Hsilent). reflexivity. }
  intros b64 Hdata. split.
  - intros e He. unfold decode_speech. rewrite Hdata.
    destruct (truthy b64); [|reflexivity]. cbn [negb].
    unfold audioUtils.decodeBase64. rewrite He. reflexivity.
  - intros bs Hbs Hbad.
    destruct (decide (bs = [])) as [->|Hne].
    + unfold decode_speech. rewrite Hdata.
      destruct (truthy b64); [|reflexivity]. cbn [negb].
      rewrite (decodeBase64_value b64 [] Hbs).
      unfold audioUtils.decodeAudioData_defaults, audioUtils.decodeAudioData.
      cbn. unfold createBuffer. cbn. rewrite !Bool.andb_false_r. reflexivity.
    + rewrite (decode_speech_data ctx response b64 bs Hdata Hbs Hne).
      destruct (audioUtils.decodeAudioData (Uint8Array_of bs) ctx 24000 1)
        as [b|e] eqn:Hdec; [|reflexivity].
      exfalso.
      destruct (decodeAudioData_ok_inv (Uint8Array_of bs) ctx 24000 1)
        as (Heven & _ & Hsup); [rewrite Hdec; reflexivity|].
      cbn [buffer Uint8Array_of] in Heven.
      destruct Hbad as [Hodd|[Hnil|Hunsup]]; [|contradiction|contradiction].
      destruct Heven as [k Hk]. destruct Hodd as [j Hj]. lia.
Qed.

(** The first half of the call, for the session. *)
Lemma generateTextResponse_begin_sent
    (currentMessage : string) (attachments : list Attachment)
    (history : list Message) (sv : Service) :
  has_client sv -> Forall readable attachments ->
  let req := {| chatModel := "gemini-2.5-flash";
                systemInstruction := SYSTEM_INSTRUCTION;
                geminiService.history := to_content <$> slice_last 10 history;
                message := (if truthy currentMessage
                            then [TextPart currentMessage] else [])
                           ++ (sent_part <$> attachments) |} in
  exists sv',
    generateTextResponse_begin currentMessage attachments history sv
    = (Ok (TextInFlight req), sv')
    /\ calls sv' = calls sv ++ [SendMessage req].
Proof.
  intros Hhas Hread req.
  destruct (getAiClient_available sv Hhas) as (ai & sv1 & Hai & Hkey & Hcalls & Hcached).
  unfold generateTextResponse_begin, prepare_chat. step_m.
  rewrite Hai, (read_all attachments Hread). cbn.
  fold req. eexists. split; [reflexivity|]. cbn. rewrite Hcalls. reflexivity.
Qed.

(** ** The service and the credential *)

Lemma getAiClient_serves (key : string) (sv : Service) :
  serves key sv ->
  (exists ai sv', getAiClient sv = (Ok ai, sv')
     /\ calls sv' = calls sv /\ aiInstance sv' = Some ai
     /\ API_KEY sv' = key /\ apiKey ai = key /\ key <> "")
  \/ (getAiClient sv = (Throw (Error "API_KEY_MISSING"), sv)).
Proof.
  intros (Hkey & Hai & Hsent).
  destruct sv as [k [cached|] cs]; cbn in *.
  - left. destruct (Hai cached eq_refl) as [Hk Hne].
    eexists _, _. split; [reflexivity|]. cbn. auto.
  - unfold getAiClient. step_m. cbn. subst k.
    destruct (truthy key) eqn:Ht; cbn.
    + left. apply truthy_nonempty in Ht. eexists _, _. split; [reflexivity|]. cbn. auto.
    + right. reflexivity.
Qed.

Lemma serves_sent (key : string) (sv : Service) (ai : GoogleGenAI) (c : Call) :
  API_KEY sv = key -> aiInstance sv = Some ai -> apiKey ai = key -> key <> "" ->
  serves key (record_call c sv).
Proof.
  intros Hkey Hai Hk Hne. unfold serves, record_call. cbn.
  split; [exact Hkey|]. split.
  - intros ai' Hai'. rewrite Hai in Hai'. injection Hai' as <-. auto.
  - intros _. rewrite Hai. discriminate.
Qed.

Lemma serves_client (key : string) (sv sv' : Service) (ai : GoogleGenAI) :
  serves key sv -> calls sv' = calls sv -> API_KEY sv' = key ->
  aiInstance sv' = Some ai -> apiKey ai = key -> key <> "" ->
  serves key sv'.
Proof.
  intros (_ & _ & Hsent) Hcalls Hkey Hai Hk Hne. unfold serves.
  split; [exact Hkey|]. split.
  - intros ai' Hai'. rewrite Hai in Hai'. injection Hai' as <-. auto.
  - intros _. rewrite Hai. discriminate.
Qed.

Lemma generateTextResponse_begin_serves (key : string) (currentMessage : string)
    (attachments : list Attachment) (history : list Message) (sv : Service) :
  serves key sv ->
  exists call sv',
    generateTextResponse_begin currentMessage attachments history sv = (Ok call, sv')
    /\ serves key sv'.
Proof.
  intros Hsv. unfold generateTextResponse_begin, prepare_chat. step_m.
  destruct (getAiClient_serves key sv Hsv)
    as [(ai & sv1 & -> & Hcalls & Hai & Hkey & Hk & Hne)| ->].
  - destruct (mapM _ attachments) as [fileParts|e]; cbn.
    + eexists _, _. split; [reflexivity|].
      apply (serves_sent key sv1 ai); assumption.
    + eexists _, _. split; [reflexivity|].
      apply (serves_client key sv sv1 ai); assumption.
  - eexists _, _. split; [reflexivity|exact Hsv].
Qed.

Lemma generateSpeech_begin_serves (key : string) (text : string) (sv : Service) :
  serves key sv ->
  exists call sv',
    generateSpeech_begin text sv = (Ok call, sv') /\ serves key sv'.
Proof.
  intros Hsv. unfold generateSpeech_begin. step_m.
  destruct (getAiClient_serves key sv Hsv)
    as [(ai & sv1 & -> & Hcalls & Hai & Hkey & Hk & Hne)| ->].
  - eexists _, _. split; [reflexivity|].
    apply (serves_sent key sv1 ai); assumption.
  - eexists _, _. split; [reflexivity|exact Hsv].
Qed.

End Requests.

(* ================================================================== *)
(** * More about the handlers of the root component *)
(* ================================================================== *)

Module Handlers.
Import App Terms Decoding Requests.

#[local] Arguments set_audible : simpl never.

(** ** Messages are kept *)

Lemma unflagged_cleared (ms : list Message) :
  unflagged <$> (with_isAudioPlaying false <$> ms) = unflagged <$> ms.
Proof. rewrite <- list_fmap_compose. apply list_fmap_ext. intros i m _. reflexivity. Qed.

Lemma unflagged_set_audible (messageId : Id) (b : bool) (ms : list Message) :
  unflagged <$> set_audible messageId b ms = unflagged <$> ms.
Proof.
  unfold set_audible. rewrite <- list_fmap_compose. apply list_fmap_ext.
  intros i m _. cbn. destruct (bool_decide _); reflexivity.
Qed.

Ltac grown :=
  rewrite ?fmap_app, ?unflagged_set_audible, ?unflagged_cleared,
    ?fmap_app, ?unflagged_set_audible, ?unflagged_cleared;
  first [ exists []; rewrite app_nil_r; reflexivity
        | eexists; reflexivity ].

Lemma step_grows (ev : Event) (s : State) :
  exists new,
    unflagged <$> messages (JS.exec (step ev) s) = (unflagged <$> messages s) ++ new.
Proof.
  destruct s as [e ms ld rc lg ac act rr sv ns rs tw sw uu ck].
  destruct ev; unfold_app; cbn.
  all: split_cases.
  all: grown.
Qed.

(** Whatever happens, no message is removed, replaced or moved: the list of
    messages, the audible flags aside, only grows at its end. *)
Theorem messages_only_grow (evs : list Event) (s : State) :
  (unflagged <$> messages s) `prefix_of` (unflagged <$> messages (run evs s)).
Proof.
  revert s. induction evs as [|ev evs IH]; intros s; cbn; [reflexivity|].
  etransitivity; [|apply IH].
  destruct (step_grows ev s) as [new ->]. apply prefix_app_r. reflexivity.
Qed.

(** ** Loading *)

Lemma step_keeps_pending (ev : Event) (s : State) :
  (isLoading s = true -> reply_pending s) ->
  isLoading (JS.exec (step ev) s) = true -> reply_pending (JS.exec (step ev) s).
Proof.
  destruct s as [e ms ld rc lg ac act rr sv ns rs tw sw uu ck].
  unfold reply_pending. cbn. intros Hinv.
  destruct ev; unfold_app; cbn.
  all: split_cases.
  all: try exact Hinv.
  all: try discriminate.
  all: intros _; eexists (length tw), _; apply list_lookup_middle; reflexivity.
Qed.

(** The loading indicator is never on for nothing: in every state the page
    reaches, when [isLoading] is true a reply is still awaited. *)
Theorem loading_means_pending (e : Env) (evs : list Event) :
  let s := run evs (mounted e) in
  isLoading s = true -> reply_pending s.
Proof.
  cbn zeta.
  apply (run_invariant (fun s => isLoading s = true -> reply_pending s)).
  - intros ev s. apply step_keeps_pending.
  - unfold mounted, initial. unfold_app. cbn.
    destruct (hasSpeechRecognition e); cbn; discriminate.
Qed.

Lemma loading_means_pending_witness :
  let s := run [Submit "hi" []] (mounted Examples.browser) in
  isLoading s = true /\ reply_pending s.
Proof.
  cbn zeta. split; [vm_compute; reflexivity|].
  apply (loading_means_pending Examples.browser [Submit "hi" []]).
  vm_compute. reflexivity.
Defined.

(** ** Recognition objects *)

Lemma ordered_put (rs : list Recognition) (ref : option nat) (lg : Language)
    (k : nat) (rec rec' : Recognition) :
  ordered rs ref lg -> rs !! k = Some rec ->
  lang rec' = lang rec -> continuous rec' = continuous rec ->
  interimResults rec' = interimResults rec ->
  (ref <> Some k -> discarded rec') ->
  ordered (<[k := rec']> rs) ref lg.
Proof.
  intros (i & r & Href & Hr & Hlen & Hlang & Hcont & Hint & Hold) Hk Hl Hc Hi Hd.
  assert (Hlt : k < length rs) by (eapply lookup_lt_Some; eauto).
  destruct (decide (k = i)) as [->|Hne].
  - exists i, rec'.
    rewrite list_lookup_insert_eq by exact Hlt. rewrite length_insert.
    assert (rec = r) by congruence. subst rec.
    repeat split; try congruence.
    intros j r' Hj Hr'. rewrite list_lookup_insert_ne in Hr' by lia. eauto.
  - exists i, r.
    rewrite list_lookup_insert_ne by exact Hne. rewrite length_insert.
    repeat split; auto.
    intros j r' Hj Hr'. destruct (decide (j = k)) as [->|Hjk].
    + rewrite list_lookup_insert_eq in Hr' by exact Hlt. injection Hr' as <-.
      apply Hd. rewrite Href. congruence.
    + rewrite list_lookup_insert_ne in Hr' by congruence. eauto.
Qed.

Lemma ordered_renew (rs : list Recognition) (i : nat) (lg lg' : Language)
    (seen : list Message) :
  ordered rs (Some i) lg ->
  (forall r, rs !! i = Some r -> discarded r) ->
  ordered (rs ++ [ {| continuous := false; interimResults := false;
                      lang := lang_tag lg'; capture := Idle;
                      seenMessages := seen |} ])
          (Some (length rs)) lg'.
Proof.
  intros (i' & r & [= <-] & Hr & Hlen & _ & _ & _ & Hold) Hcur.
  eexists (length rs), _. split; [reflexivity|].
  split; [apply list_lookup_middle; reflexivity|].
  split; [rewrite length_app; cbn; lia|].
  split; [reflexivity|]. split; [reflexivity|]. split; [reflexivity|].
  intros j r' Hj Hr'. rewrite lookup_app_l in Hr' by exact Hj.
  destruct (decide (j = i)) as [->|Hne]; [apply Hcur, Hr'|].
  apply (Hold j r'); [lia|exact Hr'].
Qed.

Lemma ordered_language (rs : list Recognition) (ref : option nat) (lg : Language) :
  ordered rs ref lg -> exists i, ref = Some i /\ i < length rs.
Proof.
  intros (i & r & Href & Hr & _). exists i. split; [exact Href|].
  eapply lookup_lt_Some; eauto.
Qed.

Ltac tidy_lists :=
  repeat match goal with
  | H : ?l !! ?i = Some ?x |- _ =>
      progress (rewrite (list_insert_id l i x H) in * )
  | H : <[?i := ?x]> ?l !! ?i = Some ?y |- _ =>
      rewrite list_lookup_insert_eq in H by (rewrite ?length_insert; assumption);
      injection H as <-
  | H1 : ?l !! ?i = Some ?x, H2 : ?l !! ?i = Some ?y |- _ =>
      rewrite H1 in H2; injection H2 as <-
  end.

Ltac discarded_goal :=
  first [ congruence
        | intros; left; (reflexivity || assumption)
        | intros; right; (reflexivity || assumption) ].

Ltac ordered_goal :=
  lazymatch goal with
  | |- ordered (<[_ := _]> _) _ _ =>
      eapply ordered_put;
        [ordered_goal
        |first [eassumption
               |apply list_lookup_insert_eq; rewrite ?length_insert; assumption]
        | reflexivity | reflexivity | reflexivity
        | discarded_goal]
  | |- ordered (_ ++ [_]) _ ?lg' =>
      eapply (ordered_renew _ _ _ lg');
        [ordered_goal
        |let r := fresh "r" in let Hr := fresh "Hr" in
         intros r Hr;
         first [ rewrite list_lookup_insert_eq in Hr by (rewrite ?length_insert; assumption);
                 injection Hr as <-
               | match goal with H : _ !! _ = Some _ |- _ =>
                   rewrite H in Hr; injection Hr as <- end ];
         discarded_goal]
  | |- ordered _ _ _ => eassumption
  end.

Lemma step_ordered (ev : Event) (s : State) :
  capture_in_order s -> capture_in_order (JS.exec (step ev) s).
Proof.
  destruct s as [e ms ld rc lg ac act rr sv ns rs tw sw uu ck].
  unfold capture_in_order. cbn. intros [Hcap Hord].
  destruct (ordered_language _ _ _ Hord) as (i & -> & Hi).
  destruct ev; unfold_app;
    unfold recognition_start, recognition_stop, recognition_abort; cbn;
    rewrite ?Hcap.
  all: split_cases.
  all: try congruence.
  all: try (split; [assumption || reflexivity|assumption]).
  all: (split; [assumption || reflexivity|]).
  all: tidy_lists.
  all: try (cbn in *; congruence).
  all: try ordered_goal.
  all: exfalso; match goal with
       | H : _ !! _ = None |- _ =>
           apply lookup_ge_None in H; rewrite ?length_insert in H; lia
       end.
Qed.

Lemma mounted_ordered (e : Env) :
  hasSpeechRecognition e = true -> capture_in_order (mounted e).
Proof.
  intros Hcap. unfold mounted, initial. unfold_app. cbn. rewrite Hcap.
  split; [exact Hcap|]. cbn. eexists 0, _. repeat split.
  intros j r' Hj. lia.
Qed.

(** With speech capture, in every state the page reaches: the recognition
    object in [recognitionRef] is the one created last; it listens for one
    final result ([continuous] and [interimResults] off) in the language
    the page shows ([ar-EG] or [en-US]); every object created before it is
    discarded (ended, or aborted and closing); and so a result or a start
    event of any object but the current one changes nothing. *)
Theorem current_recognizer_follows_language (e : Env) (evs : list Event) :
  hasSpeechRecognition e = true ->
  let s := run evs (mounted e) in
  exists i r,
    recognitionRef s = Some i
    /\ recognizers s !! i = Some r
    /\ length (recognizers s) = S i
    /\ lang r = lang_tag (language s)
    /\ continuous r = false
    /\ interimResults r = false
    /\ (forall j r', j < i -> recognizers s !! j = Some r' -> discarded r')
    /\ forall j transcript,
         j <> i ->
         JS.exec (step (RecognitionResult j transcript)) s = s
         /\ JS.exec (step (RecognitionStart j)) s = s.
Proof.
  intros Hcap s.
  assert (Hs : capture_in_order s)
    by (apply run_invariant; [apply step_ordered|apply mounted_ordered, Hcap]).
  destruct Hs as (_ & i & r & Href & Hr & Hlen & Hlang & Hcont & Hint & Hold).
  exists i, r. repeat (split; [assumption|]).
  intros j transcript Hne.
  assert (Hj : recognizers s !! j = None
               \/ exists r', recognizers s !! j = Some r' /\ discarded r').
  { destruct (recognizers s !! j) as [r'|] eqn:Hr'; [right|left; reflexivity].
    exists r'. split; [reflexivity|]. apply (Hold j r'); [|exact Hr'].
    apply lookup_lt_Some in Hr'. lia. }
  clearbody s. destruct s as [e' ms ld rc lg ac act rr sv ns rs tw sw uu ck].
  cbn in Hj. unfold_app. cbn.
  destruct Hj as [-> |(r' & -> & [Hd|Hd])]; cbn; rewrite ?Hd; split; reflexivity.
Qed.

Lemma current_recognizer_follows_language_witness :
  let s := run [PressLanguage; PressMic; PressLanguage] (mounted Examples.browser) in
  (lang <$> recognizers s) = ["ar-EG"; "en-US"; "ar-EG"]
  /\ exists i r,
       recognitionRef s = Some i
       /\ recognizers s !! i = Some r
       /\ length (recognizers s) = S i
       /\ lang r = lang_tag (language s)
       /\ continuous r = false
       /\ interimResults r = false
       /\ (forall j r', j < i -> recognizers s !! j = Some r' -> discarded r')
       /\ forall j transcript,
            j <> i ->
            JS.exec (step (RecognitionResult j transcript)) s = s
            /\ JS.exec (step (RecognitionStart j)) s = s.
Proof.
  cbn zeta. split; [vm_compute; reflexivity|].
  apply (current_recognizer_follows_language Examples.browser
           [PressLanguage; PressMic; PressLanguage]).
  reflexivity.
Defined.

Lemma stop_playing {C} (l : AudioLimits) (n : SourceNode C) :
  playState n = Playing -> audioUtils.stop l n = Ok (set_playState Finished n).
Proof.
  intros H. unfold audioUtils.stop, source_stop, try_catch. rewrite H. reflexivity.
Qed.

(** ** The microphone button *)

(** Pressing the microphone while a playback is held, and nothing is being
    recorded, stops the source and releases the handle, and leaves the
    messages as they are: unlike a send, it does not clear the audible
    flag.  The message stays marked until the [ended] event of the stopped
    source is dispatched; the callback then clears its flag. *)
Theorem mic_press_interrupts_playback (s : State) (h : nat) (n : SourceNode Id)
    (mid : Id) :
  isRecording s = false ->
  activeAudioSourceRef s = Some h ->
  sources s !! h = Some n ->
  playState n = Playing ->
  onended n = Some (Some mid) ->
  let s1 := JS.exec toggleRecording s in
  let s2 := JS.exec (step (EndedEvent h)) s1 in
  messages s1 = messages s
  /\ activeAudioSourceRef s1 = None
  /\ sources s1 = <[h := set_playState Finished n]> (sources s)
  /\ isLoading s1 = isLoading s
  /\ messages s2 = set_audible mid false (messages s)
  /\ sources s2 = <[h := set_playState Ended n]> (sources s)
  /\ activeAudioSourceRef s2 = None.
Proof.
  intros Hrec Hact Hsrc Hplay Hcb s1 s2.
  assert (Hlt : h < length (sources s)) by (eapply lookup_lt_Some; eauto).
  assert (Hs1 : messages s1 = messages s
                /\ activeAudioSourceRef s1 = None
                /\ sources s1 = <[h := set_playState Finished n]> (sources s)
                /\ isLoading s1 = isLoading s).
  { unfold s1. clear s1 s2.
    destruct s as [e ms ld rc lg ac act rr sv ns rs tw sw uu ck].
    cbn in *. subst rc act.
    unfold_app. unfold recognition_start. cbn.
    destruct ac as [[lim rate [|]]|]; cbn; try destruct (newContextState e); cbn;
      rewrite Hsrc; cbn; rewrite (stop_playing _ n Hplay); cbn;
      split_cases; repeat split. }
  destruct Hs1 as (Hm1 & Ha1 & Hn1 & Hl1).
  repeat (split; [assumption|]).
  unfold s2. generalize dependent s1. intros s1.
  destruct s1 as [e ms ld rc lg ac act rr sv ns rs tw sw uu ck]. cbn.
  intros -> -> -> ->. unfold_app. cbn.
  rewrite list_lookup_insert_eq by exact Hlt. cbn.
  unfold dispatch_ended. cbn. rewrite Hcb. cbn.
  rewrite list_insert_insert_eq. repeat split.
Qed.

(** The theorem at work: the first reply is playing when the microphone is
    pressed; it stays marked until the event comes. *)
Lemma mic_press_interrupts_playback_witness :
  let s := run (Examples.awaiting_speech
                ++ [SpeechAnswer 0 (Examples.speech_answer "AAA=")])
               (mounted Examples.browser) in
  exists n,
    sources s !! 0 = Some n
    /\ let s1 := JS.exec toggleRecording s in
       let s2 := JS.exec (step (EndedEvent 0)) s1 in
       (isAudioPlaying <$> messages s1) = [None; Some true]
       /\ (isAudioPlaying <$> messages s2) = [None; Some false]
       /\ messages s1 = messages s
       /\ activeAudioSourceRef s1 = None
       /\ sources s1 = <[0 := set_playState Finished n]> (sources s)
       /\ isLoading s1 = isLoading s
       /\ messages s2 = set_audible 1 false (messages s)
       /\ sources s2 = <[0 := set_playState Ended n]> (sources s)
       /\ activeAudioSourceRef s2 = None.
Proof.
  cbn zeta. eexists. split; [vm_compute; reflexivity|].
  split; [vm_compute; reflexivity|]. split; [vm_compute; reflexivity|].
  apply (mic_press_interrupts_playback
           (run (Examples.awaiting_speech
                 ++ [SpeechAnswer 0 (Examples.speech_answer "AAA=")])
                (mounted Examples.browser)) 0 _ 1).
  - vm_compute. reflexivity.
  - vm_compute. reflexivity.
  - vm_compute. reflexivity.
  - reflexivity.
  - reflexivity.
Defined.

(** Pressing the microphone when the recognition object has been started
    and the page does not show it yet ([onstart] has not run, or a result
    has come and [onend] has not) calls [start()] again: the call raises
    [InvalidStateError] out of [toggleRecording], which has no [try] around
    it.  By then the handler has stopped and released the playback it
    held; capture and the messages are as before. *)
Theorem second_start_raises (s : State) (i : nat) (r : Recognition) :
  isRecording s = false ->
  recognitionRef s = Some i ->
  recognizers s !! i = Some r ->
  capture r <> Idle ->
  let s1 := JS.exec toggleRecording s in
  fst (toggleRecording s)
  = Throw (DOMException "InvalidStateError" "recognition has already started")
  /\ recognizers s1 = recognizers s
  /\ isRecording s1 = false
  /\ messages s1 = messages s
  /\ activeAudioSourceRef s1 = None
  /\ forall h n, sources s1 !! h = Some n -> activeAudioSourceRef s = Some h ->
                 playState n <> Playing.
Proof.
  intros Hrec Href Hr Hcap s1. unfold s1. clear s1.
  destruct s as [e ms ld rc lg ac act rr sv ns rs tw sw uu ck].
  cbn in *. subst rc rr.
  unfold_app. unfold recognition_start. cbn.
  destruct ac as [[lim rate [|]]|]; cbn; try destruct (newContextState e); cbn.
  all: destruct act as [h|]; cbn.
  all: try (destruct (ns !! h) as [n|] eqn:Hn; cbn).
  all: try (destruct (stop_returns (audioLimits e) n) as (n' & -> & _ & Hstop & Hidle); cbn).
  all: rewrite Hr; cbn.
  all: destruct (capture r) eqn:Hc; try contradiction; cbn.
  all: repeat (split; [reflexivity|]).
  all: intros h' m Hm [=]; subst.
  all: try (rewrite Hn in Hm; discriminate).
  all: rewrite list_lookup_insert_eq in Hm by (eapply lookup_lt_Some; eauto).
  all: injection Hm as <-.
  all: destruct (playState n) eqn:Hp;
    try (rewrite Hidle by discriminate; rewrite Hp; discriminate);
    rewrite (Hstop eq_refl); discriminate.
Qed.

(** The theorem at work: the microphone is pressed twice before the
    [start] event of the first press arrives. *)
Lemma second_start_raises_witness :
  let s := run [PressMic] (mounted Examples.browser) in
  let s1 := JS.exec toggleRecording s in
  fst (toggleRecording s)
  = Throw (DOMException "InvalidStateError" "recognition has already started")
  /\ recognizers s1 = recognizers s
  /\ isRecording s1 = false
  /\ messages s1 = messages s
  /\ activeAudioSourceRef s1 = None
  /\ forall h n, sources s1 !! h = Some n -> activeAudioSourceRef s = Some h ->
                 playState n <> Playing.
Proof.
  cbn zeta.
  apply (second_start_raises (run [PressMic] (mounted Examples.browser)) 0
           {| continuous := false; interimResults := false; lang := "ar-EG";
              capture := Listening; seenMessages := [] |}).
  - reflexivity.
  - reflexivity.
  - vm_compute. reflexivity.
  - discriminate.
Defined.

(** ** Sends from speech capture *)

Lemma handleSendMessage_begin_full (closedOver : list Message) (text : string)
    (attachments : list Attachment) (voice : bool) (s : State) :
  exists ms1 ctx ns1 call sv',
    generateTextResponse_begin text attachments closedOver (service s) = (Ok call, sv')
    /\ unflagged <$> ms1 = unflagged <$> messages s
    /\ length ns1 = length (sources s)
    /\ handleSendMessage_begin closedOver text attachments voice s
       = (Ok tt,
          {| env := env s;
             messages := ms1 ++ [ {| id := uuids s; role := USER; text := text;
                                     types.attachments := Some attachments;
                                     timestamp := clock s;
                                     isAudioPlaying := None |} ];
             isLoading := true;
             isRecording := isRecording s;
             language := language s;
             audioContextRef := Some ctx;
             activeAudioSourceRef := None;
             recognitionRef := recognitionRef s;
             service := sv';
             sources := ns1;
             recognizers := recognizers s;
             textWaits := textWaits s ++ [Some {| textCall := call; isVoiceMode := voice |}];
             speechWaits := speechWaits s;
             uuids := S (uuids s);
             clock := clock s |}).
Proof.
  destruct (activeAudioSourceRef s) as [h|] eqn:Hact.
  - destruct (interrupt_playback_active s h Hact) as (ctx & ns' & Hint & Hlen & _).
    destruct (request_reply_spec closedOver text attachments voice
                (upd_messages (fun prev => with_isAudioPlaying false <$> prev)
                   (upd_activeAudioSourceRef (fun _ => None)
                      (upd_sources (fun _ => ns')
                         (upd_audioContextRef (fun _ => Some ctx) s)))))
      as (call & sv' & Hbegin & Hreq).
    exists (with_isAudioPlaying false <$> messages s), ctx, ns', call, sv'.
    split; [exact Hbegin|]. split; [apply unflagged_cleared|]. split; [exact Hlen|].
    unfold handleSendMessage_begin. step_m. rewrite Hint, Hreq.
    destruct s; reflexivity.
  - destruct (handleSendMessage_begin_idle closedOver text attachments voice s Hact)
      as (ctx & call & sv' & Hbegin & Hsend).
    exists (messages s), ctx, (sources s), call, sv'.
    split; [exact Hbegin|]. split; [reflexivity|]. split; [reflexivity|].
    rewrite Hsend. destruct s; cbn in *. subst. reflexivity.
Qed.

(** A transcript goes out whatever the state of the page: the result of a
    recognition object that is listening is sent as a voice-mode message
    with no attachment, also while a reply is being awaited and also when
    it is empty (the request then has no part); the request carries the
    history the recognition object saw.  The guard of the input area does
    not apply to it: in the same state a send from the input area is
    refused while [isLoading] is on. *)
Theorem transcript_bypasses_input_guard (s : State) (r : nat) (rec : Recognition)
    (transcript : string) :
  recognizers s !! r = Some rec ->
  capture rec = Listening \/ capture rec = Stopping ->
  let hear := step (RecognitionResult r transcript) in
  let s' := JS.exec hear s in
  JS.returns hear s = true
  /\ (exists u, last (messages s') = Some u
                /\ role u = USER /\ text u = transcript
                /\ types.attachments u = Some [])
  /\ length (messages s') = S (length (messages s))
  /\ isLoading s' = true
  /\ (exists w, textWaits s' = textWaits s ++ [Some w] /\ isVoiceMode w = true)
  /\ (has_client (service s) ->
      exists req,
        calls (service s') = calls (service s) ++ [SendMessage req]
        /\ geminiService.history req = to_content <$> slice_last 10 (seenMessages rec)
        /\ (transcript <> "" -> message req = [TextPart transcript])
        /\ (transcript = "" -> message req = []))
  /\ (isLoading s = true ->
      forall text attachments, JS.exec (step (Submit text attachments)) s = s).
Proof.
  intros Hr Hcap hear s'.
  set (s0 := upd_recognizers (fun rs => <[r := set_capture Closing rec]> rs) s).
  assert (Hhear : hear s
                  = handleSendMessage_begin (seenMessages rec) transcript [] true s0).
  { unfold hear, step. step_m. rewrite Hr.
    destruct Hcap as [-> | ->]; reflexivity. }
  destruct (handleSendMessage_begin_full (seenMessages rec) transcript [] true s0)
    as (ms1 & ctx & ns1 & call & sv' & Hbegin & Hms1 & _ & Hsend).
  assert (Hs' : s' = snd (hear s)) by reflexivity.
  rewrite Hhear, Hsend in Hs'. cbn [snd] in Hs'.
  unfold JS.returns. rewrite Hhear, Hsend. cbn [fst JS.is_Ok].
  split; [reflexivity|]. clearbody s'. subst s'.
  cbn [messages isLoading textWaits service].
  split; [rewrite last_snoc; eexists; repeat split|].
  split.
  { apply (f_equal length) in Hms1. rewrite !length_fmap in Hms1.
    change (messages s0) with (messages s) in Hms1.
    rewrite length_app, Hms1. cbn [length]. lia. }
  split; [reflexivity|]. split; [eexists; split; reflexivity|]. split.
  - intros Hhas.
    destruct (generateTextResponse_begin_sent transcript [] (seenMessages rec)
                (service s) Hhas (Forall_nil_2 _)) as (sv1 & Hsent & Hcalls).
    cbn zeta in Hsent, Hcalls. change (service s0) with (service s) in Hbegin.
    rewrite Hsent in Hbegin. injection Hbegin as <- <-.
    eexists. split; [exact Hcalls|]. cbn. split; [reflexivity|]. split.
    + intros Hne. apply truthy_nonempty in Hne. rewrite Hne. reflexivity.
    + intros ->. reflexivity.
  - intros Hld text attachments.
    destruct s as [e ms ld rc lg ac act rr sv ns rs tw sw uu ck].
    cbn in Hld. subst ld. unfold_app. unfold InputArea.send_refused.
    rewrite Bool.orb_true_r. reflexivity.
Qed.

(** The theorem at work: a typed message is awaiting its reply when the
    microphone is pressed and a transcript arrives. *)
Lemma transcript_bypasses_input_guard_witness :
  let s := run [Submit "hi" []; PressMic; RecognitionStart 0]
             (mounted Examples.browser) in
  isLoading s = true
  /\ let hear := step (RecognitionResult 0 "and this") in
     let s' := JS.exec hear s in
     JS.returns hear s = true
     /\ (exists u, last (messages s') = Some u
                   /\ role u = USER /\ text u = "and this"
                   /\ types.attachments u = Some [])
     /\ length (messages s') = S (length (messages s))
     /\ isLoading s' = true
     /\ (exists w, textWaits s' = textWaits s ++ [Some w] /\ isVoiceMode w = true)
     /\ (has_client (service s) ->
         exists req,
           calls (service s') = calls (service s) ++ [SendMessage req]
           /\ geminiService.history req = to_content <$> slice_last 10 []
           /\ ("and this" <> "" -> message req = [TextPart "and this"])
           /\ ("and this" = "" -> message req = []))
     /\ (isLoading s = true ->
         forall text attachments, JS.exec (step (Submit text attachments)) s = s).
Proof.
  cbn zeta. split; [vm_compute; reflexivity|].
  apply (transcript_bypasses_input_guard
           (run [Submit "hi" []; PressMic; RecognitionStart 0] (mounted Examples.browser))
           0 {| continuous := false; interimResults := false; lang := "ar-EG";
                capture := Listening; seenMessages := [] |}).
  - vm_compute. reflexivity.
  - left. reflexivity.
Defined.

(** ** Speaking a reply *)

Lemma step_ready_to_speak (ev : Event) (s : State) :
  ready_to_speak s -> ready_to_speak (JS.exec (step ev) s).
Proof.
  destruct s as [e ms ld rc lg ac act rr sv ns rs tw sw uu ck].
  unfold ready_to_speak. cbn. intros Hinv.
  destruct ev; unfold_app; cbn.
  all: split_cases.
  all: try exact Hinv.
  all: try (right; discriminate).
  all: try (destruct Hinv as [-> |Hctx]; [left; reflexivity|right; exact Hctx]).
  all: try (destruct Hinv as [-> |Hctx];
            [match goal with H : [] !! _ = Some _ |- _ =>
               rewrite lookup_nil in H; discriminate H end
            |right; exact Hctx]).
Qed.

(** Every send sets up the audio context before it asks for a reply, so
    the guard at the head of [playResponseAudio] never turns a voice reply
    away: in every state the page reaches, when the reply to a voice-mode
    send arrives, the context exists, the reply is appended already marked
    audible, and its synthesis is asked for (a request goes out when the
    service has a client). *)
Theorem voice_reply_is_always_spoken (e : Env) (evs : list Event) (k : nat)
    (w : TextWait) (answer : Outcome GenerateContentResponse) :
  let s := run evs (mounted e) in
  textWaits s !! k = Some (Some w) ->
  isVoiceMode w = true ->
  let s' := JS.exec (step (TextAnswer k answer)) s in
  audioContextRef s <> None
  /\ (exists a, last (messages s') = Some a
                /\ role a = MODEL
                /\ text a = generateTextResponse_end (textCall w) answer
                /\ isAudioPlaying a = Some true)
  /\ exists sw, speechWaits s' = speechWaits s ++ [Some sw]
                /\ messageId sw = uuids s
                /\ (has_client (service s) ->
                    speechCall sw
                    = SpeechInFlight (speech_request
                                        (generateTextResponse_end (textCall w) answer))).
Proof.
  intros s Hw Hvoice s'.
  assert (Hready : ready_to_speak s).
  { apply run_invariant; [apply step_ready_to_speak|].
    unfold mounted, initial. unfold_app. cbn.
    destruct (hasSpeechRecognition e); left; reflexivity. }
  assert (Hctx : audioContextRef s <> None).
  { destruct Hready as [Hnil|Hctx]; [|exact Hctx].
    rewrite Hnil, lookup_nil in Hw. discriminate Hw. }
  split; [exact Hctx|].
  assert (Hs' : s' = snd (step (TextAnswer k answer) s)) by reflexivity.
  rewrite (text_answer_pending s k w answer Hw), handleSendMessage_end_spec, Hvoice in Hs'.
  set (aiText := generateTextResponse_end (textCall w) answer) in *.
  match type of Hs' with context [playResponseAudio_begin ?t ?i ?st] =>
    pose proof (playResponseAudio_begin_spec t i st) as Hplay;
    assert (Hc : audioContextRef st = audioContextRef s) by reflexivity;
    assert (Hsv : service st = service s) by reflexivity
  end.
  rewrite Hc in Hplay. destruct (audioContextRef s) as [ctx|]; [|contradiction].
  destruct Hplay as (call & sv' & Hbegin & Hplay). rewrite Hplay in Hs'.
  cbn [snd] in Hs'. clearbody s'. subst s'. cbn. split.
  - rewrite set_audible_snoc by reflexivity. rewrite last_snoc.
    eexists. repeat split.
  - eexists. split; [reflexivity|]. split; [reflexivity|].
    intros Hhas. cbn. rewrite Hsv in Hbegin.
    destruct (getAiClient_available (service s) Hhas) as (ai & sv1 & Hai & _).
    unfold generateSpeech_begin in Hbegin. step_m. rewrite Hai in Hbegin.
    cbn in Hbegin. injection Hbegin as <- _. reflexivity.
Qed.

Lemma voice_reply_is_always_spoken_witness :
  let s := run (Examples.say "one") (mounted Examples.browser) in
  let s' := JS.exec (step (TextAnswer 0 (Examples.text_answer "first reply"))) s in
  audioContextRef s <> None
  /\ (exists a, last (messages s') = Some a
                /\ role a = MODEL
                /\ text a = "first reply"
                /\ isAudioPlaying a = Some true)
  /\ exists sw, speechWaits s' = speechWaits s ++ [Some sw]
                /\ messageId sw = uuids s
                /\ (has_client (service s) ->
                    speechCall sw = SpeechInFlight (speech_request "first reply")).
Proof.
  cbn zeta.
  apply (voice_reply_is_always_spoken Examples.browser (Examples.say "one") 0
           {| textCall := TextInFlight
                {| chatModel := "gemini-2.5-flash";
                   systemInstruction := SYSTEM_INSTRUCTION;
                   geminiService.history := [];
                   message := [TextPart "one"] |};
              isVoiceMode := true |}
           (Examples.text_answer "first reply")).
  - vm_compute. reflexivity.
  - reflexivity.
Defined.

(** ** The credential *)

Lemma step_serves (key : string) (ev : Event) (s : State) :
  serves key (service s) -> serves key (service (JS.exec (step ev) s)).
Proof.
  destruct s as [e ms ld rc lg ac act rr sv ns rs tw sw uu ck].
  cbn. intros Hsv.
  destruct ev; unfold_app; cbn.
  all: repeat (first
         [ progress cbn
         | match goal with
           | |- context [generateTextResponse_begin ?t ?a ?h ?x] =>
               let H := fresh "Hserves" in
               destruct (generateTextResponse_begin_serves key t a h x)
                 as (? & ? & -> & H); [assumption|]
           | |- context [generateSpeech_begin ?t ?x] =>
               let H := fresh "Hserves" in
               destruct (generateSpeech_begin_serves key t x)
                 as (? & ? & -> & H); [assumption|]
           end
         | split_match ]).
  all: assumption.
Qed.

(** In every state the page reaches, the service holds the credential
    the page was built with; a client, once made, carries that credential,
    which is then not empty; no request has gone out without a client; and
    with no credential there is no client and nothing has been sent. *)
Theorem client_carries_credential (e : Env) (evs : list Event) :
  let sv := service (run evs (mounted e)) in
  API_KEY sv = credential e
  /\ (forall ai, aiInstance sv = Some ai ->
        apiKey ai = credential e /\ credential e <> "")
  /\ (calls sv <> [] -> aiInstance sv <> None)
  /\ (credential e = "" -> aiInstance sv = None /\ calls sv = []).
Proof.
  cbn zeta.
  assert (Hsv : serves (credential e) (service (run evs (mounted e)))).
  { apply (run_invariant (fun s => serves (credential e) (service s))).
    - intros ev s. apply step_serves.
    - unfold mounted, initial. unfold_app. cbn.
      destruct (hasSpeechRecognition e); cbn; unfold serves; cbn;
        (split; [reflexivity|split; [intros ai [=]|intros H; contradiction]]). }
  destruct Hsv as (Hkey & Hai & Hsent).
  split; [exact Hkey|]. split; [exact Hai|]. split; [exact Hsent|].
  intros Hempty.
  assert (Hnone : aiInstance (service (run evs (mounted e))) = None).
  { destruct (aiInstance _) as [ai|] eqn:E; [|reflexivity].
    destruct (Hai ai eq_refl) as [_ Hne]. contradiction. }
  split; [exact Hnone|].
  destruct (calls _) as [|c cs] eqn:E; [reflexivity|].
  exfalso. apply Hsent; [discriminate|exact Hnone].
Qed.

(** ** The language button *)

Lemma setupRecognition_spec (s : State) :
  exists rs',
    length rs' = length (recognizers s)
    /\ setupRecognition s
       = (Ok tt,
          if hasSpeechRecognition (env s)
          then upd_recognitionRef (fun _ => Some (length rs'))
                 (upd_recognizers
                    (fun _ => rs' ++ [ {| continuous := false; interimResults := false;
                                          lang := lang_tag (language s);
                                          capture := Idle;
                                          seenMessages := messages s |} ])
                    s)
          else upd_recognizers (fun _ => rs') s).
Proof.
  destruct s as [e ms ld rc lg ac act rr sv ns rs tw sw uu ck].
  unfold_app. unfold recognition_abort. cbn.
  destruct rr as [i|]; cbn.
  - destruct (rs !! i) as [r|] eqn:Hr; cbn.
    + destruct (capture r); cbn; destruct (hasSpeechRecognition e); cbn;
        eexists; (split; [|destruct lg; reflexivity]); rewrite ?length_insert; reflexivity.
    + destruct (hasSpeechRecognition e); cbn;
        eexists; (split; [|destruct lg; reflexivity]); reflexivity.
  - destruct (hasSpeechRecognition e); cbn;
      eexists; (split; [|destruct lg; reflexivity]); reflexivity.
Qed.

Lemma toggleLanguage_spec (s : State) :
  exists rs',
    length rs' = length (recognizers s)
    /\ toggleLanguage s
       = (Ok tt,
          upd_language (fun prev => match prev with ar => en | en => ar end)
            (upd_isRecording (fun _ => false) (upd_recognizers (fun _ => rs') s))).
Proof.
  destruct s as [e ms ld rc lg ac act rr sv ns rs tw sw uu ck].
  unfold_app. unfold recognition_stop. cbn.
  destruct rc; cbn; [|exists rs; split; reflexivity].
  destruct rr as [i|]; cbn; [|exists rs; split; reflexivity].
  destruct (rs !! i) as [r|] eqn:Hr; cbn; [|exists rs; split; reflexivity].
  destruct (capture r); cbn; eexists; (split; [|reflexivity]);
    rewrite ?length_insert; reflexivity.
Qed.

(** A press of the language button, in any state: the handler returns;
    the language flips, and a second press flips it back; the page shows no
    recording afterwards; messages, loading and playback are untouched;
    and with speech capture a new recognition object is in place, idle, for
    the new language, made with the messages the page holds at that
    moment. *)
Theorem language_switch_ends_recording (s : State) :
  let switch := step PressLanguage in
  let s1 := JS.exec switch s in
  JS.returns switch s = true
  /\ language s1 = match language s with ar => en | en => ar end
  /\ language (JS.exec switch s1) = language s
  /\ isRecording s1 = false
  /\ messages s1 = messages s
  /\ isLoading s1 = isLoading s
  /\ activeAudioSourceRef s1 = activeAudioSourceRef s
  /\ sources s1 = sources s
  /\ (hasSpeechRecognition (env s) = true ->
      recognitionRef s1 = Some (length (recognizers s))
      /\ recognizers s1 !! length (recognizers s)
         = Some {| continuous := false; interimResults := false;
                   lang := lang_tag (language s1); capture := Idle;
                   seenMessages := messages s |})
  /\ (hasSpeechRecognition (env s) = false -> recognitionRef s1 = recognitionRef s).
Proof.
  intros switch s1.
  assert (Hstep : forall s0, exists rs',
            length rs' = length (recognizers s0)
            /\ switch s0
               = (Ok tt,
                  let s' := upd_language (fun prev => match prev with ar => en | en => ar end)
                              (upd_isRecording (fun _ => false)
                                 (upd_recognizers (fun _ => rs') s0)) in
                  if hasSpeechRecognition (env s0)
                  then upd_recognitionRef (fun _ => Some (length rs'))
                         (upd_recognizers
                            (fun _ => rs' ++ [ {| continuous := false;
                                                  interimResults := false;
                                                  lang := lang_tag (language s');
                                                  capture := Idle;
                                                  seenMessages := messages s0 |} ])
                            s')
                  else s')).
  { intros s0. destruct (toggleLanguage_spec s0) as (rs1 & Hlen1 & Htoggle).
    match type of Htoggle with _ = (_, ?st) =>
      destruct (setupRecognition_spec st) as (rs2 & Hlen2 & Hsetup) end.
    exists rs2. split; [cbn in Hlen2; lia|].
    unfold switch, step. step_m. rewrite Htoggle, Hsetup.
    destruct s0; cbn. destruct (hasSpeechRecognition _); reflexivity. }
  destruct (Hstep s) as (rs' & Hlen & Hs).
  assert (Hs1 : s1 = snd (switch s)) by reflexivity. rewrite Hs in Hs1. cbn [snd] in Hs1.
  unfold JS.returns. rewrite Hs. cbn [fst JS.is_Ok]. split; [reflexivity|].
  assert (Hlang : forall s0, language (JS.exec switch s0)
                             = match language s0 with ar => en | en => ar end).
  { intros s0. destruct (Hstep s0) as (rs0 & _ & H0). unfold JS.exec. rewrite H0.
    cbn. destruct (hasSpeechRecognition (env s0)); reflexivity. }
  split; [apply Hlang|]. split; [rewrite Hlang; unfold s1; rewrite (Hlang s); destruct (language s); reflexivity|].
  clearbody s1. subst s1. cbn.
  destruct (hasSpeechRecognition (env s)) eqn:Hcap; cbn;
    repeat (split; [reflexivity|]); (split; [|intros; try discriminate; reflexivity]).
  - intros _. rewrite Hlen. split; [reflexivity|].
    rewrite <- Hlen. apply list_lookup_middle. reflexivity.
  - intros [=].
Qed.

End Handlers.

(* ================================================================== *)
(** * The input area and the page *)
(* ================================================================== *)

Module PageFacts.
Import App Terms Decoding Requests Handlers.

#[local] Arguments set_audible : simpl never.

(** ** Removing an attachment *)

Lemma filter_from_delete {A} (index i : nat) (xs : list A) :
  Draft.filter_from (fun _ j => negb (j =? index)) i xs
  = if decide (i <= index) then delete (index - i) xs else xs.
Proof.
  revert i. induction xs as [|x rest IH]; intros i.
  - destruct (decide (i <= index)); reflexivity.
  - cbn [Draft.filter_from]. rewrite IH.
    destruct (Nat.eqb_spec i index) as [->|Hne]; cbn [negb].
    + rewrite decide_False by lia. rewrite decide_True by lia.
      rewrite Nat.sub_diag. reflexivity.
    + destruct (decide (i <= index)) as [Hle|Hgt].
      * rewrite decide_True by lia.
        replace (index - i) with (S (index - S i)) by lia. reflexivity.
      * rewrite decide_False by lia. reflexivity.
Qed.

Lemma removeAttachment_delete (index : nat) (l : Draft.Local) :
  Draft.attachments (Draft.removeAttachment index l)
  = delete index (Draft.attachments l).
Proof.
  unfold Draft.removeAttachment, Draft.Array_filter. cbn.
  rewrite filter_from_delete, decide_True by lia. rewrite Nat.sub_0_r. reflexivity.
Qed.

(** A file the input area takes: an image, or a PDF. *)
Lemma handleFileSelect_takes (createObjectURL : File -> string) (file : File)
    (rest : list File) (l : Draft.Local) :
  String.prefix "image/" (fileType file) = true
  \/ fileType file = "application/pdf" ->
  exists kind,
    Draft.handleFileSelect createObjectURL (file :: rest) l
    = {| Draft.text := Draft.text l;
         Draft.attachments :=
           Draft.attachments l
           ++ [ {| types.file := file; previewUrl := createObjectURL file;
                   type := kind; base64 := None |} ];
         Draft.fileInputValue := "" |}
    /\ well_typed {| types.file := file; previewUrl := createObjectURL file;
                     type := kind; base64 := None |}.
Proof.
  intros Hkind. unfold Draft.handleFileSelect.
  destruct (String.prefix "image/" (fileType file)) eqn:Himg.
  - exists image. split; [reflexivity|exact Himg].
  - destruct Hkind as [Hi|Hpdf]; [discriminate|].
    exists pdf. rewrite Hpdf. split; [reflexivity|exact Hpdf].
Qed.

(** [removeAttachment] takes out the attachment at the index and nothing
    else: the others keep their order, the text and the file input are
    untouched; an index past the end changes nothing; and removing the
    last index right after a file was taken gives back the attachments
    there were.  Of the files of one selection only the first is taken, and
    only if it is an image or a PDF; any other file leaves the component
    as it was. *)
Theorem removeAttachment_deletes_one (index : nat) (l : Draft.Local) :
  Draft.attachments (Draft.removeAttachment index l)
  = take index (Draft.attachments l) ++ drop (S index) (Draft.attachments l)
  /\ Draft.text (Draft.removeAttachment index l) = Draft.text l
  /\ Draft.fileInputValue (Draft.removeAttachment index l) = Draft.fileInputValue l
  /\ (index < length (Draft.attachments l) ->
      S (length (Draft.attachments (Draft.removeAttachment index l)))
      = length (Draft.attachments l))
  /\ (length (Draft.attachments l) <= index -> Draft.removeAttachment index l = l)
  /\ (forall createObjectURL file rest,
        String.prefix "image/" (fileType file) = true
        \/ fileType file = "application/pdf" ->
        let l1 := Draft.handleFileSelect createObjectURL (file :: rest) l in
        length (Draft.attachments l1) = S (length (Draft.attachments l))
        /\ Draft.attachments
             (Draft.removeAttachment (length (Draft.attachments l)) l1)
           = Draft.attachments l)
  /\ (forall createObjectURL file rest,
        String.prefix "image/" (fileType file) = false ->
        fileType file <> "application/pdf" ->
        Draft.handleFileSelect createObjectURL (file :: rest) l = l).
Proof.
  split; [rewrite removeAttachment_delete; apply delete_take_drop|].
  split; [reflexivity|]. split; [reflexivity|]. split; [|split; [|split]].
  - intros Hlt. rewrite removeAttachment_delete, length_delete; [lia|].
    apply lookup_lt_is_Some. exact Hlt.
  - intros Hge. destruct l as [t atts v].
    unfold Draft.removeAttachment, Draft.setAttachments, Draft.Array_filter. cbn in *.
    f_equal. rewrite filter_from_delete, decide_True by lia.
    rewrite Nat.sub_0_r, delete_take_drop.
    rewrite take_ge by lia. rewrite drop_ge by lia. apply app_nil_r.
  - intros createObjectURL file rest Hkind l1.
    destruct (handleFileSelect_takes createObjectURL file rest l Hkind)
      as (kind & Hl1 & _).
    unfold l1. rewrite Hl1, removeAttachment_delete. cbn [Draft.attachments].
    split; [rewrite length_app; cbn; lia|].
    rewrite (delete_middle (Draft.attachments l) []). apply app_nil_r.
  - intros createObjectURL file rest Himg Hpdf. unfold Draft.handleFileSelect.
    rewrite Himg. destruct (String.eqb_spec (fileType file) "application/pdf");
      [contradiction|reflexivity].
Qed.

(** ** The input area drives the session *)

Lemma handleSend_submits (p : Page.State) :
  let l := Page.input p in
  let s := Page.app p in
  exists s',
    JS.exec (step (Submit (Draft.text l) (Draft.attachments l))) s = s'
    /\ Draft.handleSend (Page.onSendMessage p) (isLoading s) l s
       = (Ok (if InputArea.send_refused (Draft.text l) (Draft.attachments l) (isLoading s)
              then l
              else Draft.setAttachments (fun _ => []) (Draft.setText "" l)),
          s').
Proof.
  cbn zeta. eexists. split; [reflexivity|].
  unfold Draft.handleSend, Page.onSendMessage, step, InputArea.handleSend, JS.exec.
  step_m. cbn.
  destruct (InputArea.send_refused _ _ _); [reflexivity|].
  destruct (handleSendMessage_begin_spec (messages (Page.app p))
              (Draft.text (Page.input p)) (Draft.attachments (Page.input p)) false
              (Page.app p))
    as (s1 & call & sv' & _ & _ & _ & _ & _ & _ & _ & _ & ->).
  reflexivity.
Qed.

Lemma page_step_app (ev : Page.Event) (p : Page.State) :
  exists evs,
    Page.app (Page.step ev p) = run evs (Page.app p)
    /\ Forall (caused_by p) evs.
Proof.
  destruct (handleSend_submits p) as (s' & Hsubmit & Hsend). cbn zeta in *.
  destruct ev; cbn [Page.step].
  - destruct (Draft.textarea_disabled _ _); exists []; split; (reflexivity || constructor).
  - destruct (Draft.textarea_disabled _ _); [exists []; split; (reflexivity || constructor)|].
    unfold Page.on_both, Draft.handleKeyDown. step_m.
    destruct (_ && _)%bool.
    + rewrite Hsend. cbn.
      exists [Submit (Draft.text (Page.input p)) (Draft.attachments (Page.input p))].
      split; [symmetry; exact Hsubmit|]. repeat constructor.
    + exists []. split; (reflexivity || constructor).
  - destruct (_ && _)%bool; [|exists []; split; (reflexivity || constructor)].
    unfold Page.on_both. rewrite Hsend. cbn.
    exists [Submit (Draft.text (Page.input p)) (Draft.attachments (Page.input p))].
    split; [symmetry; exact Hsubmit|]. repeat constructor.
  - destruct (Draft.shows_send _); [exists []; split; (reflexivity || constructor)|].
    exists [PressMic]. split; [reflexivity|repeat constructor].
  - destruct (Draft.attach_disabled _ _); exists []; split; (reflexivity || constructor).
  - exists []. split; (reflexivity || constructor).
  - exists [PressLanguage]. split; [reflexivity|repeat constructor].
  - destruct ev; try (exists []; split; (reflexivity || constructor));
      eexists [_]; (split; [reflexivity|repeat constructor]).
Qed.

(** ** Files *)

Lemma parts_allowed (atts : list Attachment) (parts : list Part) :
  Forall well_typed atts ->
  mapM (M := Outcome) (fun att => fileToGenerativePart (file att)) atts = Ok parts ->
  Forall allowed_part parts.
Proof.
  intros Hatts. revert parts.
  induction Hatts as [|att atts Hatt _ IH]; intros parts Hparts.
  - injection Hparts as <-. constructor.
  - rewrite mapM_cons in Hparts.
    destruct (fileToGenerativePart (file att)) as [part|e] eqn:Hpart; [|discriminate].
    destruct (mapM _ atts) as [rest|e]; [|discriminate].
    injection Hparts as <-. constructor; [|apply IH; reflexivity].
    unfold fileToGenerativePart in Hpart.
    destruct (dataURL (file att)); [|discriminate]. injection Hpart as <-.
    unfold well_typed in Hatt. cbn. destruct (type att); auto.
Qed.

Lemma generateTextResponse_begin_allowed (currentMessage : string)
    (attachments : list Attachment) (history : list Message) (sv : Service) :
  Forall well_typed attachments -> Forall allowed_call (calls sv) ->
  exists call sv',
    generateTextResponse_begin currentMessage attachments history sv = (Ok call, sv')
    /\ Forall allowed_call (calls sv').
Proof.
  intros Hatts Hcalls. unfold generateTextResponse_begin, prepare_chat. step_m.
  destruct (getAiClient_cases sv) as [(ai & sv1 & -> & _ & Hsame & _)|(-> & _)].
  - destruct (mapM _ attachments) as [fileParts|e] eqn:Hparts; cbn.
    + eexists _, _. split; [reflexivity|]. cbn. rewrite Hsame.
      apply Forall_app. split; [exact Hcalls|]. constructor; [|constructor].
      cbn. apply Forall_app. split.
      * destruct (truthy currentMessage); repeat constructor.
      * exact (parts_allowed attachments fileParts Hatts Hparts).
    + eexists _, _. split; [reflexivity|]. cbn. rewrite Hsame. exact Hcalls.
  - eexists _, _. split; [reflexivity|exact Hcalls].
Qed.

Lemma generateSpeech_begin_allowed (text : string) (sv : Service) :
  Forall allowed_call (calls sv) ->
  exists call sv',
    generateSpeech_begin text sv = (Ok call, sv')
    /\ Forall allowed_call (calls sv').
Proof.
  intros Hcalls. unfold generateSpeech_begin. step_m.
  destruct (getAiClient_cases sv) as [(ai & sv1 & -> & _ & Hsame & _)|(-> & _)].
  - eexists _, _. split; [reflexivity|]. cbn. rewrite Hsame.
    apply Forall_app. split; [exact Hcalls|]. repeat constructor.
  - eexists _, _. split; [reflexivity|exact Hcalls].
Qed.

Lemma shown_cleared (ms : list Message) :
  shown_in_order ms -> shown_in_order (with_isAudioPlaying false <$> ms).
Proof.
  intros H. apply Forall_fmap. eapply Forall_impl; [exact H|]. intros m Hm. exact Hm.
Qed.

Lemma shown_set_audible (messageId : Id) (b : bool) (ms : list Message) :
  shown_in_order ms -> shown_in_order (set_audible messageId b ms).
Proof.
  intros H. unfold set_audible. apply Forall_fmap.
  eapply Forall_impl; [exact H|]. intros m Hm. cbn.
  destruct (bool_decide _); exact Hm.
Qed.

Ltac shown_goal :=
  unfold shown_in_order in *;
  repeat match goal with
  | |- _ /\ _ => split
  | |- shown_in_order _ => unfold shown_in_order
  | |- Forall _ (_ ++ _) => apply Forall_app; split
  | |- Forall _ [_] => apply Forall_singleton; cbn; first [assumption|constructor]
  | |- Forall _ (with_isAudioPlaying false <$> _) => apply shown_cleared
  | |- Forall _ (set_audible _ _ _) => apply shown_set_audible
  | |- Forall _ _ => assumption
  end.

Lemma app_step_files (ev : Event) (s : State) :
  match ev with
  | Submit _ attachments => Forall well_typed attachments
  | _ => True
  end ->
  shown_in_order (messages s) /\ Forall allowed_call (calls (service s)) ->
  let s' := JS.exec (step ev) s in
  shown_in_order (messages s') /\ Forall allowed_call (calls (service s')).
Proof.
  destruct s as [e ms ld rc lg ac act rr sv ns rs tw sw uu ck].
  cbn. intros Hev [Hms Hcalls].
  destruct ev; unfold_app; cbn.
  all: repeat (first
         [ progress cbn
         | match goal with
           | |- context [generateTextResponse_begin ?t ?a ?h ?x] =>
               let H := fresh "Hallowed" in
               destruct (generateTextResponse_begin_allowed t a h x)
                 as (? & ? & -> & H); [first [assumption|constructor]|assumption|]
           | |- context [generateSpeech_begin ?t ?x] =>
               let H := fresh "Hallowed" in
               destruct (generateSpeech_begin_allowed t x)
                 as (? & ? & -> & H); [assumption|]
           end
         | split_match ]).
  all: shown_goal.
Qed.

Lemma app_run_files (evs : list Event) (s : State) :
  Forall typed_submit evs ->
  shown_in_order (messages s) /\ Forall allowed_call (calls (service s)) ->
  shown_in_order (messages (run evs s))
  /\ Forall allowed_call (calls (service (run evs s))).
Proof.
  intros Hevs. revert s. induction Hevs as [|ev evs Hev _ IH]; intros s Hs; [exact Hs|].
  cbn. apply IH. apply (app_step_files ev s Hev Hs).
Qed.

Lemma draft_step (ev : Page.Event) (p : Page.State) :
  Forall well_typed (Draft.attachments (Page.input p)) ->
  Forall well_typed (Draft.attachments (Page.input (Page.step ev p))).
Proof.
  intros Hatts.
  destruct (handleSend_submits p) as (s' & _ & Hsend). cbn zeta in *.
  destruct ev as [v|k| | |files value url|i| |ev]; cbn [Page.step].
  - destruct (Draft.textarea_disabled _ _); exact Hatts.
  - destruct (Draft.textarea_disabled _ _); [exact Hatts|].
    unfold Page.on_both, Draft.handleKeyDown. step_m.
    destruct (_ && _)%bool; [|exact Hatts].
    rewrite Hsend. cbn. destruct (InputArea.send_refused _ _ _); [exact Hatts|constructor].
  - destruct (_ && _)%bool; [|exact Hatts].
    unfold Page.on_both. rewrite Hsend. cbn.
    destruct (InputArea.send_refused _ _ _); [exact Hatts|constructor].
  - destruct (Draft.shows_send _); exact Hatts.
  - destruct (Draft.attach_disabled _ _); [exact Hatts|]. cbn.
    destruct files as [|file rest]; [exact Hatts|].
    destruct (String.prefix "image/" (fileType file)) eqn:Himg.
    + destruct (handleFileSelect_takes (fun _ => url) file rest
                  (Draft.set_fileInputValue value (Page.input p)) (or_introl Himg))
        as (kind & -> & Hkind).
      cbn. apply Forall_app. split; [exact Hatts|]. constructor; [exact Hkind|constructor].
    + destruct (String.eqb_spec (fileType file) "application/pdf") as [Hpdf|Hpdf].
      * destruct (handleFileSelect_takes (fun _ => url) file rest
                    (Draft.set_fileInputValue value (Page.input p)) (or_intror Hpdf))
          as (kind & -> & Hkind).
        cbn. apply Forall_app. split; [exact Hatts|].
        constructor; [exact Hkind|constructor].
      * unfold Draft.handleFileSelect. rewrite Himg.
        destruct (String.eqb_spec (fileType file) "application/pdf");
          [contradiction|exact Hatts].
  - cbn [Page.with_input Page.input]. rewrite removeAttachment_delete.
    rewrite delete_take_drop. apply Forall_app. split.
    + apply Forall_take, Hatts.
    + apply Forall_drop, Hatts.
  - exact Hatts.
  - destruct ev; exact Hatts.
Qed.

Lemma page_step_files (ev : Page.Event) (p : Page.State) :
  files_in_order p -> files_in_order (Page.step ev p).
Proof.
  intros (Hdraft & Hshown & Hcalls). split; [apply draft_step, Hdraft|].
  destruct (page_step_app ev p) as (evs & -> & Hevs).
  apply app_run_files; [|split; assumption].
  eapply Forall_impl; [exact Hevs|].
  intros [] Hev; cbn in *; try exact I. destruct Hev as [_ ->]. exact Hdraft.
Qed.

Lemma page_run_files (uevs : list Page.Event) (p : Page.State) :
  files_in_order p -> files_in_order (Page.run uevs p).
Proof.
  revert p. induction uevs as [|ev uevs IH]; intros p Hp; [exact Hp|].
  cbn. apply IH, page_step_files, Hp.
Qed.

Lemma initial_files (e : Env) : files_in_order (Page.initial e).
Proof.
  unfold files_in_order, Page.initial, mounted, initial. unfold_app. cbn.
  destruct (hasSpeechRecognition e); cbn; repeat split; constructor.
Qed.

(** Whatever the user does with the page, the attachments of the draft
    and of every message shown fit their files (an image has a type that
    starts with [image/], a PDF the type [application/pdf]), and no request
    that went out carries a file part of another type: nothing but images
    and PDFs is ever sent. *)
Theorem only_images_and_pdfs_are_sent (e : Env) (uevs : list Page.Event) :
  let p := Page.run uevs (Page.initial e) in
  Forall well_typed (Draft.attachments (Page.input p))
  /\ (forall m att,
        m ∈ messages (Page.app p) -> att ∈ shown_attachments m -> well_typed att)
  /\ forall req data mimeType,
       SendMessage req ∈ calls (service (Page.app p)) ->
       InlineDataPart data mimeType ∈ message req ->
       String.prefix "image/" mimeType = true \/ mimeType = "application/pdf".
Proof.
  cbn zeta.
  destruct (page_run_files uevs (Page.initial e) (initial_files e))
    as (Hdraft & Hshown & Hcalls).
  split; [exact Hdraft|]. split.
  - intros m att Hm Hatt. unfold shown_in_order in Hshown.
    rewrite Forall_forall in Hshown. specialize (Hshown m Hm).
    rewrite Forall_forall in Hshown. exact (Hshown att Hatt).
  - intros req data mimeType Hreq Hpart.
    rewrite Forall_forall in Hcalls. specialize (Hcalls _ Hreq). cbn in Hcalls.
    rewrite Forall_forall in Hcalls. exact (Hcalls _ Hpart).
Qed.

(** What the input area can do to the session is what the events of the
    session already do: after any use of the page, the root component is
    in a state it reaches from its mounted state by session events, the
    sends among them carrying attachments that fit their files.  So what
    holds in every state the session reaches holds in every state of the
    page. *)
Theorem page_run_is_session_run (e : Env) (uevs : list Page.Event) :
  exists evs,
    Page.app (Page.run uevs (Page.initial e)) = run evs (mounted e)
    /\ Forall typed_submit evs.
Proof.
  assert (Hgen : forall p, files_in_order p ->
            exists evs, Page.app (Page.run uevs p) = run evs (Page.app p)
                        /\ Forall typed_submit evs).
  { induction uevs as [|ev uevs IH]; intros p Hp.
    - exists []. split; [reflexivity|constructor].
    - destruct (page_step_app ev p) as (evs1 & Hstep & Hcaused).
      destruct (IH (Page.step ev p) (page_step_files ev p Hp)) as (evs2 & Hrun & Htyped).
      exists (evs1 ++ evs2). split.
      + cbn [Page.run foldl]. fold (Page.run uevs (Page.step ev p)).
        rewrite Hrun, Hstep. unfold run. rewrite foldl_app. reflexivity.
      + apply Forall_app. split; [|exact Htyped].
        eapply Forall_impl; [exact Hcaused|].
        intros [] Hev; cbn in *; try exact I. destruct Hev as [_ ->].
        destruct Hp as [Hdraft _]. exact Hdraft. }
  apply (Hgen (Page.initial e) (initial_files e)).
Qed.

Lemma shown_send_is_accepted (l : Draft.Local) :
  Draft.shows_send l = true ->
  InputArea.send_refused (Draft.text l) (Draft.attachments l) false = false.
Proof.
  unfold Draft.shows_send, InputArea.send_refused.
  destruct (InputArea.is_blank (Draft.text l)); [|reflexivity].
  destruct (Draft.attachments l); [discriminate|reflexivity].
Qed.

(** A click on the send button, shown and enabled, sends the draft and
    clears it: the text and the attachments go out in a user message,
    loading is on, the microphone button is back in place of the send
    button; the Enter key without Shift does the same as the click.  Until
    the reply arrives the text box, the keys, the send handler and the
    file picker do nothing, so a second Enter sends nothing. *)
Theorem send_clears_and_locks (p : Page.State) :
  Draft.shows_send (Page.input p) = true ->
  isLoading (Page.app p) = false ->
  let p1 := Page.step Page.ClickSend p in
  Page.input p1
  = {| Draft.text := ""; Draft.attachments := [];
       Draft.fileInputValue := Draft.fileInputValue (Page.input p) |}
  /\ Draft.shows_send (Page.input p1) = false
  /\ isLoading (Page.app p1) = true
  /\ (exists u, last (messages (Page.app p1)) = Some u
                /\ role u = USER
                /\ text u = Draft.text (Page.input p)
                /\ types.attachments u = Some (Draft.attachments (Page.input p)))
  /\ (isRecording (Page.app p) = false ->
      Page.step (Page.KeyDown {| Draft.key := "Enter"; Draft.shiftKey := false |}) p
      = p1)
  /\ forall value k files fileValue url,
       Page.step (Page.Edit value) p1 = p1
       /\ Page.step (Page.KeyDown k) p1 = p1
       /\ Page.step Page.ClickSend p1 = p1
       /\ Page.step (Page.PickFiles files fileValue url) p1 = p1.
Proof.
  intros Hshown Hidle p1.
  pose proof (shown_send_is_accepted _ Hshown) as Haccepted.
  destruct (handleSendMessage_begin_full (messages (Page.app p))
              (Draft.text (Page.input p)) (Draft.attachments (Page.input p)) false
              (Page.app p))
    as (ms1 & ctx & ns1 & call & sv' & _ & _ & _ & Hsend).
  assert (Hrun : Draft.handleSend (Page.onSendMessage p) false (Page.input p) (Page.app p)
                 = (Ok (Draft.setAttachments (fun _ => []) (Draft.setText "" (Page.input p))),
                    snd (handleSendMessage_begin (messages (Page.app p))
                           (Draft.text (Page.input p))
                           (Draft.attachments (Page.input p)) false (Page.app p)))).
  { unfold Draft.handleSend, Page.onSendMessage. rewrite Haccepted. step_m.
    rewrite Hsend. reflexivity. }
  assert (Hp1 : p1 = {| Page.app := snd (handleSendMessage_begin (messages (Page.app p))
                                          (Draft.text (Page.input p))
                                          (Draft.attachments (Page.input p)) false
                                          (Page.app p));
                        Page.input := Draft.setAttachments (fun _ => [])
                                        (Draft.setText "" (Page.input p)) |}).
  { unfold p1. cbn [Page.step]. rewrite Hshown, Hidle. cbn [andb negb Draft.send_disabled].
    unfold Page.on_both. rewrite Hrun. reflexivity. }
  rewrite Hsend in Hp1. cbn [snd] in Hp1.
  split; [rewrite Hp1; reflexivity|]. split; [rewrite Hp1; reflexivity|].
  split; [rewrite Hp1; reflexivity|]. split.
  { rewrite Hp1. cbn. rewrite last_snoc. eexists. repeat split. }
  split.
  { intros Hrec. cbn [Page.step]. rewrite Hidle, Hrec.
    cbn [Draft.textarea_disabled orb]. unfold Page.on_both, Draft.handleKeyDown.
    step_m. cbn [Draft.key Draft.shiftKey String.eqb Ascii.eqb Bool.eqb andb negb].
    rewrite Hrun. cbn. rewrite Hsend. cbn [snd].
    symmetry. exact Hp1. }
  intros value k files fileValue url. clearbody p1. subst p1.
  cbn [Page.step Page.app Page.input isLoading Draft.textarea_disabled
       Draft.attach_disabled Draft.send_disabled orb andb negb].
  rewrite Bool.andb_false_r. repeat split.
Qed.

(** The theorem at work: "hi" is typed into the fresh page and sent. *)
Lemma send_clears_and_locks_witness :
  let p := Page.run [Page.Edit "hi"] (Page.initial Examples.browser) in
  let p1 := Page.step Page.ClickSend p in
  Draft.text (Page.input p) = "hi"
  /\ (text <$> messages (Page.app p1)) = ["hi"]
  /\ Page.input p1
     = {| Draft.text := ""; Draft.attachments := [];
          Draft.fileInputValue := Draft.fileInputValue (Page.input p) |}
  /\ Draft.shows_send (Page.input p1) = false
  /\ isLoading (Page.app p1) = true
  /\ (exists u, last (messages (Page.app p1)) = Some u
                /\ role u = USER
                /\ text u = Draft.text (Page.input p)
                /\ types.attachments u = Some (Draft.attachments (Page.input p)))
  /\ (isRecording (Page.app p) = false ->
      Page.step (Page.KeyDown {| Draft.key := "Enter"; Draft.shiftKey := false |}) p
      = p1)
  /\ forall value k files fileValue url,
       Page.step (Page.Edit value) p1 = p1
       /\ Page.step (Page.KeyDown k) p1 = p1
       /\ Page.step Page.ClickSend p1 = p1
       /\ Page.step (Page.PickFiles files fileValue url) p1 = p1.
Proof.
  cbn zeta. split; [reflexivity|]. split; [vm_compute; reflexivity|].
  apply (send_clears_and_locks (Page.run [Page.Edit "hi"] (Page.initial Examples.browser))).
  - vm_compute. reflexivity.
  - reflexivity.
Defined.

(** ** The history a send carries *)

Lemma grown_calls {A} (xs : list A) (x : A) : xs <> xs ++ [x].
Proof.
  intros H. apply (f_equal length) in H. rewrite length_app in H. cbn in H. lia.
Qed.

(** A request that a send makes carries the last [min n 10] of the [n]
    messages held by the closure [handleSendMessage] was called from, in
    their order.  A send from the input area, as an event of the session
    and as a click on the send button or a key in the text box of the page,
    is made from the render on screen: its request carries the last ten of
    the messages the page holds at that moment. *)
Theorem send_carries_recent_history :
  (forall (s : State) closedOver text attachments voice req,
     calls (service (JS.exec (handleSendMessage_begin closedOver text attachments voice) s))
     = calls (service s) ++ [SendMessage req] ->
     geminiService.history req = to_content <$> slice_last 10 closedOver
     /\ length (geminiService.history req) = min (length closedOver) 10
     /\ slice_last 10 closedOver `suffix_of` closedOver)
  /\ (forall (s : State) text attachments req,
        calls (service (JS.exec (step (Submit text attachments)) s))
        = calls (service s) ++ [SendMessage req] ->
        geminiService.history req = to_content <$> slice_last 10 (messages s)
        /\ length (geminiService.history req) = min (length (messages s)) 10
        /\ slice_last 10 (messages s) `suffix_of` messages s)
  /\ (forall (p : Page.State) ev req,
        ev = Page.ClickSend \/ (exists k, ev = Page.KeyDown k) ->
        calls (service (Page.app (Page.step ev p)))
        = calls (service (Page.app p)) ++ [SendMessage req] ->
        geminiService.history req
        = to_content <$> slice_last 10 (messages (Page.app p))
        /\ length (geminiService.history req) = min (length (messages (Page.app p))) 10
        /\ slice_last 10 (messages (Page.app p)) `suffix_of` messages (Page.app p)).
Proof.
  assert (Hclosure : forall (s : State) closedOver text attachments voice req,
            calls (service (JS.exec (handleSendMessage_begin closedOver text attachments
                                       voice) s))
            = calls (service s) ++ [SendMessage req] ->
            geminiService.history req = to_content <$> slice_last 10 closedOver
            /\ length (geminiService.history req) = min (length closedOver) 10
            /\ slice_last 10 closedOver `suffix_of` closedOver).
  { intros s closedOver text attachments voice req Hcalls.
    destruct (handleSendMessage_begin_spec closedOver text attachments voice s)
      as (s1 & call & sv' & _ & _ & _ & _ & _ & _ & _ & Hbegin & Hsend).
    destruct (generateTextResponse_begin_spec text attachments closedOver (service s))
      as (call' & sv'' & Hbegin' & _ & Hcall).
    rewrite Hbegin in Hbegin'. injection Hbegin' as <- <-.
    unfold JS.exec in Hcalls. rewrite Hsend in Hcalls. cbn in Hcalls.
    destruct call as [r|req0].
    - destruct Hcall as [_ Hsame]. rewrite Hsame in Hcalls.
      destruct (grown_calls _ _ Hcalls).
    - destruct Hcall as (Hsent & Hhist & _). rewrite Hsent in Hcalls.
      apply app_inj_tail in Hcalls as [_ [= ->]].
      rewrite Hhist. split; [reflexivity|].
      split; [rewrite length_fmap; apply Claims.slice_last_length
             |apply Claims.slice_last_suffix]. }
  assert (Hsubmit : forall (s : State) text attachments req,
            calls (service (JS.exec (step (Submit text attachments)) s))
            = calls (service s) ++ [SendMessage req] ->
            geminiService.history req = to_content <$> slice_last 10 (messages s)
            /\ length (geminiService.history req) = min (length (messages s)) 10
            /\ slice_last 10 (messages s) `suffix_of` messages s).
  { intros s text attachments req Hcalls.
    apply (Hclosure s (messages s) text attachments false req).
    rewrite <- Hcalls. f_equal. f_equal.
    unfold step, InputArea.handleSend, JS.exec in *. step_m. cbn in *.
    destruct (InputArea.send_refused _ _ _); [|reflexivity].
    cbn in Hcalls. destruct (grown_calls _ _ Hcalls). }
  split; [exact Hclosure|]. split; [exact Hsubmit|].
  intros p ev req Hev Hcalls.
  destruct (handleSend_submits p) as (s' & Hstep & Hsend). cbn zeta in *.
  assert (Hcases : Page.app (Page.step ev p) = Page.app p
                   \/ Page.app (Page.step ev p)
                      = JS.exec (step (Submit (Draft.text (Page.input p))
                                         (Draft.attachments (Page.input p))))
                          (Page.app p)).
  { destruct Hev as [->|[k ->]]; cbn [Page.step].
    - destruct (_ && _)%bool; [|left; reflexivity].
      right. unfold Page.on_both. rewrite Hsend, Hstep. reflexivity.
    - destruct (Draft.textarea_disabled _ _); [left; reflexivity|].
      unfold Page.on_both, Draft.handleKeyDown. step_m.
      destruct (_ && _)%bool; [|left; reflexivity].
      right. rewrite Hsend, Hstep. reflexivity. }
  destruct Hcases as [Hsame|Hsent]; rewrite ?Hsame, ?Hsent in Hcalls.
  - destruct (grown_calls _ _ Hcalls).
  - exact (Hsubmit _ _ _ _ Hcalls).
Qed.

(** The theorem at work.  On the page, after six exchanges, ["hi"] is sent
    with the click and its request carries messages 2 to 11 of the twelve
    on screen.  From a closure that holds fifteen messages, the ten most
    recent go out, ids 5 to 14, and the five oldest are dropped. *)
Lemma send_carries_recent_history_witness :
  (let p := Page.run Samples.six_exchanges (Page.initial Examples.browser) in
   let req := {| chatModel := "gemini-2.5-flash";
                 systemInstruction := SYSTEM_INSTRUCTION;
                 geminiService.history
                 := to_content <$> slice_last 10 (messages (Page.app p));
                 message := [TextPart "hi"] |} in
   id <$> messages (Page.app p) = seq 0 12
   /\ id <$> slice_last 10 (messages (Page.app p)) = seq 2 10
   /\ calls (service (Page.app (Page.step Page.ClickSend p)))
      = calls (service (Page.app p)) ++ [SendMessage req]
   /\ geminiService.history req
      = to_content <$> slice_last 10 (messages (Page.app p))
   /\ length (geminiService.history req) = min (length (messages (Page.app p))) 10
   /\ slice_last 10 (messages (Page.app p)) `suffix_of` messages (Page.app p))
  /\ (let s := mounted Examples.browser in
      let req := {| chatModel := "gemini-2.5-flash";
                    systemInstruction := SYSTEM_INSTRUCTION;
                    geminiService.history
                    := to_content <$> slice_last 10 Examples.fifteen_turns;
                    message := [TextPart "hi"] |} in
      id <$> slice_last 10 Examples.fifteen_turns = seq 5 10
      /\ calls (service (JS.exec (handleSendMessage_begin Examples.fifteen_turns
                                    "hi" [] false) s))
         = calls (service s) ++ [SendMessage req]
      /\ geminiService.history req
         = to_content <$> slice_last 10 Examples.fifteen_turns
      /\ length (geminiService.history req) = min (length Examples.fifteen_turns) 10
      /\ slice_last 10 Examples.fifteen_turns `suffix_of` Examples.fifteen_turns).
Proof.
  destruct send_carries_recent_history as (Hclosure & _ & Hpage).
  cbn zeta. split.
  - split; [vm_compute; reflexivity|]. split; [vm_compute; reflexivity|].
    split; [vm_compute; reflexivity|].
    apply (Hpage (Page.run Samples.six_exchanges (Page.initial Examples.browser))
             Page.ClickSend); [left; reflexivity|vm_compute; reflexivity].
  - split; [reflexivity|]. split; [vm_compute; reflexivity|].
    apply (Hclosure (mounted Examples.browser) Examples.fifteen_turns "hi" [] false).
    vm_compute. reflexivity.
Defined.

End PageFacts.
